(** * Jovial-LSP: the semantic parser of [jovial_semantic_parser.py]

    A shallow embedding of [JovialSemanticModel] and [JovialSemanticParser]
    and the properties of the line loop, the statement recognisers and the
    model's lookups.

    Conventions of the embedding.
    - A Python [str] is a [list ascii].  The text is 7-bit ASCII: the
      character classes and the case folding below are Python's on the codes
      0..127, and a code above 127 is carried through unchanged and is neither
      a letter, a digit nor white space.
    - A Python [int] is a [Z]; an index produced by [enumerate] is a [nat].
    - A [dict] with [str] keys is a [gmap (list ascii) _], but for the
      [entries] of a table, whose keys [get_hover_info] lists in their order
      of insertion: they are an [ODict.t].  The objects stored
      in two dictionaries at once ([ItemDefinition] values) are never written
      after their construction, so the maps hold them by value.
    - A regular expression is a term of type [Re.regex], run by a backtracking
      matcher with the priorities of Python's [re] (ordered alternation,
      greedy repetition, the last iteration of a repeated group is the one
      captured).
    - An exception leaves the method through [Raised], which carries the
      parser as it was when the exception left. *)

From Stdlib Require Import Ascii String List ZArith Lia Bool.
From stdpp Require Import gmap strings list fin_maps.
Import ListNotations.

Open Scope string_scope.
Open Scope list_scope.

Abbreviation str := (list ascii).

(** A string literal as a [str]. *)
Definition L (s : string) : str := list_ascii_of_string s.

(** ** Python's [str] methods *)

Module Py.

Definition code (a : ascii) : nat := nat_of_ascii a.

Definition between (lo hi : nat) (a : ascii) : bool :=
  (lo <=? code a)%nat && (code a <=? hi)%nat.

(** [str.isspace] on one character: TAB LF VT FF CR, FS GS RS US, SPACE. *)
Definition isspace (a : ascii) : bool :=
  between 9 13 a || between 28 32 a.

Definition isdigit_char (a : ascii) : bool := between 48 57 a.
Definition isupper_char (a : ascii) : bool := between 65 90 a.
Definition islower_char (a : ascii) : bool := between 97 122 a.
Definition isalpha_char (a : ascii) : bool := isupper_char a || islower_char a.

Definition upper_char (a : ascii) : ascii :=
  if islower_char a then ascii_of_nat (code a - 32) else a.

(** [s.upper()] *)
Definition upper (s : str) : str := map upper_char s.

(** [s.lstrip()], [s.rstrip()], [s.strip()] *)
Fixpoint lstrip (s : str) : str :=
  match s with
  | a :: s' => if isspace a then lstrip s' else s
  | [] => []
  end.

Definition rstrip (s : str) : str := rev (lstrip (rev s)).

Definition strip (s : str) : str := rstrip (lstrip s).

(** [s.lstrip(c)] and [s.rstrip(c)] for a one-character argument. *)
Fixpoint lstrip_char (c : ascii) (s : str) : str :=
  match s with
  | a :: s' => if Ascii.eqb a c then lstrip_char c s' else s
  | [] => []
  end.

Definition rstrip_char (c : ascii) (s : str) : str :=
  rev (lstrip_char c (rev s)).

(** [s.startswith(p)] *)
Fixpoint startswith (s p : str) : bool :=
  match p, s with
  | [], _ => true
  | b :: p', a :: s' => Ascii.eqb a b && startswith s' p'
  | _ :: _, [] => false
  end.

(** [s.endswith(p)] *)
Definition endswith (s p : str) : bool := startswith (rev s) (rev p).

(** [s == t] *)
Definition eqb (s t : str) : bool := bool_decide (s = t).

(** [s.find(p)] as a natural number, [None] for Python's -1. *)
Fixpoint find_from (s p : str) (i : nat) : option nat :=
  if startswith s p then Some i
  else match s with
       | [] => None
       | _ :: s' => find_from s' p (S i)
       end.

Definition find_opt (s p : str) : option nat := find_from s p 0.

(** [s.find(p)] *)
Definition find (s p : str) : Z :=
  match find_opt s p with
  | Some i => Z.of_nat i
  | None => (-1)%Z
  end.

(** [p in s] *)
Definition contains (s p : str) : bool :=
  match find_opt s p with Some _ => true | None => false end.

(** [c in s] for a character. *)
Definition has_char (c : ascii) (s : str) : bool :=
  existsb (Ascii.eqb c) s.

(** [s.split(c)] for a one-character separator: the pieces between the
    separators, always at least one piece. *)
Fixpoint split (c : ascii) (s : str) : list str :=
  match s with
  | [] => [[]]
  | a :: s' =>
      if Ascii.eqb a c then [] :: split c s'
      else let pieces := split c s' in (a :: hd [] pieces) :: tl pieces
  end.

(** [s.isdigit()]: non-empty and all digits. *)
Definition isdigit (s : str) : bool :=
  match s with
  | [] => false
  | _ => forallb isdigit_char s
  end.

Definition digit_value (a : ascii) : Z := Z.of_nat (code a - 48).

(** The value of a run of decimal digits. *)
Definition digits_value (s : str) : Z :=
  fold_left (fun acc a => (10 * acc + digit_value a)%Z) s 0%Z.

(** [sys.get_int_max_str_digits()], as the interpreter starts: [int] refuses
    a text of more digits. *)
Definition int_max_str_digits : Z := 4300.

(** The digits [d] are few enough for [int]; the sign does not count, a
    leading zero does. *)
Definition within_limit (d : str) : bool :=
  (Z.of_nat (length d) <=? int_max_str_digits)%Z.

(** [int(s)] on a text with no surrounding white space and no underscore:
    an optional sign and at least one digit, at most [int_max_str_digits]
    of them, or [ValueError] ([None]). *)
Definition int (s : str) : option Z :=
  match s with
  | "-"%char :: d =>
      if isdigit d && within_limit d then Some (- digits_value d)%Z else None
  | "+"%char :: d =>
      if isdigit d && within_limit d then Some (digits_value d) else None
  | _ => if isdigit s && within_limit s then Some (digits_value s) else None
  end.

(** [sep.join(l)] *)
Fixpoint join (sep : str) (l : list str) : str :=
  match l with
  | [] => []
  | [x] => x
  | x :: rest => x ++ sep ++ join sep rest
  end.

End Py.

(** ** A dictionary whose order of keys is read

    The pairs in the order of insertion; a key that is assigned again keeps
    its place and takes the new value. *)

Module ODict.

Record t (V : Type) : Type := mk { pairs : list (str * V) }.
Arguments mk {V} _.
Arguments pairs {V} _.

(** [d[k] = v] *)
Fixpoint set_pairs {V : Type} (k : str) (v : V) (l : list (str * V))
  : list (str * V) :=
  match l with
  | [] => [(k, v)]
  | (k', v') :: l' =>
      if Py.eqb k' k then (k', v) :: l' else (k', v') :: set_pairs k v l'
  end.

(** [d.get(k)] *)
Fixpoint get_pairs {V : Type} (k : str) (l : list (str * V)) : option V :=
  match l with
  | [] => None
  | (k', v') :: l' => if Py.eqb k' k then Some v' else get_pairs k l'
  end.

(** [list(d.keys())] *)
Definition keys {V : Type} (d : t V) : list str := map fst (pairs d).

#[global] Instance empty {V : Type} : Empty (t V) := mk [].
#[global] Instance lookup {V : Type} : Lookup str V (t V) :=
  fun k d => get_pairs k (pairs d).
#[global] Instance insert {V : Type} : Insert str V (t V) :=
  fun k v d => mk (set_pairs k v (pairs d)).

End ODict.

(** ** Regular expressions with Python's matching priorities *)

Module Re.

(** Captured groups: group number to captured text; a group that did not
    take part in the match is absent ([None] in Python). *)
Abbreviation caps := (gmap nat str).

Inductive regex : Type :=
| Eps : regex                        (* the empty pattern *)
| Cls : (ascii -> bool) -> regex     (* one character of a class *)
| Cat : regex -> regex -> regex      (* r1 r2 *)
| Alt : regex -> regex -> regex      (* r1|r2, r1 tried first *)
| Star : regex -> regex              (* r*, greedy *)
| Grp : nat -> regex -> regex        (* ( r ), capturing group number n *)
| Eol : regex.                       (* $ *)

(** The result of a successful run: what is left of the input, and the
    groups. *)
Abbreviation result := (str * caps)%type.
Abbreviation cont := (str -> caps -> option result).

Definition at_eol (s : str) : bool :=
  match s with
  | [] => true
  | [a] => Ascii.eqb a "010"%char
  | _ => false
  end.

(** The loop of a greedy [r*]: an iteration of the body, then the loop
    again, else the rest of the pattern.  An iteration that consumes nothing
    is refused, as in [re]; [n] bounds the iterations by the length of the
    input, which every iteration shortens. *)
Section StarLoop.
Variable body : cont -> cont.
Variable k : cont.

Fixpoint star_loop (n : nat) (s : str) (c : caps) {struct n}
  : option result :=
  match n with
  | O => k s c
  | S n' =>
      match body (fun s' c' =>
                    if (length s' <? length s)%nat
                    then star_loop n' s' c' else None) s c with
      | Some x => Some x
      | None => k s c
      end
  end.
End StarLoop.

(** The backtracking matcher, in continuation-passing style: [run r k s c]
    matches [r] at the front of [s] and hands the rest to [k]; when [k]
    refuses, the next alternative of [r] is tried. *)
Fixpoint run (r : regex) (k : cont) (s : str) (c : caps) {struct r}
  : option result :=
  match r with
  | Eps => k s c
  | Cls p =>
      match s with
      | a :: s' => if p a then k s' c else None
      | [] => None
      end
  | Cat r1 r2 => run r1 (run r2 k) s c
  | Alt r1 r2 =>
      match run r1 k s c with
      | Some x => Some x
      | None => run r2 k s c
      end
  | Star r1 => star_loop (run r1) k (length s) s c
  | Grp i r1 =>
      run r1 (fun s' c' =>
                k s' (<[i := take (length s - length s') s]> c')) s c
  | Eol => if at_eol s then k s c else None
  end.

Definition accept : cont := fun s c => Some (s, c).

(** A match object: the matched text (group 0) and the groups. *)
Record Match := { whole : str; groups : caps }.

(** [m.group(i)] for i >= 1: [None] when the group did not take part. *)
Definition group (m : Match) (i : nat) : option str := groups m !! i.

(** [m.group(i) or ""] *)
Definition group_or_empty (m : Match) (i : nat) : str :=
  default [] (group m i).

(** [re.match(r, s)]: a match at the start of [s]. *)
Definition match_ (r : regex) (s : str) : option Match :=
  match run r accept s ∅ with
  | Some (rest, c) =>
      Some {| whole := take (length s - length rest) s; groups := c |}
  | None => None
  end.

(** [re.search(r, s)]: the leftmost match; also the text before it and the
    text after it. *)
Fixpoint search_from (r : regex) (pre s : str) : option (str * Match * str) :=
  match run r accept s ∅ with
  | Some (rest, c) =>
      Some (rev pre,
            {| whole := take (length s - length rest) s; groups := c |},
            rest)
  | None =>
      match s with
      | [] => None
      | a :: s' => search_from r (a :: pre) s'
      end
  end.

Definition search (r : regex) (s : str) : option Match :=
  match search_from r [] s with
  | Some (_, m, _) => Some m
  | None => None
  end.

(** [r.findall(s)] for a pattern with one group: group 1 of the successive
    non-overlapping matches, left to right.  After an empty match the scan
    moves one character on. *)
Fixpoint findall_fuel (n : nat) (r : regex) (s : str) : list str :=
  match n with
  | O => []
  | S n' =>
      match search_from r [] s with
      | None => []
      | Some (_, m, rest) =>
          group_or_empty m 1 ::
          match whole m, rest with
          | _ :: _, _ => findall_fuel n' r rest
          | [], _ :: rest' => findall_fuel n' r rest'
          | [], [] => []
          end
      end
  end.

Definition findall (r : regex) (s : str) : list str :=
  findall_fuel (S (length s)) r s.

(** *** Pattern syntax *)

Definition Plus (r : regex) : regex := Cat r (Star r).   (* r+ *)
Definition Opt (r : regex) : regex := Alt r Eps.         (* r? *)

(** One literal character under [re.IGNORECASE]. *)
Definition ichar (c : ascii) : regex :=
  Cls (fun a => Ascii.eqb (Py.upper_char a) (Py.upper_char c)).

(** One literal character, case-sensitive. *)
Definition char (c : ascii) : regex := Cls (Ascii.eqb c).

(** A literal word under [re.IGNORECASE]. *)
Fixpoint ilit (w : str) : regex :=
  match w with
  | [] => Eps
  | [c] => ichar c
  | c :: w' => Cat (ichar c) (ilit w')
  end.

Definition ws : regex := Cls Py.isspace.                 (* \s *)
Definition digit : regex := Cls Py.isdigit_char.         (* \d *)
Definition dot : regex :=                                (* . *)
  Cls (fun a => negb (Ascii.eqb a "010"%char)).

(** [[A-Z]] under [re.IGNORECASE]. *)
Definition alpha : regex := Cls Py.isalpha_char.

Definition ident_char (a : ascii) : bool :=
  Py.isalpha_char a || Py.isdigit_char a || Ascii.eqb a "'"%char.

(** IDENT: a letter, then letters, digits and apostrophes
    ([A-Z] [A-Z0-9'] star, under [re.IGNORECASE]). *)
Definition ident : regex := Cat alpha (Star (Cls ident_char)).

(** [[^)]] *)
Definition not_rparen : regex :=
  Cls (fun a => negb (Ascii.eqb a ")"%char)).

End Re.

Declare Scope re_scope.
Delimit Scope re_scope with re.
Bind Scope re_scope with Re.regex.
Infix "+>" := Re.Cat (at level 60, right associativity) : re_scope.
Infix "</>" := Re.Alt (at level 65, right associativity) : re_scope.

(** ** The data model *)

(** [class JovialType(Enum)] *)
Inductive JovialType : Type :=
| SIGNED | UNSIGNED | FLOAT | FIXED | BIT | CHARACTER
| STATUS | POINTER | TABLE | ENTRY | UNKNOWN.

(** [JovialType.value] *)
Definition JovialType_value (t : JovialType) : str :=
  match t with
  | SIGNED => L "S" | UNSIGNED => L "U" | FLOAT => L "F" | FIXED => L "A"
  | BIT => L "B" | CHARACTER => L "C" | STATUS => L "STATUS"
  | POINTER => L "P" | TABLE => L "TABLE" | ENTRY => L "ENTRY"
  | UNKNOWN => L "UNKNOWN"
  end.

(** [@dataclass class ItemDefinition] *)
Module Item.
Record t : Type := mk {
  name : str;
  type : JovialType;
  size : option Z;
  scale : option Z;
  status_values : list str;
  is_constant : bool;
  is_static : bool;
  is_parallel : bool;
  initial_value : option str;
  position : option (Z * Z);
  line_number : nat;
  column_start : Z;
  column_end : Z;
  parent_table : option str
}.
End Item.
Abbreviation ItemDefinition := Item.t.

(** [@dataclass class TableDefinition] *)
Module Table.
Record t : Type := mk {
  name : str;
  dimensions : list (Z * Z);
  entries : ODict.t ItemDefinition;
  is_constant : bool;
  is_static : bool;
  is_parallel : bool;
  wordsize : option Z;
  line_start : nat;
  line_end : nat
}.

(** [table.entries[k] = item] *)
Definition set_entry (k : str) (item : ItemDefinition) (tb : t) : t :=
  mk (name tb) (dimensions tb) (<[k := item]> (entries tb)) (is_constant tb)
     (is_static tb) (is_parallel tb) (wordsize tb) (line_start tb)
     (line_end tb).

(** [table.line_end = n] *)
Definition set_line_end (n : nat) (tb : t) : t :=
  mk (name tb) (dimensions tb) (entries tb) (is_constant tb) (is_static tb)
     (is_parallel tb) (wordsize tb) (line_start tb) n.
End Table.
Abbreviation TableDefinition := Table.t.

(** [@dataclass class ProcDefinition] *)
Module Proc.
Record t : Type := mk {
  name : str;
  parameters : list (str * str);
  return_type : option JovialType;
  is_recursive : bool;
  is_reentrant : bool;
  local_items : gmap str ItemDefinition;
  local_tables : gmap str TableDefinition;
  line_start : nat;
  line_end : nat;
  body_start : nat
}.

(** [proc.local_items[k] = item] *)
Definition set_local_item (k : str) (item : ItemDefinition) (pr : t) : t :=
  mk (name pr) (parameters pr) (return_type pr) (is_recursive pr)
     (is_reentrant pr) (<[k := item]> (local_items pr)) (local_tables pr)
     (line_start pr) (line_end pr) (body_start pr).

(** [proc.line_end = n] *)
Definition set_line_end (n : nat) (pr : t) : t :=
  mk (name pr) (parameters pr) (return_type pr) (is_recursive pr)
     (is_reentrant pr) (local_items pr) (local_tables pr) (line_start pr) n
     (body_start pr).

(** [proc.body_start = n] *)
Definition set_body_start (n : nat) (pr : t) : t :=
  mk (name pr) (parameters pr) (return_type pr) (is_recursive pr)
     (is_reentrant pr) (local_items pr) (local_tables pr) (line_start pr)
     (line_end pr) n.
End Proc.
Abbreviation ProcDefinition := Proc.t.

(** [@dataclass class CompoolReference] *)
Module Compool.
Record t : Type := mk {
  name : str;
  items : gset str;
  tables : gset str;
  procs : gset str;
  line_number : nat
}.
End Compool.
Abbreviation CompoolReference := Compool.t.

(** [@dataclass class DefineConstant] *)
Module Define.
Record t : Type := mk {
  name : str;
  value : str;
  line_number : nat
}.
End Define.
Abbreviation DefineConstant := Define.t.

(** The dictionary stored in [model.types] by [_parse_type_declaration]. *)
Module TypeDecl.
Record t : Type := mk {
  name : str;
  description : str;
  line : nat
}.
End TypeDecl.

(** ** [class JovialSemanticModel] *)

Module Model.
Record t : Type := mk {
  items : gmap str ItemDefinition;
  tables : gmap str TableDefinition;
  procs : gmap str ProcDefinition;
  compools : gmap str CompoolReference;
  defines : gmap str DefineConstant;
  types : gmap str TypeDecl.t;
  current_scope : str;
  scope_stack : list str;
  program_name : option str;
  module_type : option str
}.

Definition set_items (v : gmap str ItemDefinition) (m : t) : t :=
  mk v (tables m) (procs m) (compools m) (defines m) (types m)
     (current_scope m) (scope_stack m) (program_name m) (module_type m).

Definition set_tables (v : gmap str TableDefinition) (m : t) : t :=
  mk (items m) v (procs m) (compools m) (defines m) (types m)
     (current_scope m) (scope_stack m) (program_name m) (module_type m).

Definition set_procs (v : gmap str ProcDefinition) (m : t) : t :=
  mk (items m) (tables m) v (compools m) (defines m) (types m)
     (current_scope m) (scope_stack m) (program_name m) (module_type m).

Definition set_defines (v : gmap str DefineConstant) (m : t) : t :=
  mk (items m) (tables m) (procs m) (compools m) v (types m)
     (current_scope m) (scope_stack m) (program_name m) (module_type m).

Definition set_types (v : gmap str TypeDecl.t) (m : t) : t :=
  mk (items m) (tables m) (procs m) (compools m) (defines m) v
     (current_scope m) (scope_stack m) (program_name m) (module_type m).

Definition set_program_name (v : option str) (m : t) : t :=
  mk (items m) (tables m) (procs m) (compools m) (defines m) (types m)
     (current_scope m) (scope_stack m) v (module_type m).

Definition set_module_type (v : option str) (m : t) : t :=
  mk (items m) (tables m) (procs m) (compools m) (defines m) (types m)
     (current_scope m) (scope_stack m) (program_name m) v.

(** [JovialSemanticModel.__init__] *)
Definition init : t :=
  mk ∅ ∅ ∅ ∅ ∅ ∅ (L "GLOBAL") [] None None.

(** [add_item]: the item is stored under its name and under [key]. *)
Definition add_item (self : t) (item : ItemDefinition) : t :=
  let key :=
    if negb (Py.eqb (current_scope self) (L "GLOBAL"))
    then current_scope self ++ L "." ++ Item.name item
    else Item.name item in
  let self := set_items (<[Item.name item := item]> (items self)) self in
  set_items (<[key := item]> (items self)) self.

(** [get_item] *)
Definition get_item (self : t) (name : str) : option ItemDefinition :=
  let scoped_name := current_scope self ++ L "." ++ name in
  match items self !! scoped_name with
  | Some it => Some it
  | None =>
      match items self !! name with
      | Some it => Some it
      | None => None
      end
  end.

(** [add_table] *)
Definition add_table (self : t) (table : TableDefinition) : t :=
  set_tables (<[Table.name table := table]> (tables self)) self.

(** [get_table] *)
Definition get_table (self : t) (name : str) : option TableDefinition :=
  tables self !! name.

(** [add_proc] *)
Definition add_proc (self : t) (proc : ProcDefinition) : t :=
  set_procs (<[Proc.name proc := proc]> (procs self)) self.

(** [get_proc] *)
Definition get_proc (self : t) (name : str) : option ProcDefinition :=
  procs self !! name.

(** [d.keys()], in an order the model leaves open. *)
Definition keys {V : Type} (d : gmap str V) : list str :=
  (map_to_list d).*1.

(** [get_all_symbols]: [list(set(symbols))]; the order of the result is
    that of the set and is left open. *)
Definition get_all_symbols (self : t) : list str :=
  let symbols := [] in
  let symbols := symbols ++ keys (items self) in
  let symbols := symbols ++ keys (tables self) in
  let symbols := symbols ++ keys (procs self) in
  let symbols := symbols ++ keys (defines self) in
  elements (list_to_set symbols : gset str).

End Model.
Abbreviation JovialSemanticModel := Model.t.

(** ** [class JovialSemanticParser] *)

Module Parser.
Record t : Type := mk {
  model : JovialSemanticModel;
  lines : list str;
  current_line_num : nat;
  in_table_body : bool;
  current_table : option str;
  in_proc_body : bool;
  current_proc : option str;
  in_compool : bool
}.

Definition set_model (v : JovialSemanticModel) (p : t) : t :=
  mk v (lines p) (current_line_num p) (in_table_body p) (current_table p)
     (in_proc_body p) (current_proc p) (in_compool p).

Definition set_lines (v : list str) (p : t) : t :=
  mk (model p) v (current_line_num p) (in_table_body p) (current_table p)
     (in_proc_body p) (current_proc p) (in_compool p).

Definition set_current_line_num (v : nat) (p : t) : t :=
  mk (model p) (lines p) v (in_table_body p) (current_table p)
     (in_proc_body p) (current_proc p) (in_compool p).

Definition set_in_table_body (v : bool) (p : t) : t :=
  mk (model p) (lines p) (current_line_num p) v (current_table p)
     (in_proc_body p) (current_proc p) (in_compool p).

Definition set_current_table (v : option str) (p : t) : t :=
  mk (model p) (lines p) (current_line_num p) (in_table_body p) v
     (in_proc_body p) (current_proc p) (in_compool p).

Definition set_in_proc_body (v : bool) (p : t) : t :=
  mk (model p) (lines p) (current_line_num p) (in_table_body p)
     (current_table p) v (current_proc p) (in_compool p).

Definition set_current_proc (v : option str) (p : t) : t :=
  mk (model p) (lines p) (current_line_num p) (in_table_body p)
     (current_table p) (in_proc_body p) v (in_compool p).

Definition set_in_compool (v : bool) (p : t) : t :=
  mk (model p) (lines p) (current_line_num p) (in_table_body p)
     (current_table p) (in_proc_body p) (current_proc p) v.

(** [JovialSemanticParser.__init__] *)
Definition init : t :=
  mk Model.init [] 0 false None false None false.
End Parser.
Abbreviation JovialSemanticParser := Parser.t.

(** The exceptions of the methods below. *)
Inductive Exn : Type := ValueError.

(** How a method leaves: normally with a value, or by an exception, with the
    parser as it then is. *)
Inductive Outcome (A : Type) : Type :=
| Done (a : A)
| Raised (e : Exn) (p : JovialSemanticParser).
Arguments Done {A} a.
Arguments Raised {A} e p.

Definition bind {A B : Type} (o : Outcome A) (k : A -> Outcome B)
  : Outcome B :=
  match o with
  | Done a => k a
  | Raised e p => Raised e p
  end.

Notation "'let*' x := e 'in' k" := (bind e (fun x => k))
  (at level 10, x name, e at level 100, k at level 200, only parsing).

(** [int(s)] inside a method of the parser. *)
Definition int_or_raise (self : JovialSemanticParser) (s : str) : Outcome Z :=
  match Py.int s with
  | Some n => Done n
  | None => Raised ValueError self
  end.

(** The truth value of an [Optional[str]]. *)
Definition truthy (o : option str) : bool :=
  match o with
  | Some (_ :: _) => true
  | _ => false
  end.

(** *** The patterns of the recognisers

    All under [re.IGNORECASE] except [VALUE_RE]; IDENT is [Re.ident] and
    REST is any run of characters, [Star dot]. *)

Section Patterns.
Import Re.

(** [r'START\s+(IDENT)?'] *)
Definition START_RE : regex :=
  (ilit (L "START") +> Plus ws +> Opt (Grp 1 ident))%re.

(** [r'COMPOOL\s+(IDENT)'] *)
Definition COMPOOL_RE : regex :=
  (ilit (L "COMPOOL") +> Plus ws +> Grp 1 ident)%re.

(** [r'ITEM\s+(IDENT)\s+(STATIC\s+|CONSTANT\s+|PARALLEL\s+)*'
    r'(S|U|F|A|B|C|P|STATUS)\s*(\d+)?(REST)'] *)
Definition ITEM_RE : regex :=
  (ilit (L "ITEM") +> Plus ws +> Grp 1 ident +> Plus ws +>
   Star (Grp 2 ((ilit (L "STATIC") +> Plus ws) </>
                (ilit (L "CONSTANT") +> Plus ws) </>
                (ilit (L "PARALLEL") +> Plus ws))) +>
   Grp 3 (ilit (L "S") </> ilit (L "U") </> ilit (L "F") </> ilit (L "A") </>
          ilit (L "B") </> ilit (L "C") </> ilit (L "P") </>
          ilit (L "STATUS")) +>
   Star ws +> Opt (Grp 4 (Plus digit)) +> Grp 5 (Star dot))%re.

(** [r'=\s*(.+)$'] *)
Definition VALUE_RE : regex :=
  (char "=" +> Star ws +> Grp 1 (Plus dot) +> Eol)%re.

(** [STATUS_VALUE_PATTERN]: V, white space, an opening parenthesis, white
    space, (IDENT), white space, a closing parenthesis. *)
Definition STATUS_VALUE_PATTERN : regex :=
  (ichar "V" +> Star ws +> char "(" +> Star ws +> Grp 1 ident +> Star ws +>
   char ")")%re.

(** [r'TABLE\s+(IDENT)\s*\(([^)]+)\)\s*(REST)'] *)
Definition TABLE_RE : regex :=
  (ilit (L "TABLE") +> Plus ws +> Grp 1 ident +> Star ws +>
   char "(" +> Grp 2 (Plus not_rparen) +> char ")" +> Star ws +>
   Grp 3 (Star dot))%re.

(** [r'W\s+(\d+)'] *)
Definition W_RE : regex :=
  (ichar "W" +> Plus ws +> Grp 1 (Plus digit))%re.

(** [r'PROC\s+(IDENT)\s*(?:\((PARAMS)\))?\s*(REST)'], PARAMS any run of
    characters other than the closing parenthesis. *)
Definition PROC_RE : regex :=
  (ilit (L "PROC") +> Plus ws +> Grp 1 ident +> Star ws +>
   Opt (char "(" +> Grp 2 (Star not_rparen) +> char ")") +> Star ws +>
   Grp 3 (Star dot))%re.

(** [r'TYPE\s+(IDENT)\s+(.+)'] *)
Definition TYPE_RE : regex :=
  (ilit (L "TYPE") +> Plus ws +> Grp 1 ident +> Plus ws +>
   Grp 2 (Plus dot))%re.

(** [r'DEFINE\s+(IDENT)\s*=?\s*(.+)'] *)
Definition DEFINE_RE : regex :=
  (ilit (L "DEFINE") +> Plus ws +> Grp 1 ident +> Star ws +>
   Opt (char "=") +> Star ws +> Grp 2 (Plus dot))%re.

(** [r'DEF\s+(ITEM|TABLE|PROC)?\s*(IDENT)'] *)
Definition DEF_RE : regex :=
  (ilit (L "DEF") +> Plus ws +>
   Opt (Grp 1 (ilit (L "ITEM") </> ilit (L "TABLE") </> ilit (L "PROC"))) +>
   Star ws +> Grp 2 ident)%re.

(** [r'REF\s+(ITEM|TABLE|PROC)?\s*(IDENT)'] *)
Definition REF_RE : regex :=
  (ilit (L "REF") +> Plus ws +>
   Opt (Grp 1 (ilit (L "ITEM") </> ilit (L "TABLE") </> ilit (L "PROC"))) +>
   Star ws +> Grp 2 ident)%re.

End Patterns.

(** *** The recognisers *)

(** [_remove_comments]: the loop over the characters of the line, with its
    three variables; [break] returns [result]. *)
Fixpoint _remove_comments_loop (line : str) (result : str)
    (in_string in_comment : bool) : str :=
  match line with
  | [] => result
  | char :: rest =>
      if in_comment then result
      else if Ascii.eqb char "034"%char && negb in_string then
        _remove_comments_loop rest result in_string true
      else if Ascii.eqb char "'"%char && negb in_comment then
        _remove_comments_loop rest (result ++ [char]) (negb in_string)
                              in_comment
      else
        _remove_comments_loop rest (result ++ [char]) in_string in_comment
  end.

Definition _remove_comments (line : str) : str :=
  _remove_comments_loop line [] false false.

(** [_parse_start] *)
Definition _parse_start (self : JovialSemanticParser) (statement : str)
    (line_num : nat) : JovialSemanticParser :=
  let self :=
    match Re.match_ START_RE statement with
    | Some m =>
        if truthy (Re.group m 1)
        then Parser.set_model
               (Model.set_program_name (Re.group m 1) (Parser.model self))
               self
        else self
    | None => self
    end in
  Parser.set_model
    (Model.set_module_type (Some (L "MAIN")) (Parser.model self)) self.

(** [_parse_compool_start] *)
Definition _parse_compool_start (self : JovialSemanticParser)
    (statement : str) (line_num : nat) : JovialSemanticParser :=
  let self :=
    match Re.match_ COMPOOL_RE statement with
    | Some m =>
        let self :=
          Parser.set_model
            (Model.set_program_name (Re.group m 1) (Parser.model self))
            self in
        Parser.set_model
          (Model.set_module_type (Some (L "COMPOOL")) (Parser.model self))
          self
    | None => self
    end in
  Parser.set_in_compool true self.

(** The dictionary [type_map] of [_parse_item_declaration]. *)
Definition type_map (abbrev : str) : option JovialType :=
  if Py.eqb abbrev (L "S") then Some SIGNED
  else if Py.eqb abbrev (L "U") then Some UNSIGNED
  else if Py.eqb abbrev (L "F") then Some FLOAT
  else if Py.eqb abbrev (L "A") then Some FIXED
  else if Py.eqb abbrev (L "B") then Some BIT
  else if Py.eqb abbrev (L "C") then Some CHARACTER
  else if Py.eqb abbrev (L "P") then Some POINTER
  else if Py.eqb abbrev (L "STATUS") then Some STATUS
  else None.

Definition JovialType_eqb (a b : JovialType) : bool :=
  match a, b with
  | SIGNED, SIGNED | UNSIGNED, UNSIGNED | FLOAT, FLOAT | FIXED, FIXED
  | BIT, BIT | CHARACTER, CHARACTER | STATUS, STATUS | POINTER, POINTER
  | TABLE, TABLE | ENTRY, ENTRY | UNKNOWN, UNKNOWN => true
  | _, _ => false
  end.

(** The [ItemDefinition] built by [_parse_item_declaration] from the match
    [m] of [ITEM_RE], with [size] already converted. *)
Definition item_of_match (self : JovialSemanticParser) (statement : str)
    (line_num : nat) (m : Re.Match) (size : option Z) : ItemDefinition :=
  let name := Re.group_or_empty m 1 in
  let attrs := Re.group_or_empty m 2 in
  let type_abbrev := Py.upper (Re.group_or_empty m 3) in
  let rest := Re.group_or_empty m 5 in
  let item_type := default UNKNOWN (type_map type_abbrev) in
  let status_values :=
    if JovialType_eqb item_type STATUS
    then Re.findall STATUS_VALUE_PATTERN statement
    else [] in
  let initial_value :=
    match Re.search VALUE_RE rest with
    | Some value_match => Some (Py.strip (Re.group_or_empty value_match 1))
    | None => None
    end in
  Item.mk name item_type size None status_values
          (Py.contains (Py.upper attrs) (L "CONSTANT"))
          (Py.contains (Py.upper attrs) (L "STATIC"))
          (Py.contains (Py.upper attrs) (L "PARALLEL"))
          initial_value None line_num
          (Py.find (Py.upper statement) name)
          (Py.find (Py.upper statement) name + Z.of_nat (length name))%Z
          (Parser.current_table self).

(** The placement of a new item by [_parse_item_declaration]: into the
    entries of the current table, or the locals of the current procedure,
    and always into the model. *)
Definition place_item (self : JovialSemanticParser) (name : str)
    (item : ItemDefinition) : JovialSemanticParser :=
  let self :=
    if truthy (Parser.current_table self) && Parser.in_table_body self then
      match Model.get_table (Parser.model self)
                            (default [] (Parser.current_table self)) with
      | Some table =>
          Parser.set_model
            (Model.set_tables
               (<[default [] (Parser.current_table self) :=
                    Table.set_entry name item table]>
                  (Model.tables (Parser.model self)))
               (Parser.model self)) self
      | None => self
      end
    else if truthy (Parser.current_proc self) && Parser.in_proc_body self then
      match Model.get_proc (Parser.model self)
                           (default [] (Parser.current_proc self)) with
      | Some proc =>
          Parser.set_model
            (Model.set_procs
               (<[default [] (Parser.current_proc self) :=
                    Proc.set_local_item name item proc]>
                  (Model.procs (Parser.model self)))
               (Parser.model self)) self
      | None => self
      end
    else self in
  Parser.set_model (Model.add_item (Parser.model self) item) self.

(** [_parse_item_declaration] *)
Definition _parse_item_declaration (self : JovialSemanticParser)
    (statement : str) (line_num : nat) : Outcome JovialSemanticParser :=
  let stmt := Py.strip (Py.rstrip_char ";" statement) in
  match Re.match_ ITEM_RE stmt with
  | Some m =>
      let* size :=
        match Re.group m 4 with
        | Some ((_ :: _) as g) =>
            let* n := int_or_raise self g in Done (Some n)
        | _ => Done None
        end in
      let item := item_of_match self statement line_num m size in
      Done (place_item self (Re.group_or_empty m 1) item)
  | None => Done self
  end.

(** The size of a match of [ITEM_RE] is one that [int] converts. *)
Definition size_within_limit (m : Re.Match) : bool :=
  match Re.group m 4 with
  | Some g => Py.within_limit g
  | None => true
  end.

(** One bound of a [lower:upper] dimension:
    [int(p.strip()) if p.strip().lstrip('-').isdigit() else 0]. *)
Definition parse_bound (self : JovialSemanticParser) (part : str)
  : Outcome Z :=
  if Py.isdigit (Py.lstrip_char "-" (Py.strip part))
  then int_or_raise self (Py.strip part)
  else Done 0%Z.

(** The body of the loop over [dim_parts] in [_parse_table_declaration]:
    the pair appended to [dimensions]. *)
Definition parse_dim (self : JovialSemanticParser) (dim : str)
  : Outcome (Z * Z) :=
  let dim := Py.strip dim in
  if Py.has_char ":" dim then
    let parts := Py.split ":" dim in
    let* lower := parse_bound self (default [] (parts !! 0%nat)) in
    let* upper := parse_bound self (default [] (parts !! 1%nat)) in
    Done (lower, upper)
  else
    let* upper :=
      if Py.isdigit dim then int_or_raise self dim else Done 0%Z in
    Done (1%Z, upper).

(** The loop over [dim_parts]. *)
Fixpoint parse_dims (self : JovialSemanticParser) (dim_parts : list str)
    (dimensions : list (Z * Z)) : Outcome (list (Z * Z)) :=
  match dim_parts with
  | [] => Done dimensions
  | dim :: rest =>
      let* d := parse_dim self dim in
      parse_dims self rest (dimensions ++ [d])
  end.

(** [_parse_table_declaration] *)
Definition _parse_table_declaration (self : JovialSemanticParser)
    (statement : str) (line_num : nat) : Outcome JovialSemanticParser :=
  let stmt := Py.strip (Py.rstrip_char ";" statement) in
  match Re.match_ TABLE_RE stmt with
  | Some m =>
      let name := Re.group_or_empty m 1 in
      let dims_str := Re.group_or_empty m 2 in
      let attrs := Re.group_or_empty m 3 in
      let* dimensions := parse_dims self (Py.split "," dims_str) [] in
      let* wordsize :=
        match Re.search W_RE attrs with
        | Some w_match =>
            let* n := int_or_raise self (Re.group_or_empty w_match 1) in
            Done (Some n)
        | None => Done None
        end in
      let table :=
        Table.mk name dimensions ∅
                 (Py.contains (Py.upper attrs) (L "CONSTANT"))
                 (Py.contains (Py.upper attrs) (L "STATIC"))
                 (Py.contains (Py.upper attrs) (L "PARALLEL"))
                 wordsize line_num 0 in
      let self :=
        Parser.set_model (Model.add_table (Parser.model self) table) self in
      Done (Parser.set_current_table (Some name) self)
  | None => Done self
  end.

Definition nonempty (s : str) : bool :=
  match s with [] => false | _ :: _ => true end.

(** [[p.strip() for p in s.split(',') if p.strip()]] *)
Definition param_names (s : str) : list str :=
  List.filter nonempty (map Py.strip (Py.split "," s)).

(** The parameter list built by [_parse_proc_declaration] from
    [params_str]. *)
Definition proc_parameters (params_str : str) : list (str * str) :=
  if nonempty params_str then
    if Py.has_char ":" params_str then
      let in_out := Py.split ":" params_str in
      let inputs := param_names (default [] (in_out !! 0%nat)) in
      let outputs :=
        if (1 <? length in_out)%nat
        then param_names (default [] (in_out !! 1%nat))
        else [] in
      map (fun p => (p, L "IN")) inputs ++
      map (fun p => (p, L "OUT")) outputs
    else
      map (fun p => (p, L "INOUT")) (param_names params_str)
  else [].

(** [_parse_proc_declaration] *)
Definition _parse_proc_declaration (self : JovialSemanticParser)
    (statement : str) (line_num : nat) : JovialSemanticParser :=
  let stmt := Py.strip (Py.rstrip_char ";" statement) in
  match Re.match_ PROC_RE stmt with
  | Some m =>
      let name := Re.group_or_empty m 1 in
      let params_str := Re.group_or_empty m 2 in
      let parameters := proc_parameters params_str in
      let proc :=
        Proc.mk name parameters None false false ∅ ∅ line_num 0 0 in
      let self :=
        Parser.set_model (Model.add_proc (Parser.model self) proc) self in
      Parser.set_current_proc (Some name) self
  | None => self
  end.

(** [_parse_type_declaration] *)
Definition _parse_type_declaration (self : JovialSemanticParser)
    (statement : str) (line_num : nat) : JovialSemanticParser :=
  let stmt := Py.strip (Py.rstrip_char ";" statement) in
  match Re.match_ TYPE_RE stmt with
  | Some m =>
      let name := Re.group_or_empty m 1 in
      let type_desc := Re.group_or_empty m 2 in
      Parser.set_model
        (Model.set_types
           (<[name := TypeDecl.mk name type_desc line_num]>
              (Model.types (Parser.model self)))
           (Parser.model self)) self
  | None => self
  end.

(** [_parse_define] *)
Definition _parse_define (self : JovialSemanticParser)
    (statement : str) (line_num : nat) : JovialSemanticParser :=
  let stmt := Py.strip (Py.rstrip_char ";" statement) in
  match Re.match_ DEFINE_RE stmt with
  | Some m =>
      let name := Re.group_or_empty m 1 in
      let value := Re.group_or_empty m 2 in
      Parser.set_model
        (Model.set_defines
           (<[name := Define.mk name value line_num]>
              (Model.defines (Parser.model self)))
           (Parser.model self)) self
  | None => self
  end.

(** [ItemDefinition(name=name, type=JovialType.UNKNOWN, line_number=n)] *)
Definition placeholder_item (name : str) (line_num : nat) : ItemDefinition :=
  Item.mk name UNKNOWN None None [] false false false None None line_num
          0 0 None.

(** [_parse_def_reference] *)
Definition _parse_def_reference (self : JovialSemanticParser)
    (statement : str) (line_num : nat) : JovialSemanticParser :=
  let stmt := Py.strip (Py.rstrip_char ";" statement) in
  match Re.match_ DEF_RE stmt with
  | Some m =>
      let kind :=
        if truthy (Re.group m 1)
        then Some (Py.upper (Re.group_or_empty m 1)) else None in
      let name := Re.group_or_empty m 2 in
      match kind with
      | Some k =>
          if Py.eqb k (L "ITEM")
          then Parser.set_model
                 (Model.add_item (Parser.model self)
                                 (placeholder_item name line_num)) self
          else self
      | None =>
          Parser.set_model
            (Model.add_item (Parser.model self)
                            (placeholder_item name line_num)) self
      end
  | None => self
  end.

(** [_parse_ref_reference] *)
Definition _parse_ref_reference (self : JovialSemanticParser)
    (statement : str) (line_num : nat) : JovialSemanticParser :=
  let stmt := Py.strip (Py.rstrip_char ";" statement) in
  match Re.match_ REF_RE stmt with
  | Some m =>
      let kind :=
        if truthy (Re.group m 1)
        then Py.upper (Re.group_or_empty m 1) else L "PROC" in
      let name := Re.group_or_empty m 2 in
      if Py.eqb kind (L "PROC")
      then Parser.set_model
             (Model.add_proc (Parser.model self)
                (Proc.mk name [] None false false ∅ ∅ line_num 0 0)) self
      else self
  | None => self
  end.

(** [_handle_begin] *)
Definition _handle_begin (self : JovialSemanticParser) (line_num : nat)
  : JovialSemanticParser :=
  let self :=
    if truthy (Parser.current_table self)
    then Parser.set_in_table_body true self else self in
  if truthy (Parser.current_proc self) then
    let self := Parser.set_in_proc_body true self in
    let key := default [] (Parser.current_proc self) in
    match Model.get_proc (Parser.model self) key with
    | Some proc =>
        Parser.set_model
          (Model.set_procs
             (<[key := Proc.set_body_start line_num proc]>
                (Model.procs (Parser.model self)))
             (Parser.model self)) self
    | None => self
    end
  else self.

(** [_handle_end] *)
Definition _handle_end (self : JovialSemanticParser) (line_num : nat)
  : JovialSemanticParser :=
  if Parser.in_table_body self then
    let self := Parser.set_in_table_body false self in
    let self :=
      if truthy (Parser.current_table self) then
        let key := default [] (Parser.current_table self) in
        match Model.get_table (Parser.model self) key with
        | Some table =>
            Parser.set_model
              (Model.set_tables
                 (<[key := Table.set_line_end line_num table]>
                    (Model.tables (Parser.model self)))
                 (Parser.model self)) self
        | None => self
        end
      else self in
    Parser.set_current_table None self
  else if Parser.in_proc_body self then
    let self := Parser.set_in_proc_body false self in
    let self :=
      if truthy (Parser.current_proc self) then
        let key := default [] (Parser.current_proc self) in
        match Model.get_proc (Parser.model self) key with
        | Some proc =>
            Parser.set_model
              (Model.set_procs
                 (<[key := Proc.set_line_end line_num proc]>
                    (Model.procs (Parser.model self)))
                 (Parser.model self)) self
        | None => self
        end
      else self in
    Parser.set_current_proc None self
  else self.

(** [_parse_statement] *)
Definition _parse_statement (self : JovialSemanticParser) (statement : str)
    (line_num : nat) : Outcome JovialSemanticParser :=
  let upper := Py.upper statement in
  if Py.startswith upper (L "START") then
    Done (_parse_start self statement line_num)
  else if Py.startswith upper (L "TERM") then
    Done self
  else if Py.startswith upper (L "COMPOOL") then
    Done (_parse_compool_start self statement line_num)
  else if Py.eqb upper (L "BEGIN") then
    Done (_handle_begin self line_num)
  else if Py.eqb upper (L "END") then
    Done (_handle_end self line_num)
  else if Py.startswith upper (L "ITEM") then
    _parse_item_declaration self statement line_num
  else if Py.startswith upper (L "TABLE") then
    _parse_table_declaration self statement line_num
  else if Py.startswith upper (L "PROC") then
    Done (_parse_proc_declaration self statement line_num)
  else if Py.startswith upper (L "TYPE") then
    Done (_parse_type_declaration self statement line_num)
  else if Py.startswith upper (L "DEFINE") then
    Done (_parse_define self statement line_num)
  else if Py.startswith upper (L "DEF")
          && negb (Py.startswith upper (L "DEFINE")) then
    Done (_parse_def_reference self statement line_num)
  else if Py.startswith upper (L "REF") then
    Done (_parse_ref_reference self statement line_num)
  else Done self.

(** The test that ends a statement in the loop of [parse]:
    [stripped.endswith(';') or stripped.upper() in
     ('BEGIN', 'END', 'START', 'TERM')]. *)
Definition is_complete (stripped : str) : bool :=
  Py.endswith stripped (L ";")
  || existsb (Py.eqb (Py.upper stripped))
             [L "BEGIN"; L "END"; L "START"; L "TERM"].

(** The loop [for i, line in enumerate(self.lines)] of [parse], from line
    [i] on, with the local [statement_buffer]. *)
Fixpoint parse_loop (self : JovialSemanticParser) (statement_buffer : str)
    (i : nat) (lines : list str) : Outcome JovialSemanticParser :=
  match lines with
  | [] => Done self
  | line :: rest =>
      let self := Parser.set_current_line_num i self in
      let line := _remove_comments line in
      let stripped := Py.strip line in
      if negb (nonempty stripped) then
        parse_loop self statement_buffer (S i) rest
      else
        let statement_buffer := statement_buffer ++ L " " ++ stripped in
        if is_complete stripped then
          let* self := _parse_statement self (Py.strip statement_buffer) i in
          parse_loop self [] (S i) rest
        else
          parse_loop self statement_buffer (S i) rest
  end.

(** The assignments at the head of [parse]: a new model, the lines of the
    text, and every field of the parser state. *)
Definition reset (self : JovialSemanticParser) (jovial_code : str)
  : JovialSemanticParser :=
  let self := Parser.set_model Model.init self in
  let self := Parser.set_lines (Py.split "010" jovial_code) self in
  let self := Parser.set_current_line_num 0 self in
  let self := Parser.set_in_table_body false self in
  let self := Parser.set_current_table None self in
  let self := Parser.set_in_proc_body false self in
  let self := Parser.set_current_proc None self in
  Parser.set_in_compool false self.

(** [parse]: the parser after the call; the model returned is its
    [Parser.model]. *)
Definition parse (self : JovialSemanticParser) (jovial_code : str)
  : Outcome JovialSemanticParser :=
  let self := reset self jovial_code in
  parse_loop self [] 0 (Parser.lines self).

(** The model returned by [parse], when it returns. *)
Definition parsed_model (o : Outcome JovialSemanticParser)
  : option JovialSemanticModel :=
  match o with
  | Done p => Some (Parser.model p)
  | Raised _ _ => None
  end.

(** The parser as [parse] leaves it, however it leaves. *)
Definition parser_after (o : Outcome JovialSemanticParser)
  : JovialSemanticParser :=
  match o with
  | Done p => p
  | Raised _ p => p
  end.

(** ** What a pattern matches, stated without the matcher

    [Matches r w rest c c']: the pattern [r] can match the text [w] when
    [rest] follows it, and the groups go from [c] to [c'].  The matcher
    [Re.run] only ever returns such matches ([run_sound] below). *)

Module ReSpec.
Import Re.

Inductive Matches : regex -> str -> str -> caps -> caps -> Prop :=
| MEps rest c : Matches Eps [] rest c c
| MCls p a rest c : p a = true -> Matches (Cls p) [a] rest c c
| MCat r1 r2 w1 w2 rest c c1 c2 :
    Matches r1 w1 (w2 ++ rest) c c1 ->
    Matches r2 w2 rest c1 c2 ->
    Matches (Cat r1 r2) (w1 ++ w2) rest c c2
| MAltL r1 r2 w rest c c' :
    Matches r1 w rest c c' -> Matches (Alt r1 r2) w rest c c'
| MAltR r1 r2 w rest c c' :
    Matches r2 w rest c c' -> Matches (Alt r1 r2) w rest c c'
| MStar0 r rest c : Matches (Star r) [] rest c c
| MStarS r w1 w2 rest c c1 c2 :
    w1 <> [] ->
    Matches r w1 (w2 ++ rest) c c1 ->
    Matches (Star r) w2 rest c1 c2 ->
    Matches (Star r) (w1 ++ w2) rest c c2
| MGrp i r w rest c c' :
    Matches r w rest c c' -> Matches (Grp i r) w rest c (<[i := w]> c')
| MEol rest c : at_eol rest = true -> Matches Eol [] rest c c.

(** The numbers of the groups of a pattern. *)
Fixpoint grps (r : regex) : list nat :=
  match r with
  | Eps | Cls _ | Eol => []
  | Cat r1 r2 | Alt r1 r2 => grps r1 ++ grps r2
  | Star r1 => grps r1
  | Grp i r1 => i :: grps r1
  end.

(** The groups of a pattern with their bodies. *)
Fixpoint bodies (r : regex) : list (nat * regex) :=
  match r with
  | Eps | Cls _ | Eol => []
  | Cat r1 r2 | Alt r1 r2 => bodies r1 ++ bodies r2
  | Star r1 => bodies r1
  | Grp i r1 => (i, r1) :: bodies r1
  end.

(** An identifier: a letter, then letters, digits and apostrophes. *)
Definition is_ident (w : str) : bool :=
  match w with
  | a :: w' => Py.isalpha_char a && forallb ident_char w'
  | [] => false
  end.

End ReSpec.

(** ** Notions used in the statements *)

(** A text given by its lines. *)
Definition text (ls : list string) : str := Py.join ["010"%char] (map L ls).

(** A parameter with its mode, as [_parse_proc_declaration] appends it. *)
Definition mode (md : string) (p : str) : str * str := (p, L md).

(** A physical line as the loop sees it: without its comment, stripped. *)
Definition stripped_line (line : str) : str :=
  Py.strip (_remove_comments line).

(** *** The scope and the keys of [items] *)

(** ['.' not in k] *)
Definition no_dot (k : str) : Prop := Py.has_char "." k = false.

(** The scope is GLOBAL and no key of [items] has a dot. *)
Definition ScopeInv (p : JovialSemanticParser) : Prop :=
  Model.current_scope (Parser.model p) = L "GLOBAL"
  /\ forall k, is_Some (Model.items (Parser.model p) !! k) -> no_dot k.

(** The handlers that leave [items] and [current_scope] alone. *)
Definition same_items (p p' : JovialSemanticParser) : Prop :=
  Model.items (Parser.model p') = Model.items (Parser.model p)
  /\ Model.current_scope (Parser.model p')
     = Model.current_scope (Parser.model p).

(** *** The table context *)

(** The current table, when there is one, has a non-empty name and is in
    the model; and inside a table body there is a current table. *)
Definition TableInv (p : JovialSemanticParser) : Prop :=
  (forall T, Parser.current_table p = Some T ->
     T <> [] /\ is_Some (Model.tables (Parser.model p) !! T))
  /\ (Parser.in_table_body p = true -> is_Some (Parser.current_table p)).

(** The handlers that keep the table context and lose no table. *)
Definition keeps_tables (p p' : JovialSemanticParser) : Prop :=
  (forall T, is_Some (Model.tables (Parser.model p) !! T) ->
             is_Some (Model.tables (Parser.model p') !! T))
  /\ Parser.current_table p' = Parser.current_table p
  /\ Parser.in_table_body p' = Parser.in_table_body p.

(** *** The type group of [ITEM_RE] *)

Section ItemType.
Import Re.

(** A continuation that accepts whatever it is given. *)
Definition total (k : cont) : Prop := forall s c, is_Some (k s c).

(** What follows the type group in [ITEM_RE]. *)
Definition ITEM_TAIL : regex :=
  (Star ws +> Opt (Grp 4 (Plus digit)) +> Grp 5 (Star dot))%re.

(** The type group of [ITEM_RE]. *)
Definition ITEM_TYPE : regex :=
  (ilit (L "S") </> ilit (L "U") </> ilit (L "F") </> ilit (L "A") </>
   ilit (L "B") </> ilit (L "C") </> ilit (L "P") </> ilit (L "STATUS"))%re.

(** The one-letter type abbreviations. *)
Definition type_letters : list ascii :=
  ["S"; "U"; "F"; "A"; "B"; "C"; "P"]%char.

End ItemType.

(** Along a parse no item is recorded with the type STATUS or with a
    status value. *)
Definition NoStatus (p : JovialSemanticParser) : Prop :=
  forall k it, Model.items (Parser.model p) !! k = Some it ->
    Item.type it <> STATUS /\ Item.status_values it = [].

From Stdlib Require Import Sorted DecimalString.

(** ** Further notions used in the statements *)

(** The number of apostrophes of a text. *)
Definition apostrophes (s : str) : nat :=
  length (List.filter (Ascii.eqb "'"%char) s).

(** The current procedure, when there is one, has a non-empty name and is
    in the model; and inside a procedure body there is a current
    procedure. *)
Definition ProcInv (p : JovialSemanticParser) : Prop :=
  (forall P, Parser.current_proc p = Some P ->
     P <> [] /\ is_Some (Model.procs (Parser.model p) !! P))
  /\ (Parser.in_proc_body p = true -> is_Some (Parser.current_proc p)).

(** The handlers that keep the procedure context and lose no procedure. *)
Definition keeps_procs (p p' : JovialSemanticParser) : Prop :=
  (forall P, is_Some (Model.procs (Parser.model p) !! P) ->
             is_Some (Model.procs (Parser.model p') !! P))
  /\ Parser.current_proc p' = Parser.current_proc p
  /\ Parser.in_proc_body p' = Parser.in_proc_body p.

(** The string mode of [_remove_comments] after a text without double
    quote: each apostrophe toggles it. *)
Definition in_string_after (in_string : bool) (pre : str) : bool :=
  xorb in_string (Nat.odd (apostrophes pre)).

(** ** [get_completions_at_position] *)

(** Further [str] and list operations of Python. *)
Module PyMore.

(** [s[:stop]] *)
Definition slice_to (s : str) (stop : Z) : str :=
  if (0 <=? stop)%Z then take (Z.to_nat stop) s
  else take (Z.to_nat (Z.of_nat (length s) + stop)) s.

(** [s.split()]: the maximal runs without white space. *)
Fixpoint split_ws (s : str) : list str :=
  match s with
  | [] => []
  | a :: s' =>
      if Py.isspace a then split_ws s'
      else match s' with
           | [] => [[a]]
           | b :: _ =>
               if Py.isspace b then [a] :: split_ws s'
               else (a :: hd [] (split_ws s')) :: tl (split_ws s')
           end
  end.

(** The order of [str]: by code points, a proper prefix first. *)
Fixpoint compare (s t : str) : comparison :=
  match s, t with
  | [], [] => Eq
  | [], _ :: _ => Lt
  | _ :: _, [] => Gt
  | a :: s', b :: t' =>
      match Nat.compare (Py.code a) (Py.code b) with
      | Eq => compare s' t'
      | c => c
      end
  end.

(** [s < t] *)
Definition lt (s t : str) : Prop := compare s t = Lt.

(** One more element in an ascending list without duplicates. *)
Fixpoint insert_sorted (x : str) (l : list str) : list str :=
  match l with
  | [] => [x]
  | y :: l' =>
      match compare x y with
      | Lt => x :: l
      | Eq => l
      | Gt => y :: insert_sorted x l'
      end
  end.

(** [sorted(set(l))]: the elements of [l], each once, in ascending
    order. *)
Definition sorted_set (l : list str) : list str :=
  fold_right insert_sorted [] l.

End PyMore.

(** [JovialSemanticParser.KEYWORDS]; the set is listed in the order of the
    source. *)
Definition KEYWORDS : list str :=
  map L
    ["START"; "TERM"; "BEGIN"; "END"; "COMPOOL"; "PROGRAM";
     "ITEM"; "TABLE"; "PROC"; "TYPE"; "DEFINE"; "DEF"; "REF";
     "S"; "U"; "F"; "A"; "B"; "C"; "P"; "STATUS"; "LIKE";
     "STATIC"; "CONSTANT"; "PARALLEL"; "OVERLAY"; "POS"; "W"; "D";
     "ROUND"; "TRUNCATE"; "DENSE"; "BLOCK";
     "IF"; "THEN"; "ELSE"; "FOR"; "BY"; "WHILE"; "UNTIL";
     "CASE"; "DEFAULT"; "FALLTHRU"; "GOTO"; "EXIT"; "ABORT"; "RETURN";
     "STOP";
     "AND"; "OR"; "NOT"; "XOR"; "EQV"; "MOD"; "ABS"; "SGN";
     "LOC"; "NEXT"; "BIT"; "BYTE"; "SHIFTL"; "SHIFTR"; "SHIFTLA";
     "SHIFTRA";
     "FIRST"; "LAST"; "LBOUND"; "HBOUND"; "NENT"; "NWDSEN"; "BITSIZE";
     "BYTESIZE"; "WORDSIZE";
     "INPUT"; "OUTPUT"; "OPEN"; "CLOSE"].

(** The prefix that [get_completions_at_position] completes: the last
    white-space separated token of [current_line[:column]], in upper case,
    or the empty text. *)
Definition completion_prefix (current_line : str) (column : Z) : str :=
  let head := Py.strip (PyMore.slice_to current_line column) in
  let prefix :=
    if nonempty head then List.last (PyMore.split_ws head) [] else [] in
  Py.upper prefix.

(** [get_completions_at_position] *)
Definition get_completions_at_position (self : JovialSemanticParser)
    (line column : Z) : list str :=
  if (line <? 0)%Z || (Z.of_nat (length (Parser.lines self)) <=? line)%Z
  then []
  else
    let current_line :=
      default [] (Parser.lines self !! Z.to_nat line) in
    let prefix := completion_prefix current_line column in
    let completions := [] in
    let completions :=
      completions ++
      List.filter (fun kw => negb (nonempty prefix)
                             || Py.startswith kw prefix) KEYWORDS in
    let completions :=
      completions ++
      List.filter (fun symbol => negb (nonempty prefix)
                                 || Py.startswith (Py.upper symbol) prefix)
                  (Model.get_all_symbols (Parser.model self)) in
    PyMore.sorted_set completions.

(** ** [get_hover_info] *)

(** The decimal text of an integer. *)
Definition str_of_int (n : Z) : str :=
  list_ascii_of_string (NilZero.string_of_int (Z.to_int n)).

(** [f"{n}"] for an [int]: its decimal text, or [ValueError] ([None]) when
    it has more digits than [int_max_str_digits]. *)
Definition format_int (n : Z) : option str :=
  let t := str_of_int n in
  if Py.within_limit (Py.lstrip_char "-" t) then Some t else None.

(** The dictionary returned by [get_hover_info], by its ['type']; the
    arguments are its other values, in the order of the source. *)
Inductive HoverInfo : Type :=
| HoverItem (name jovial_type : str) (size : option Z)
            (is_constant is_static : bool) (status_values : list str)
            (initial_value : option str) (line : nat)
| HoverTable (name dimensions : str) (entries : list str)
             (wordsize : option Z) (line_start line_end : nat)
| HoverProc (name parameters : str) (line_start line_end : nat)
| HoverKeyword (name description : str).

(** The dictionary [descriptions] of [_get_keyword_description]. *)
Definition descriptions : list (str * str) :=
  map (fun kv => (L (fst kv), L (snd kv)))
    [("START", "Begin main program module");
     ("TERM", "End program module");
     ("BEGIN", "Begin block");
     ("END", "End block");
     ("COMPOOL", "Communication pool module (shared data)");
     ("ITEM", "Scalar variable declaration");
     ("TABLE", "Array/structure declaration");
     ("PROC", "Procedure declaration");
     ("TYPE", "User-defined type declaration");
     ("DEFINE", "Compile-time constant");
     ("DEF", "Import from COMPOOL");
     ("REF", "Reference to external");
     ("S", "Signed integer type");
     ("U", "Unsigned integer type");
     ("F", "Floating-point type");
     ("A", "Fixed-point (scaled) type");
     ("B", "Bit string type");
     ("C", "Character string type");
     ("P", "Pointer type");
     ("STATUS", "Enumeration type");
     ("STATIC", "Static allocation (persistent)");
     ("CONSTANT", "Read-only value");
     ("PARALLEL", "Parallel allocation for bit-packing");
     ("IF", "Conditional statement");
     ("FOR", "Counted loop");
     ("WHILE", "Conditional loop (test before)");
     ("UNTIL", "Conditional loop (test after)");
     ("CASE", "Multi-way branch");
     ("GOTO", "Unconditional branch");
     ("RETURN", "Return from procedure");
     ("EXIT", "Exit from loop");
     ("ABORT", "Abort program execution");
     ("LOC", "Location (address) function");
     ("NEXT", "Next value in sequence");
     ("BIT", "Bit extraction function");
     ("BYTE", "Byte extraction function");
     ("SHIFTL", "Shift left");
     ("SHIFTR", "Shift right")].

(** [d.get(k)] for a dictionary given by its pairs. *)
Fixpoint assoc_get (d : list (str * str)) (k : str) : option str :=
  match d with
  | [] => None
  | (k', v) :: d' => if Py.eqb k' k then Some v else assoc_get d' k
  end.

(** [_get_keyword_description] *)
Definition _get_keyword_description (keyword : str) : str :=
  default (L "J73 keyword: " ++ keyword) (assoc_get descriptions keyword).

(** [\w] *)
Definition is_word_char (a : ascii) : bool :=
  Py.isalpha_char a || Py.isdigit_char a || Ascii.eqb a "_"%char.

(** [\b] between the character before a position and the one after it,
    [None] standing for an end of the text. *)
Definition at_boundary (prev next : option ascii) : bool :=
  xorb (from_option is_word_char false prev)
       (from_option is_word_char false next).

(** The closing [\b] of the pattern of [get_hover_info], as the
    continuation of its group: a boundary between the last character of the
    group and the text that follows. *)
Definition WORD_END : Re.cont :=
  fun s' c' =>
    match c' !! 1%nat with
    | Some w => if at_boundary (last w) (head s') then Some (s', c') else None
    | None => None
    end.

(** A match of [\b(IDENT)\b] at the front of [s], after the character
    [prev]: its group. *)
Definition match_word_at (prev : option ascii) (s : str) : option str :=
  if at_boundary prev (head s) then
    match Re.run (Re.Grp 1 Re.ident) WORD_END s ∅ with
    | Some (_, c) => c !! 1%nat
    | None => None
    end
  else None.

(** [re.finditer] for [\b(IDENT)\b] under [re.IGNORECASE]: start, end and
    group of the successive matches, from position [pos] on; [skip] counts
    the characters still covered by the last match. *)
Fixpoint finditer_words (prev : option ascii) (pos skip : nat) (s : str)
  : list (nat * nat * str) :=
  match s with
  | [] => []
  | a :: s' =>
      match skip with
      | S k => finditer_words (Some a) (S pos) k s'
      | O =>
          match match_word_at prev s with
          | Some w =>
              (pos, (pos + length w)%nat, w)
              :: finditer_words (Some a) (S pos) (length w - 1) s'
          | None => finditer_words (Some a) (S pos) 0 s'
          end
      end
  end.

(** [[f"{d[0]}:{d[1]}" for d in table.dimensions]] *)
Fixpoint dimension_texts (dims : list (Z * Z)) : option (list str) :=
  match dims with
  | [] => Some []
  | d :: rest =>
      match format_int (fst d), format_int (snd d), dimension_texts rest with
      | Some lo, Some hi, Some l => Some ((lo ++ L ":" ++ hi) :: l)
      | _, _, _ => None
      end
  end.

(** [', '.join(f"{d[0]}:{d[1]}" for d in table.dimensions)] *)
Definition dimensions_text (dims : list (Z * Z)) : option str :=
  option_map (Py.join (L ", ")) (dimension_texts dims).

(** [', '.join(f"{p[0]} ({p[1]})" for p in proc.parameters)] *)
Definition parameters_text (ps : list (str * str)) : str :=
  Py.join (L ", ") (map (fun p => fst p ++ L " (" ++ snd p ++ L ")") ps).

(** The lookups of [get_hover_info] for the word found, already in upper
    case: item, then table, then procedure, then keyword.  The entries of a
    table come in the order in which they were first declared.  [Done None]
    is the [None] that the method returns. *)
Definition hover_of_word (self : JovialSemanticParser) (word : str)
  : Outcome (option HoverInfo) :=
  match Model.get_item (Parser.model self) word with
  | Some item =>
      Done
        (Some (HoverItem (Item.name item) (JovialType_value (Item.type item))
                 (Item.size item) (Item.is_constant item)
                 (Item.is_static item) (Item.status_values item)
                 (Item.initial_value item) (Item.line_number item)))
  | None =>
      match Model.get_table (Parser.model self) word with
      | Some table =>
          match dimensions_text (Table.dimensions table) with
          | Some dim_str =>
              Done
                (Some (HoverTable (Table.name table) dim_str
                         (ODict.keys (Table.entries table))
                         (Table.wordsize table) (Table.line_start table)
                         (Table.line_end table)))
          | None => Raised ValueError self
          end
      | None =>
          match Model.get_proc (Parser.model self) word with
          | Some proc =>
              Done
                (Some (HoverProc (Proc.name proc)
                         (parameters_text (Proc.parameters proc))
                         (Proc.line_start proc) (Proc.line_end proc)))
          | None =>
              if existsb (Py.eqb word) KEYWORDS
              then Done
                     (Some (HoverKeyword word
                              (_get_keyword_description word)))
              else Done None
          end
      end
  end.

(** [get_hover_info] *)
Definition get_hover_info (self : JovialSemanticParser) (line column : Z)
  : Outcome (option HoverInfo) :=
  if (line <? 0)%Z || (Z.of_nat (length (Parser.lines self)) <=? line)%Z
  then Done None
  else
    let current_line :=
      default [] (Parser.lines self !! Z.to_nat line) in
    let word_match :=
      List.find (fun mt => (Z.of_nat (fst (fst mt)) <=? column)%Z
                           && (column <=? Z.of_nat (snd (fst mt)))%Z)
                (finditer_words None 0 0 current_line) in
    match word_match with
    | None => Done None
    | Some mt => hover_of_word self (Py.upper (snd mt))
    end.

(** ** The statement buffer *)

(** The local [statement_buffer] of the loop of [parse] after the lines
    [lines], from the buffer [buf]. *)
Fixpoint buffer_after (buf : str) (lines : list str) : str :=
  match lines with
  | [] => buf
  | line :: rest =>
      if is_complete (stripped_line line) then buffer_after [] rest
      else
        buffer_after
          (if nonempty (stripped_line line)
           then buf ++ L " " ++ stripped_line line else buf)
          rest
  end.

(** The parser after [n] more lines from line [i] on, none of which ends a
    statement: only [current_line_num] has moved. *)
Definition after_lines (i n : nat) (self : JovialSemanticParser)
  : JovialSemanticParser :=
  match n with
  | O => self
  | S k => Parser.set_current_line_num (i + k) self
  end.

(** A physical line made of [code] and then a comment: the code holds no
    double quote and an even number of apostrophes, and the comment is
    empty or opens with a double quote. *)
Definition code_then_comment (code comment : str) : bool :=
  negb (Py.has_char "034" code)
  && Nat.even (apostrophes code)
  && match comment with
     | [] => true
     | c :: _ => Ascii.eqb c "034"%char
     end.

(** ** Pieces of a text *)

(** [t] stands somewhere in [s], as a run of consecutive characters. *)
Definition infix (t s : str) : Prop := exists x y, s = x ++ t ++ y.

(** The text holds no two minus signs in a row. *)
Definition no_double_minus (s : str) : Prop := ~ infix (L "--") s.

(** Every run of digits of the text is one that [int] converts. *)
Definition short_digit_runs (s : str) : Prop :=
  forall d, infix d s -> Py.isdigit d = true -> Py.within_limit d = true.

(** No double minus and no run of digits too long for [int]. *)
Definition tame (s : str) : Prop := no_double_minus s /\ short_digit_runs s.

(** The number of digits at the head of the text. *)
Fixpoint leading_digits (s : str) : nat :=
  match s with
  | a :: s' => if Py.isdigit_char a then S (leading_digits s') else 0
  | [] => 0
  end.

(** The length of the longest run of digits of the text. *)
Fixpoint longest_digit_run (s : str) : nat :=
  match s with
  | [] => 0
  | _ :: s' => Nat.max (leading_digits s) (longest_digit_run s')
  end.

(** The text is 7-bit ASCII, the domain on which the character classes of
    [Py] are Python's. *)
Definition is_ascii_text (s : str) : bool :=
  forallb (fun a => (Py.code a <? 128)%nat) s.

(** * Properties *)

(** ** Characters and strings *)

Module PyFacts.
Import Py.

Lemma isdigit_forall (s : str) :
  isdigit s = true <-> s <> [] /\ Forall (fun a => isdigit_char a = true) s.
Proof.
  unfold isdigit. destruct s as [|a s]; [split; [discriminate | intros [[] _]; reflexivity]|].
  rewrite forallb_forall, Forall_forall. split.
  - intros H. split; [discriminate|]. intros x Hx. apply H. now apply list_elem_of_In.
  - intros [_ H] x Hx. apply H. now apply list_elem_of_In.
Qed.

Lemma digit_not_sign (a : ascii) :
  isdigit_char a = true -> a <> "-"%char /\ a <> "+"%char.
Proof.
  intros H. split; intros ->; vm_compute in H; discriminate.
Qed.

(** [int] on a non-empty run of digits: its value, unless the digits are
    more than [int_max_str_digits]. *)
Lemma int_digits (s : str) :
  isdigit s = true ->
  int s = if within_limit s then Some (digits_value s) else None.
Proof.
  intros H. unfold int.
  destruct s as [|a s']; [discriminate|].
  assert (Ha : isdigit_char a = true).
  { apply isdigit_forall in H as [_ H]. now inversion H. }
  apply digit_not_sign in Ha as [Hm Hp].
  rewrite H.
  destruct a as [[] [] [] [] [] [] [] []]; try reflexivity; congruence.
Qed.

Lemma startswith_app (s p : str) :
  startswith s p = true <-> exists t, s = p ++ t.
Proof.
  revert s. induction p as [|b p IH]; intros s; simpl.
  - split; [eauto | intros _; now destruct s].
  - destruct s as [|a s].
    + split; [discriminate | intros [t Ht]; discriminate].
    + simpl. rewrite andb_true_iff, IH. split.
      * intros [Hab [t ->]]. apply Ascii.eqb_eq in Hab as ->. eauto.
      * intros [t Ht]. injection Ht as -> ->. split; [apply Ascii.eqb_refl | eauto].
Qed.

Lemma eqb_eq (s t : str) : eqb s t = true <-> s = t.
Proof. unfold eqb. apply bool_decide_eq_true. Qed.

Lemma split_no_sep (c : ascii) (s : str) :
  has_char c s = false -> split c s = [s].
Proof.
  induction s as [|a s IH]; [reflexivity|].
  simpl. rewrite (Ascii.eqb_sym c a).
  destruct (Ascii.eqb a c); [discriminate|]. simpl.
  intros H. now rewrite (IH H).
Qed.

Lemma split_app_sep (c : ascii) (s t : str) :
  has_char c s = false -> split c (s ++ c :: t) = s :: split c t.
Proof.
  induction s as [|a s IH]; simpl.
  - now rewrite Ascii.eqb_refl.
  - rewrite (Ascii.eqb_sym c a).
    destruct (Ascii.eqb a c); [discriminate|]. simpl.
    intros H. now rewrite (IH H).
Qed.

Lemma has_char_app (c : ascii) (s t : str) :
  has_char c (s ++ t) = has_char c s || has_char c t.
Proof. unfold has_char. apply existsb_app. Qed.

End PyFacts.

(** ** The matcher returns matches of the pattern *)

Module ReFacts.
Import Re ReSpec.

Lemma take_app_rest (w rest : str) :
  take (length (w ++ rest) - length rest) (w ++ rest) = w.
Proof.
  rewrite length_app.
  replace (length w + length rest - length rest)%nat with (length w) by lia.
  now rewrite take_app_length.
Qed.

Lemma star_loop_sound (body : cont -> cont) (r : regex) (k : cont) :
  (forall k' s c x, body k' s c = Some x ->
     exists w rest c', s = w ++ rest /\ Matches r w rest c c' /\
                       k' rest c' = Some x) ->
  forall n s c x, star_loop body k n s c = Some x ->
    exists w rest c', s = w ++ rest /\ Matches (Star r) w rest c c' /\
                      k rest c' = Some x.
Proof.
  intros Hbody. induction n as [|n IH]; intros s c x H; simpl in H.
  - exists [], s, c. repeat split; [constructor | assumption].
  - destruct (body _ s c) as [y|] eqn:Hb.
    + injection H as ->.
      apply Hbody in Hb as (w1 & rest1 & c1 & -> & Hm & Hk).
      destruct (length rest1 <? length (w1 ++ rest1))%nat eqn:Hlt; [|discriminate].
      apply IH in Hk as (w2 & rest & c2 & -> & Hm2 & Hk).
      exists (w1 ++ w2), rest, c2. rewrite <- app_assoc. repeat split; [|assumption].
      apply MStarS with c1; [|assumption..].
      intros ->. apply Nat.ltb_lt in Hlt. simpl in Hlt. lia.
    + exists [], s, c. repeat split; [constructor | assumption].
Qed.

(** Soundness of the matcher: a successful run splits the input into the
    text matched by the pattern and the rest accepted by the continuation. *)
Lemma run_sound (r : regex) :
  forall k s c x, run r k s c = Some x ->
    exists w rest c', s = w ++ rest /\ Matches r w rest c c' /\
                      k rest c' = Some x.
Proof.
  induction r as [|p|r1 IH1 r2 IH2|r1 IH1 r2 IH2|r1 IH1|i r1 IH1|];
    intros k s c x H; simpl in H.
  - exists [], s, c. repeat split; [constructor | assumption].
  - destruct s as [|a s]; [discriminate|].
    destruct (p a) eqn:Hp; [|discriminate].
    exists [a], s, c. repeat split; [now constructor | assumption].
  - apply IH1 in H as (w1 & rest1 & c1 & -> & Hm1 & H).
    apply IH2 in H as (w2 & rest & c2 & -> & Hm2 & H).
    exists (w1 ++ w2), rest, c2. rewrite <- app_assoc.
    repeat split; [|assumption]. now apply MCat with c1.
  - destruct (run r1 k s c) as [y|] eqn:H1.
    + injection H as ->.
      apply IH1 in H1 as (w & rest & c' & -> & Hm & H).
      exists w, rest, c'. repeat split; [now apply MAltL | assumption].
    + apply IH2 in H as (w & rest & c' & -> & Hm & H).
      exists w, rest, c'. repeat split; [now apply MAltR | assumption].
  - eapply star_loop_sound; [|exact H]. intros k'. apply IH1.
  - apply IH1 in H as (w & rest & c' & -> & Hm & H).
    rewrite take_app_rest in H.
    exists w, rest, (<[i := w]> c'). repeat split; [now constructor | assumption].
  - destruct (at_eol s) eqn:He; [|discriminate].
    exists [], s, c. repeat split; [now constructor | assumption].
Qed.

(** [re.match] returns a match of the pattern at the start of the text. *)
Lemma match_sound (r : regex) (s : str) (m : Match) :
  match_ r s = Some m ->
  exists rest, s = whole m ++ rest /\ Matches r (whole m) rest ∅ (groups m).
Proof.
  unfold match_. destruct (run r accept s ∅) as [[rest c]|] eqn:H; [|discriminate].
  intros [= <-]. simpl.
  apply run_sound in H as (w & rest' & c' & -> & Hm & Hk).
  injection Hk as -> ->.
  rewrite take_app_rest. eauto.
Qed.

Lemma cat_inv r1 r2 w rest c c' :
  Matches (Cat r1 r2) w rest c c' ->
  exists w1 w2 c1, w = w1 ++ w2 /\ Matches r1 w1 (w2 ++ rest) c c1 /\
                   Matches r2 w2 rest c1 c'.
Proof. inversion 1; subst. eauto 10. Qed.

Lemma alt_inv r1 r2 w rest c c' :
  Matches (Alt r1 r2) w rest c c' ->
  Matches r1 w rest c c' \/ Matches r2 w rest c c'.
Proof. inversion 1; subst; eauto. Qed.

Lemma grp_inv i r w rest c c' :
  Matches (Grp i r) w rest c c' ->
  exists c1, Matches r w rest c c1 /\ c' = <[i := w]> c1.
Proof. inversion 1; subst. eauto. Qed.

Lemma eps_inv w rest c c' : Matches Eps w rest c c' -> w = [] /\ c' = c.
Proof. inversion 1; subst. auto. Qed.

Lemma cls_inv p w rest c c' :
  Matches (Cls p) w rest c c' -> exists a, w = [a] /\ p a = true /\ c' = c.
Proof. inversion 1; subst. eauto. Qed.

(** A pattern leaves alone the groups it does not contain. *)
Lemma matches_frame r w rest c c' :
  Matches r w rest c c' -> forall i, i ∉ grps r -> c' !! i = c !! i.
Proof.
  induction 1; intros j Hj; simpl in Hj; try reflexivity.
  - rewrite IHMatches2, IHMatches1; [reflexivity | |];
      intros Hin; apply Hj; apply elem_of_app; auto.
  - apply IHMatches. intros Hin. apply Hj, elem_of_app. auto.
  - apply IHMatches. intros Hin. apply Hj, elem_of_app. auto.
  - rewrite IHMatches2, IHMatches1; auto.
  - apply not_elem_of_cons in Hj as [Hne Hj].
    rewrite lookup_insert_ne; [now apply IHMatches | congruence].
Qed.

(** A run of characters of a class. *)
Lemma star_cls_inv p w rest c c' :
  Matches (Star (Cls p)) w rest c c' -> forallb p w = true /\ c' = c.
Proof.
  remember (Star (Cls p)) as r eqn:Hr. induction 1; try discriminate.
  - auto.
  - injection Hr as ->. apply cls_inv in H0 as (a & -> & Hp & ->).
    destruct (IHMatches2 eq_refl) as [Hw ->]. simpl. now rewrite Hp, Hw.
Qed.

Lemma plus_cls_inv p w rest c c' :
  Matches (Plus (Cls p)) w rest c c' ->
  w <> [] /\ forallb p w = true /\ c' = c.
Proof.
  intros H. apply cat_inv in H as (w1 & w2 & c1 & -> & H1 & H2).
  apply cls_inv in H1 as (a & -> & Hp & ->).
  apply star_cls_inv in H2 as [Hw ->]. simpl. now rewrite Hp, Hw.
Qed.

Lemma ident_inv w rest c c' :
  Matches ident w rest c c' -> is_ident w = true /\ c' = c.
Proof.
  intros H. apply cat_inv in H as (w1 & w2 & c1 & -> & H1 & H2).
  apply cls_inv in H1 as (a & -> & Hp & ->).
  apply star_cls_inv in H2 as [Hw ->]. simpl. now rewrite Hp, Hw.
Qed.

End ReFacts.

(** ** Lookups by name *)

Lemma keys_spec {V : Type} (d : gmap str V) (x : str) :
  x ∈ Model.keys d <-> is_Some (d !! x).
Proof.
  unfold Model.keys. rewrite list_elem_of_fmap. split.
  - intros [[k v] [-> H]]. apply elem_of_map_to_list in H. simpl. eauto.
  - intros [v H]. exists (x, v). split; [reflexivity|].
    now apply elem_of_map_to_list.
Qed.

(** C1, at the declaration [ITEM foo S 16;]: the item is stored under the
    casing of the source, [foo]; a lookup of that name finds it and a lookup
    of the name folded to upper case, [FOO], finds nothing.  The same holds
    for a table and a procedure declared in lower case. *)
Theorem lookup_of_folded_name_misses :
  exists m it tb pr,
    parsed_model (parse Parser.init
      (text ["ITEM foo S 16;"; "TABLE tab (10);"; "PROC run (a);"])) = Some m
    /\ Model.get_item m (L "foo") = Some it
    /\ Model.get_item m (Py.upper (L "foo")) = None
    /\ Model.get_table m (L "tab") = Some tb
    /\ Model.get_table m (Py.upper (L "tab")) = None
    /\ Model.get_proc m (L "run") = Some pr
    /\ Model.get_proc m (Py.upper (L "run")) = None.
Proof.
  do 4 eexists. split; [vm_compute; reflexivity|].
  repeat split; vm_compute; reflexivity.
Qed.

(** ** [get_all_symbols] *)

Lemma get_all_symbols_spec (m : JovialSemanticModel) (x : str) :
  x ∈ Model.get_all_symbols m <->
  is_Some (Model.items m !! x) \/ is_Some (Model.tables m !! x) \/
  is_Some (Model.procs m !! x) \/ is_Some (Model.defines m !! x).
Proof.
  unfold Model.get_all_symbols.
  rewrite elem_of_elements, elem_of_list_to_set, !elem_of_app, !keys_spec.
  rewrite elem_of_nil. tauto.
Qed.

(** C3 as stated fails: after [ITEM foo S 16;] and [ITEM FOO S 16;] the
    list holds both [foo] and [FOO], two distinct elements that are equal
    after case folding. *)
Lemma symbols_equal_after_folding_are_kept :
  exists m,
    parsed_model (parse Parser.init
      (text ["ITEM foo S 16;"; "ITEM FOO S 16;"])) = Some m
    /\ ~ (forall x y, x ∈ Model.get_all_symbols m ->
                      y ∈ Model.get_all_symbols m ->
                      Py.upper x = Py.upper y -> x = y).
Proof.
  eexists. split; [vm_compute; reflexivity|].
  intros H. specialize (H (L "foo") (L "FOO")).
  assert (E : L "foo" = L "FOO"); [|discriminate E].
  apply H; [| |reflexivity];
    apply get_all_symbols_spec; left; vm_compute; eauto.
Qed.

(** C3, amended: [get_all_symbols] returns the union of the item, table,
    proc and define names with exact duplicates removed: no name occurs
    twice in the list, and a name is in the list exactly when it is a key of
    one of the four dictionaries. *)
Theorem get_all_symbols_exact_union (m : JovialSemanticModel) :
  NoDup (Model.get_all_symbols m)
  /\ forall x, x ∈ Model.get_all_symbols m <->
       is_Some (Model.items m !! x) \/ is_Some (Model.tables m !! x) \/
       is_Some (Model.procs m !! x) \/ is_Some (Model.defines m !! x).
Proof.
  split; [unfold Model.get_all_symbols; apply NoDup_elements | apply get_all_symbols_spec].
Qed.

(** ** [parse] starts from nothing *)

Lemma reset_any (p p' : JovialSemanticParser) (code : str) :
  reset p code = reset p' code.
Proof. reflexivity. Qed.

(** C9: the outcome of [parse] (the model returned, or the exception, and
    the whole parser it leaves) depends on the text alone: it is the same
    from any two parser states, and so the same when the text is parsed
    again on the parser left by an earlier call, whether that call parsed the
    same text or another one, and whether it returned or raised. *)
Theorem parse_stateless (p p' : JovialSemanticParser) (code earlier : str) :
  parse p code = parse p' code
  /\ parse (parser_after (parse p code)) code = parse p code
  /\ parse (parser_after (parse p earlier)) code = parse p code.
Proof.
  unfold parse. repeat split.
Qed.

(** ** Dimensions of a table *)

(** C7, at [TABLE T (--5:10);]: the bound [--5] passes the test
    [lstrip('-').isdigit()] and [int] then raises [ValueError], which leaves
    [parse]; no table is recorded and no bound becomes 0. *)
Theorem bound_with_two_minus_signs_raises :
  Py.int (L "--5") = None
  /\ exists p,
       parse Parser.init (text ["TABLE T (--5:10);"]) = Raised ValueError p
       /\ Model.tables (Parser.model p) = ∅.
Proof.
  split; [reflexivity|].
  eexists. split; vm_compute; reflexivity.
Qed.

(** ** STATUS items *)

(** C8, at [ITEM MODE STATUS (V(NORMAL), V(WARN));]: the alternative [S] of
    the type group matches the first letter of [STATUS], so the item is
    recorded with type [SIGNED] and an empty [status_values], although the
    statement holds the two tokens [V(NORMAL)] and [V(WARN)]. *)
Theorem status_declaration_recorded_as_signed :
  exists m it,
    parsed_model (parse Parser.init
      (text ["ITEM MODE STATUS (V(NORMAL), V(WARN));"])) = Some m
    /\ Model.items m !! L "MODE" = Some it
    /\ Item.type it = SIGNED
    /\ Item.status_values it = []
    /\ Re.findall STATUS_VALUE_PATTERN
         (L "ITEM MODE STATUS (V(NORMAL), V(WARN));")
       = [L "NORMAL"; L "WARN"].
Proof.
  do 2 eexists. split; [vm_compute; reflexivity|].
  repeat split; vm_compute; reflexivity.
Qed.

(** ** Parameters of a procedure *)

Lemma proc_parameters_no_colon (ps : str) :
  Py.has_char ":" ps = false ->
  proc_parameters ps = map (mode "INOUT") (param_names ps).
Proof.
  intros H. unfold proc_parameters. rewrite H.
  destruct ps; reflexivity.
Qed.

Lemma proc_parameters_colon (ins outs more : str) :
  Py.has_char ":" ins = false ->
  Py.has_char ":" outs = false ->
  more = [] \/ (exists t, more = ":"%char :: t) ->
  proc_parameters (ins ++ ":"%char :: outs ++ more)
  = map (mode "IN") (param_names ins) ++ map (mode "OUT") (param_names outs).
Proof.
  intros Hi Ho Hm. unfold proc_parameters.
  assert (Hs : exists rest, Py.split ":" (ins ++ ":"%char :: outs ++ more)
                            = ins :: outs :: rest).
  { rewrite PyFacts.split_app_sep by assumption.
    destruct Hm as [-> | [t ->]].
    - rewrite app_nil_r, PyFacts.split_no_sep by assumption. eauto.
    - rewrite PyFacts.split_app_sep by assumption. eauto. }
  destruct Hs as [rest ->].
  replace (nonempty (ins ++ ":"%char :: outs ++ more)) with true
    by (now destruct ins).
  rewrite PyFacts.has_char_app. simpl. rewrite orb_true_r. reflexivity.
Qed.

(** C6 as stated fails when the list has a second colon: in
    [PROC P (A : B : C);] the parameter [C] stands after the colon and gets
    no mode at all. *)
Lemma parameter_after_second_colon_dropped :
  exists m pr,
    parsed_model (parse Parser.init (text ["PROC P (A : B : C);"])) = Some m
    /\ Model.procs m !! L "P" = Some pr
    /\ Proc.parameters pr = [(L "A", L "IN"); (L "B", L "OUT")]
    /\ ~ In (L "C", L "OUT") (Proc.parameters pr).
Proof.
  do 2 eexists. split; [vm_compute; reflexivity|].
  split; [vm_compute; reflexivity|].
  split; [vm_compute; reflexivity|].
  vm_compute. intros [H|[H|[]]]; discriminate H.
Qed.

(** C6, amended: for every recognised PROC declaration, with [params_str]
    the text between the parentheses (empty when there are none) and the
    parameters being the non-empty stripped pieces between its commas:
    without a colon every parameter gets INOUT; with a colon, the parameters
    before the first colon get IN and those between the first colon and the
    second one (or the end of the list) get OUT, in source order, and what
    follows a second colon is dropped; an empty list gives no parameter. *)
Theorem proc_parameter_modes (self : JovialSemanticParser)
    (statement : str) (line_num : nat) (m : Re.Match) :
  Re.match_ PROC_RE (Py.strip (Py.rstrip_char ";" statement)) = Some m ->
  let params_str := Re.group_or_empty m 2 in
  exists pr,
    Model.procs (Parser.model
      (_parse_proc_declaration self statement line_num))
      !! Re.group_or_empty m 1 = Some pr
    /\ (Py.has_char ":" params_str = false ->
        Proc.parameters pr = map (mode "INOUT") (param_names params_str))
    /\ (forall ins outs more,
          params_str = ins ++ ":"%char :: outs ++ more ->
          Py.has_char ":" ins = false ->
          Py.has_char ":" outs = false ->
          more = [] \/ (exists t, more = ":"%char :: t) ->
          Proc.parameters pr
          = map (mode "IN") (param_names ins)
            ++ map (mode "OUT") (param_names outs))
    /\ (params_str = [] -> Proc.parameters pr = []).
Proof.
  intros Hm params_str. unfold _parse_proc_declaration. rewrite Hm.
  eexists. split; [apply lookup_insert_eq|]. simpl. fold params_str.
  split; [apply proc_parameters_no_colon|].
  split.
  - intros ins outs more -> Hi Ho Hmore. now apply proc_parameters_colon.
  - intros ->. reflexivity.
Qed.

(** The declaration of scenario C, [PROC UPDATE'POS (NEW'LAT, NEW'LON :
    DISTANCE);], through [proc_parameter_modes]: two IN parameters and one
    OUT parameter. *)
Lemma proc_parameter_modes_witness :
  exists pr,
    Model.procs (Parser.model
      (_parse_proc_declaration Parser.init
         (L "PROC UPDATE'POS (NEW'LAT, NEW'LON : DISTANCE);") 0))
      !! L "UPDATE'POS" = Some pr
    /\ Proc.parameters pr
       = [(L "NEW'LAT", L "IN"); (L "NEW'LON", L "IN");
          (L "DISTANCE", L "OUT")].
Proof.
  set (stmt := L "PROC UPDATE'POS (NEW'LAT, NEW'LON : DISTANCE);").
  destruct (Re.match_ PROC_RE (Py.strip (Py.rstrip_char ";" stmt)))
    as [m|] eqn:Hm; [|vm_compute in Hm; discriminate Hm].
  destruct (proc_parameter_modes Parser.init stmt 0 m Hm)
    as (pr & Hpr & _ & Hcolon & _).
  vm_compute in Hm. injection Hm as <-.
  exists pr. split; [exact Hpr|].
  apply (Hcolon (L "NEW'LAT, NEW'LON ") (L " DISTANCE") []);
    [reflexivity | reflexivity | reflexivity | left; reflexivity].
Defined.

(** ** The groups of the recognisers' patterns *)

Module PatternFacts.
Import Re ReSpec ReFacts.

(** A group that is set after a match was set before it or holds a text
    matched by the body of a group of that number. *)
Lemma matches_capture r w rest c c' :
  Matches r w rest c c' ->
  forall i v, c' !! i = Some v ->
    c !! i = Some v \/
    exists g rest' c1 c2, (i, g) ∈ bodies r /\ Matches g v rest' c1 c2.
Proof.
  induction 1; intros j v Hv; simpl; auto.
  - apply IHMatches2 in Hv as [Hv | (g & rest' & d1 & d2 & Hin & Hg)].
    + apply IHMatches1 in Hv as [Hv | (g & rest' & d1 & d2 & Hin & Hg)];
        [auto|]. right. exists g, rest', d1, d2.
      split; [apply elem_of_app; auto | assumption].
    + right. exists g, rest', d1, d2.
      split; [apply elem_of_app; auto | assumption].
  - apply IHMatches in Hv as [Hv | (g & rest' & d1 & d2 & Hin & Hg)]; [auto|].
    right. exists g, rest', d1, d2.
    split; [apply elem_of_app; auto | assumption].
  - apply IHMatches in Hv as [Hv | (g & rest' & d1 & d2 & Hin & Hg)]; [auto|].
    right. exists g, rest', d1, d2.
    split; [apply elem_of_app; auto | assumption].
  - apply IHMatches2 in Hv as [Hv | Hv]; [|auto].
    apply IHMatches1 in Hv as [Hv | Hv]; auto.
  - destruct (decide (i = j)) as [->|Hne].
    + rewrite lookup_insert_eq in Hv. injection Hv as <-.
      right. exists r, rest, c, c'. split; [apply elem_of_cons; auto | assumption].
    + rewrite lookup_insert_ne in Hv by assumption.
      apply IHMatches in Hv as [Hv | (g & rest' & d1 & d2 & Hin & Hg)]; [auto|].
      right. exists g, rest', d1, d2.
      split; [apply elem_of_cons; auto | assumption].
Qed.

(** The name group of a pattern of the shape [KEYWORD\s+(IDENT)tail] always
    takes part in a match and holds an identifier. *)
Lemma name_group (kw tail : regex) (s : str) (m : Match) :
  match_ (kw +> Plus ws +> Grp 1 ident +> tail)%re s = Some m ->
  1%nat ∉ grps tail ->
  exists n, group m 1 = Some n /\ is_ident n = true.
Proof.
  intros Hm Htail. apply match_sound in Hm as (rest & _ & H).
  apply cat_inv in H as (w1 & w' & c1 & _ & _ & H).
  apply cat_inv in H as (w2 & w'' & c2 & _ & _ & H).
  apply cat_inv in H as (n & w3 & c3 & _ & Hn & H).
  apply grp_inv in Hn as (c2' & Hn & ->).
  apply ident_inv in Hn as [Hid _].
  exists n. split; [|assumption].
  unfold group. rewrite (matches_frame _ _ _ _ _ H 1%nat Htail).
  apply lookup_insert_eq.
Qed.

Lemma is_ident_nonempty (n : str) : is_ident n = true -> n <> [].
Proof. now destruct n. Qed.

Lemma ident_char_not_dot (a : ascii) : ident_char a = true -> a <> "."%char.
Proof. intros H ->. discriminate H. Qed.

Lemma is_ident_chars (n : str) :
  is_ident n = true -> Forall (fun a => ident_char a = true) n.
Proof.
  destruct n as [|a n]; [discriminate|]. simpl.
  intros [Ha Hn]%andb_true_iff. constructor.
  - unfold ident_char. now rewrite Ha.
  - apply Forall_forall. intros x Hx.
    rewrite forallb_forall in Hn. apply Hn. now apply list_elem_of_In.
Qed.

End PatternFacts.

Module ItemFacts.
Import Re ReSpec ReFacts PatternFacts.

(** From [(i, g) ∈ bodies r] for a pattern at hand to the body [g]. *)
Ltac pick_body Hin :=
  cbn in Hin;
  repeat (apply elem_of_cons in Hin as [Hin|Hin];
          [first [discriminate Hin | injection Hin as ->] |]);
  try (apply elem_of_nil in Hin; contradiction).

Ltac not_a_group :=
  rewrite list_elem_of_In; vm_compute; intuition discriminate.

Lemma ITEM_RE_name (s : str) (m : Match) :
  match_ ITEM_RE s = Some m ->
  exists n, group m 1 = Some n /\ is_ident n = true.
Proof. intros H. eapply name_group; [exact H | not_a_group]. Qed.

Lemma TABLE_RE_name (s : str) (m : Match) :
  match_ TABLE_RE s = Some m ->
  exists n, group m 1 = Some n /\ is_ident n = true.
Proof. intros H. eapply name_group; [exact H | not_a_group]. Qed.

(** The size group of [ITEM_RE], when it takes part, is a non-empty run of
    digits. *)
Lemma ITEM_RE_size (s : str) (m : Match) (d : str) :
  match_ ITEM_RE s = Some m -> group m 4 = Some d -> Py.isdigit d = true.
Proof.
  intros H Hd. apply match_sound in H as (rest & _ & H).
  apply (matches_capture _ _ _ _ _ H) in Hd
    as [Hd | (g & rest' & c1 & c2 & Hin & Hg)]; [discriminate Hd|].
  unfold ITEM_RE in Hin. pick_body Hin.
  apply plus_cls_inv in Hg as (Hne & Hall & _).
  destruct d; [congruence | exact Hall].
Qed.

(** The name group of [DEF_RE], when it takes part, is an identifier. *)
Lemma DEF_RE_name (s : str) (m : Match) (n : str) :
  match_ DEF_RE s = Some m -> group m 2 = Some n -> is_ident n = true.
Proof.
  intros H Hn. apply match_sound in H as (rest & _ & H).
  apply (matches_capture _ _ _ _ _ H) in Hn
    as [Hn | (g & rest' & c1 & c2 & Hin & Hg)]; [discriminate Hn|].
  unfold DEF_RE in Hin. pick_body Hin.
  now apply ident_inv in Hg as [Hg _].
Qed.

(** [_parse_item_declaration] on a match: it places the item built from the
    match, with the size converted from the digits, unless the digits are
    too many for [int]. *)
Lemma _parse_item_declaration_match (self : JovialSemanticParser)
    (statement : str) (line_num : nat) (m : Match) :
  match_ ITEM_RE (Py.strip (Py.rstrip_char ";" statement)) = Some m ->
  size_within_limit m = true ->
  exists size,
    _parse_item_declaration self statement line_num
    = Done (place_item self (group_or_empty m 1)
              (item_of_match self statement line_num m size)).
Proof.
  intros Hm Hl. unfold _parse_item_declaration. rewrite Hm.
  unfold size_within_limit in Hl.
  destruct (group m 4) as [[|a d]|] eqn:H4; simpl; eauto.
  apply (ITEM_RE_size _ _ _ Hm) in H4.
  unfold int_or_raise. rewrite (PyFacts.int_digits _ H4), Hl. simpl. eauto.
Qed.

Lemma _parse_item_declaration_raises (self : JovialSemanticParser)
    (statement : str) (line_num : nat) (m : Match) :
  match_ ITEM_RE (Py.strip (Py.rstrip_char ";" statement)) = Some m ->
  size_within_limit m = false ->
  _parse_item_declaration self statement line_num = Raised ValueError self.
Proof.
  intros Hm Hl. unfold _parse_item_declaration. rewrite Hm.
  unfold size_within_limit in Hl.
  destruct (group m 4) as [[|a d]|] eqn:H4; try discriminate Hl.
  apply (ITEM_RE_size _ _ _ Hm) in H4.
  unfold int_or_raise. rewrite (PyFacts.int_digits _ H4), Hl. reflexivity.
Qed.

(** The outcomes of [_parse_item_declaration]. *)
Lemma _parse_item_declaration_cases (self : JovialSemanticParser)
    (statement : str) (line_num : nat) :
  _parse_item_declaration self statement line_num = Done self
  \/ (exists m size,
        match_ ITEM_RE (Py.strip (Py.rstrip_char ";" statement)) = Some m
        /\ _parse_item_declaration self statement line_num
           = Done (place_item self (group_or_empty m 1)
                     (item_of_match self statement line_num m size)))
  \/ _parse_item_declaration self statement line_num
     = Raised ValueError self.
Proof.
  destruct (match_ ITEM_RE (Py.strip (Py.rstrip_char ";" statement)))
    as [m|] eqn:Hm.
  - destruct (size_within_limit m) eqn:Hl.
    + destruct (_parse_item_declaration_match self statement line_num m Hm Hl)
        as [size H]. right. left. eauto.
    + right. right. now apply _parse_item_declaration_raises with m.
  - left. unfold _parse_item_declaration. now rewrite Hm.
Qed.

(** After [d[k] = v] the key [k] holds [v]. *)
Lemma odict_lookup_insert {V : Type} (d : ODict.t V) (k : str) (v : V) :
  <[k := v]> d !! k = Some v.
Proof.
  destruct d as [l]. unfold base.insert, base.lookup, ODict.insert,
    ODict.lookup. simpl.
  induction l as [|[k' v'] l IH]; simpl.
  - assert (H : Py.eqb k k = true) by now apply PyFacts.eqb_eq.
    now rewrite H.
  - destruct (Py.eqb k' k) eqn:E; simpl; now rewrite E.
Qed.

(** After [add_item] the item is found under its name. *)
Lemma add_item_lookup (mdl : JovialSemanticModel) (item : ItemDefinition) :
  Model.items (Model.add_item mdl item) !! Item.name item = Some item.
Proof.
  unfold Model.add_item. simpl.
  destruct (negb _); [|apply lookup_insert_eq].
  rewrite lookup_insert. case_decide; [reflexivity | apply lookup_insert_eq].
Qed.

Lemma place_item_lookup (self : JovialSemanticParser) (item : ItemDefinition) :
  Model.items (Parser.model (place_item self (Item.name item) item))
    !! Item.name item = Some item.
Proof.
  unfold place_item. simpl. apply add_item_lookup.
Qed.

End ItemFacts.

(** ** Occurrences of the name in the statement *)
Module Occurrence.
Import Re ReSpec ReFacts PatternFacts ItemFacts.

Lemma lstrip_suffix (s : str) : exists a, s = a ++ Py.lstrip s.
Proof.
  induction s as [|c s [a IH]]; [now exists []|]. simpl.
  destruct (Py.isspace c).
  - exists (c :: a). simpl. now f_equal.
  - now exists [].
Qed.

Lemma rstrip_prefix (s : str) : exists b, s = Py.rstrip s ++ b.
Proof.
  unfold Py.rstrip. destruct (lstrip_suffix (rev s)) as [a Ha].
  exists (rev a). rewrite <- rev_app_distr, <- Ha. now rewrite rev_involutive.
Qed.

Lemma strip_infix (s : str) : exists a b, s = a ++ Py.strip s ++ b.
Proof.
  unfold Py.strip. destruct (lstrip_suffix s) as [a Ha].
  destruct (rstrip_prefix (Py.lstrip s)) as [b Hb].
  exists a, b. now rewrite <- Hb.
Qed.

Lemma lstrip_char_suffix (c : ascii) (s : str) :
  exists a, s = a ++ Py.lstrip_char c s.
Proof.
  induction s as [|x s [a IH]]; [now exists []|]. simpl.
  destruct (Ascii.eqb x c).
  - exists (x :: a). simpl. now f_equal.
  - now exists [].
Qed.

Lemma rstrip_char_prefix (c : ascii) (s : str) :
  exists b, s = Py.rstrip_char c s ++ b.
Proof.
  unfold Py.rstrip_char. destruct (lstrip_char_suffix c (rev s)) as [a Ha].
  exists (rev a). rewrite <- rev_app_distr, <- Ha. now rewrite rev_involutive.
Qed.

(** [find] returns the offset of an occurrence, and finds one when there
    is one. *)
Lemma find_from_unfold (s p : str) (i : nat) :
  Py.find_from s p i
  = if Py.startswith s p then Some i
    else match s with
         | [] => None
         | _ :: s' => Py.find_from s' p (S i)
         end.
Proof. now destruct s. Qed.

Lemma find_from_occurrence (s p : str) (i j : nat) :
  Py.find_from s p i = Some j ->
  exists k, j = (i + k)%nat /\ Py.startswith (drop k s) p = true.
Proof.
  revert i. induction s as [|c s IH]; intros i; rewrite find_from_unfold.
  - destruct (Py.startswith [] p) eqn:Hp; [|discriminate].
    intros [= <-]. exists 0%nat. split; [lia | exact Hp].
  - destruct (Py.startswith (c :: s) p) eqn:Hp.
    + intros [= <-]. exists 0%nat. split; [lia | exact Hp].
    + intros H. apply IH in H as (k & -> & Hk).
      exists (S k). split; [lia | exact Hk].
Qed.

Lemma find_from_infix (x p y : str) (i : nat) :
  exists j, Py.find_from (x ++ p ++ y) p i = Some j.
Proof.
  revert i. induction x as [|c x IH]; intros i; rewrite find_from_unfold.
  - simpl app.
    assert (Hp : Py.startswith (p ++ y) p = true)
      by (apply PyFacts.startswith_app; eauto).
    rewrite Hp. eauto.
  - simpl app. destruct (Py.startswith _ p); eauto.
Qed.

Lemma find_infix (x p y : str) :
  (0 <= Py.find (x ++ p ++ y) p)%Z
  /\ Py.startswith (drop (Z.to_nat (Py.find (x ++ p ++ y) p)) (x ++ p ++ y)) p
     = true.
Proof.
  unfold Py.find, Py.find_opt.
  destruct (find_from_infix x p y 0) as [j Hj]. rewrite Hj.
  apply find_from_occurrence in Hj as (k & -> & Hk).
  split; [lia|]. now rewrite Nat2Z.id.
Qed.

(** The name group of [ITEM_RE] is a piece of the text matched. *)
Lemma ITEM_RE_name_infix (s : str) (m : Match) :
  match_ ITEM_RE s = Some m ->
  exists pre post, s = pre ++ group_or_empty m 1 ++ post.
Proof.
  intros Hm. destruct (ITEM_RE_name _ _ Hm) as (n' & Hn' & _).
  apply match_sound in Hm as (rest & Hs & H).
  apply cat_inv in H as (w1 & w' & c1 & E1 & _ & H).
  apply cat_inv in H as (w2 & w'' & c2 & E2 & _ & H).
  apply cat_inv in H as (n & w3 & c3 & E3 & Hn & H).
  apply grp_inv in Hn as (c2' & Hn & ->).
  rewrite E1, E2, E3 in Hs.
  assert (Hg : group m 1 = Some n).
  { unfold group. rewrite (matches_frame _ _ _ _ _ H 1%nat) by not_a_group.
    apply lookup_insert_eq. }
  unfold group_or_empty. rewrite Hg. simpl.
  exists (w1 ++ w2), (w3 ++ rest). rewrite Hs.
  now rewrite <- !app_assoc.
Qed.

(** A name written in upper case occurs in the upper-cased statement. *)
Lemma name_in_upper_statement (statement : str) (m : Match) :
  match_ ITEM_RE (Py.strip (Py.rstrip_char ";" statement)) = Some m ->
  Py.upper (group_or_empty m 1) = group_or_empty m 1 ->
  exists x y, Py.upper statement = x ++ group_or_empty m 1 ++ y.
Proof.
  intros Hm Hup. apply ITEM_RE_name_infix in Hm as (pre & post & Hs).
  destruct (rstrip_char_prefix ";" statement) as [b Hb].
  destruct (strip_infix (Py.rstrip_char ";" statement)) as (a & b' & Ha).
  rewrite Hs in Ha. rewrite Ha in Hb.
  exists (Py.upper (a ++ pre)), (Py.upper (post ++ b' ++ b)).
  assert (E : statement
              = (a ++ pre) ++ group_or_empty m 1 ++ (post ++ b' ++ b))
    by (rewrite Hb at 1; now rewrite <- !app_assoc).
  rewrite E at 1. unfold Py.upper. rewrite !map_app.
  fold (Py.upper (group_or_empty m 1)). now rewrite Hup.
Qed.

End Occurrence.

(** ** The column span of an item *)

(** C4 as stated fails, in two ways.  For the indented line
    [  ITEM LAT F 32;] the name stands at offset 7 of the physical line, and
    the recorded span starts at 5, the offset in the statement with the
    indentation stripped.  For [ITEM foo S 16;] the name stands at offset 5
    of the line, and the recorded span starts at -1: the name is looked for,
    in its source casing, in the upper-cased statement. *)
Lemma column_is_not_offset_in_line :
  (exists m it,
     parsed_model (parse Parser.init (text ["  ITEM LAT F 32;"])) = Some m
     /\ Model.items m !! L "LAT" = Some it
     /\ Item.line_number it = 0%nat
     /\ Item.column_start it = 5%Z
     /\ Item.column_end it = 8%Z
     /\ Py.find (L "  ITEM LAT F 32;") (L "LAT") = 7%Z)
  /\
  (exists m it,
     parsed_model (parse Parser.init (text ["ITEM foo S 16;"])) = Some m
     /\ Model.items m !! L "foo" = Some it
     /\ Item.line_number it = 0%nat
     /\ Item.column_start it = (-1)%Z
     /\ Item.column_end it = 2%Z
     /\ Py.find (L "ITEM foo S 16;") (L "foo") = 5%Z).
Proof.
  split; (do 2 eexists; split; [vm_compute; reflexivity|]);
    repeat split; vm_compute; reflexivity.
Qed.

(** C4, amended: for every recognised ITEM declaration whose name is
    written in upper case and whose size, if any, has no more digits than
    [int] converts (the declaration raises otherwise and records nothing),
    the recorded column span is
    [find(name), find(name) + len(name)) computed within the upper-cased
    statement, which is the buffer of the statement's lines, each stripped
    and joined by single spaces: [column_start] is the offset of the first
    occurrence of the name there, and [column_end] is [column_start] plus
    the length of the name. *)
Theorem item_column_span (self : JovialSemanticParser) (statement : str)
    (line_num : nat) (m : Re.Match) :
  Re.match_ ITEM_RE (Py.strip (Py.rstrip_char ";" statement)) = Some m ->
  Py.upper (Re.group_or_empty m 1) = Re.group_or_empty m 1 ->
  size_within_limit m = true ->
  exists self' it,
    _parse_item_declaration self statement line_num = Done self'
    /\ Model.items (Parser.model self') !! Re.group_or_empty m 1 = Some it
    /\ Item.name it = Re.group_or_empty m 1
    /\ Item.line_number it = line_num
    /\ Item.column_start it
       = Py.find (Py.upper statement) (Re.group_or_empty m 1)
    /\ (0 <= Item.column_start it)%Z
    /\ Py.startswith
         (drop (Z.to_nat (Item.column_start it)) (Py.upper statement))
         (Re.group_or_empty m 1) = true
    /\ Item.column_end it
       = (Item.column_start it + Z.of_nat (length (Re.group_or_empty m 1)))%Z.
Proof.
  intros Hm Hup Hsz.
  destruct (ItemFacts._parse_item_declaration_match self statement line_num
              m Hm Hsz) as [size ->].
  destruct (Occurrence.name_in_upper_statement statement m Hm Hup)
    as (x & y & Hxy).
  destruct (Occurrence.find_infix x (Re.group_or_empty m 1) y) as [H0 Hocc].
  rewrite <- Hxy in H0, Hocc.
  do 2 eexists. split; [reflexivity|].
  split; [apply (ItemFacts.place_item_lookup self
                   (item_of_match self statement line_num m size))|].
  repeat split; assumption.
Qed.

(** [item_column_span] at the statement [ITEM LAT F 32;] of line 2. *)
Lemma item_column_span_witness :
  exists self' it,
    _parse_item_declaration Parser.init (L "ITEM LAT F 32;") 2 = Done self'
    /\ Model.items (Parser.model self') !! L "LAT" = Some it
    /\ Item.column_start it = 5%Z
    /\ Item.column_end it = 8%Z.
Proof.
  destruct (Re.match_ ITEM_RE
              (Py.strip (Py.rstrip_char ";" (L "ITEM LAT F 32;"))))
    as [m|] eqn:Hm; [|vm_compute in Hm; discriminate Hm].
  assert (Hup : Py.upper (Re.group_or_empty m 1) = Re.group_or_empty m 1).
  { vm_compute in Hm. injection Hm as <-. reflexivity. }
  assert (Hsz : size_within_limit m = true).
  { vm_compute in Hm. injection Hm as <-. reflexivity. }
  destruct (item_column_span Parser.init (L "ITEM LAT F 32;") 2 m Hm Hup Hsz)
    as (self' & it & Hd & Hl & _ & _ & Hs & _ & _ & He).
  vm_compute in Hm. injection Hm as <-.
  exists self', it. split; [exact Hd|]. split; [exact Hl|].
  assert (Hs' : Item.column_start it = 5%Z) by (rewrite Hs; reflexivity).
  split; [exact Hs'|]. rewrite He, Hs'. reflexivity.
Defined.

(** ** The line loop *)

Lemma is_complete_nonempty (s : str) : is_complete s = true -> nonempty s = true.
Proof. now destruct s. Qed.

(** One turn of the loop: a line that completes a statement dispatches the
    buffer with this line appended and empties it; any other line is
    appended, unless it is blank. *)
Lemma parse_loop_line (self : JovialSemanticParser) (buf : str) (i : nat)
    (line : str) (rest : list str) :
  parse_loop self buf i (line :: rest)
  = if is_complete (stripped_line line) then
      let* self' :=
        _parse_statement (Parser.set_current_line_num i self)
          (Py.strip (buf ++ L " " ++ stripped_line line)) i in
      parse_loop self' [] (S i) rest
    else
      parse_loop (Parser.set_current_line_num i self)
        (if nonempty (stripped_line line)
         then buf ++ L " " ++ stripped_line line else buf)
        (S i) rest.
Proof.
  simpl. fold (stripped_line line).
  destruct (is_complete (stripped_line line)) eqn:Hc.
  - now rewrite (is_complete_nonempty _ Hc).
  - now destruct (nonempty (stripped_line line)).
Qed.

(** The dispatch of a statement that starts with ITEM. *)
Lemma _parse_statement_item (self : JovialSemanticParser) (statement : str)
    (line_num : nat) :
  Py.startswith (Py.upper statement) (L "ITEM") = true ->
  _parse_statement self statement line_num
  = _parse_item_declaration self statement line_num.
Proof.
  intros H. unfold _parse_statement. rewrite H.
  apply PyFacts.startswith_app in H as [t ->].
  reflexivity.
Qed.

(** ** What holds all along a parse *)

Module Invariants.
Import Re ReSpec ReFacts PatternFacts ItemFacts.

(** The loop of [parse] keeps every property that [_parse_statement] and
    the assignment to [current_line_num] keep. *)
Lemma parse_loop_invariant (P : JovialSemanticParser -> Prop) :
  (forall p i, P p -> P (Parser.set_current_line_num i p)) ->
  (forall p s i, P p -> P (parser_after (_parse_statement p s i))) ->
  forall lines self buf i,
    P self -> P (parser_after (parse_loop self buf i lines)).
Proof.
  intros Hline Hstmt. induction lines as [|line rest IH]; intros self buf i HP.
  - exact HP.
  - rewrite parse_loop_line.
    destruct (is_complete (stripped_line line)).
    + specialize (Hstmt _ (Py.strip (buf ++ L " " ++ stripped_line line)) i
                    (Hline self i HP)).
      destruct (_parse_statement _ _ i) as [p'|e p']; simpl in *.
      * now apply IH.
      * exact Hstmt.
    + apply IH. now apply Hline.
Qed.

(** The dimensions loop raises with the parser it was given. *)
Lemma parse_bound_raised self part e p :
  parse_bound self part = Raised e p -> p = self.
Proof.
  unfold parse_bound, int_or_raise. repeat case_match; congruence.
Qed.

Lemma parse_dim_raised self dim e p :
  parse_dim self dim = Raised e p -> p = self.
Proof.
  unfold parse_dim, bind. repeat case_match; try congruence;
    intros; simplify_eq;
    repeat match goal with
      | H : parse_bound _ _ = Raised _ _ |- _ =>
          apply parse_bound_raised in H
      | H : int_or_raise _ _ = Raised _ _ |- _ =>
          unfold int_or_raise in H; case_match; simplify_eq
      end; congruence.
Qed.

Lemma parse_dims_raised self dims acc e p :
  parse_dims self dims acc = Raised e p -> p = self.
Proof.
  revert acc. induction dims as [|d dims IH]; intros acc; simpl; [discriminate|].
  destruct (parse_dim self d) eqn:Hd; simpl.
  - apply IH.
  - intros [= <- <-]. now apply parse_dim_raised in Hd.
Qed.

(** [_parse_table_declaration] either leaves with the parser untouched (no
    match, or an exception) or records a table under a non-empty name and
    makes it the current table. *)
Lemma _parse_table_declaration_cases self statement line_num :
  (exists e, _parse_table_declaration self statement line_num = Raised e self)
  \/ _parse_table_declaration self statement line_num = Done self
  \/ exists name table,
       _parse_table_declaration self statement line_num
       = Done (Parser.set_current_table (Some name)
                 (Parser.set_model
                    (Model.add_table (Parser.model self) table) self))
       /\ Table.name table = name /\ name <> [].
Proof.
  unfold _parse_table_declaration.
  destruct (match_ TABLE_RE _) as [m|] eqn:Hm; [|auto].
  destruct (TABLE_RE_name _ _ Hm) as (n & Hn & Hid).
  destruct (parse_dims self _ []) as [dims|e p] eqn:Hd; simpl.
  2:{ apply parse_dims_raised in Hd as ->. eauto. }
  destruct (search W_RE _) as [w|]; simpl.
  - unfold int_or_raise. destruct (Py.int _); simpl; [|eauto].
    right. right. do 2 eexists. split; [reflexivity|]. split; [reflexivity|].
    unfold group_or_empty. rewrite Hn. now apply is_ident_nonempty.
  - right. right. do 2 eexists. split; [reflexivity|]. split; [reflexivity|].
    unfold group_or_empty. rewrite Hn. now apply is_ident_nonempty.
Qed.

(** *** The scope and the keys of [items] *)

Lemma same_items_inv p p' : same_items p p' -> ScopeInv p -> ScopeInv p'.
Proof. intros [Hi Hs] [H1 H2]. split; [congruence | now rewrite Hi]. Qed.

Ltac same_items_tac :=
  cbv zeta; repeat case_match; split; reflexivity.

Lemma _parse_start_items p s i : same_items p (_parse_start p s i).
Proof. unfold _parse_start. same_items_tac. Qed.

Lemma _parse_compool_start_items p s i :
  same_items p (_parse_compool_start p s i).
Proof. unfold _parse_compool_start. same_items_tac. Qed.

Lemma _handle_begin_items p i : same_items p (_handle_begin p i).
Proof. unfold _handle_begin. same_items_tac. Qed.

Lemma _handle_end_items p i : same_items p (_handle_end p i).
Proof. unfold _handle_end. same_items_tac. Qed.

Lemma _parse_proc_declaration_items p s i :
  same_items p (_parse_proc_declaration p s i).
Proof. unfold _parse_proc_declaration. same_items_tac. Qed.

Lemma _parse_type_declaration_items p s i :
  same_items p (_parse_type_declaration p s i).
Proof. unfold _parse_type_declaration. same_items_tac. Qed.

Lemma _parse_define_items p s i : same_items p (_parse_define p s i).
Proof. unfold _parse_define. same_items_tac. Qed.

Lemma _parse_ref_reference_items p s i :
  same_items p (_parse_ref_reference p s i).
Proof. unfold _parse_ref_reference. same_items_tac. Qed.

Lemma _parse_table_declaration_items p s i :
  same_items p (parser_after (_parse_table_declaration p s i)).
Proof.
  destruct (_parse_table_declaration_cases p s i)
    as [[e ->] | [-> | (n & tb & -> & _)]]; split; reflexivity.
Qed.

(** With the scope GLOBAL, [add_item] writes one key: the name. *)
Lemma add_item_global (mdl : JovialSemanticModel) (item : ItemDefinition) :
  Model.current_scope mdl = L "GLOBAL" ->
  Model.items (Model.add_item mdl item)
  = <[Item.name item := item]> (Model.items mdl)
  /\ Model.current_scope (Model.add_item mdl item) = L "GLOBAL".
Proof.
  intros Hs. unfold Model.add_item. rewrite Hs. simpl.
  split; [apply insert_insert_eq | assumption].
Qed.

Lemma place_item_global (self : JovialSemanticParser) (n : str)
    (item : ItemDefinition) :
  Model.current_scope (Parser.model self) = L "GLOBAL" ->
  Model.items (Parser.model (place_item self n item))
  = <[Item.name item := item]> (Model.items (Parser.model self))
  /\ Model.current_scope (Parser.model (place_item self n item))
     = L "GLOBAL".
Proof.
  intros Hs. unfold place_item. cbv zeta.
  repeat case_match; simpl; apply add_item_global; assumption.
Qed.

Lemma is_ident_no_dot (n : str) : is_ident n = true -> no_dot n.
Proof.
  intros H. apply is_ident_chars in H. unfold no_dot, Py.has_char.
  apply not_true_is_false. intros He.
  apply existsb_exists in He as (a & Ha & Heq).
  apply Ascii.eqb_eq in Heq as <-.
  rewrite Forall_forall in H. apply list_elem_of_In, H in Ha. discriminate Ha.
Qed.

Lemma insert_no_dot {V : Type} (d : gmap str V) (n : str) (v : V) :
  no_dot n ->
  (forall k, is_Some (d !! k) -> no_dot k) ->
  forall k, is_Some (<[n := v]> d !! k) -> no_dot k.
Proof.
  intros Hn Hd k. rewrite lookup_insert. case_decide; [now subst | apply Hd].
Qed.

Lemma _parse_item_declaration_scope p s i :
  ScopeInv p -> ScopeInv (parser_after (_parse_item_declaration p s i)).
Proof.
  intros [Hs Hk].
  destruct (_parse_item_declaration_cases p s i)
    as [-> | [(m & size & Hm & ->) | ->]]; [now split | | now split].
  unfold parser_after, ScopeInv.
  destruct (place_item_global p (group_or_empty m 1)
              (item_of_match p s i m size) Hs) as [Hi Hsc].
  rewrite Hi, Hsc.
  split; [reflexivity|]. apply insert_no_dot; [|assumption].
  simpl. destruct (ITEM_RE_name _ _ Hm) as (n & Hn & Hid).
  unfold group_or_empty. rewrite Hn. now apply is_ident_no_dot.
Qed.

Lemma _parse_def_reference_scope p s i :
  ScopeInv p -> ScopeInv (_parse_def_reference p s i).
Proof.
  intros [Hs Hk]. unfold _parse_def_reference. cbv zeta.
  destruct (match_ DEF_RE _) as [m|] eqn:Hm; [|now split].
  assert (Hn : no_dot (group_or_empty m 2)).
  { unfold group_or_empty. destruct (group m 2) as [n|] eqn:Hg; [|reflexivity].
    apply is_ident_no_dot. now apply (DEF_RE_name _ _ _ Hm). }
  assert (Hadd : ScopeInv (Parser.set_model
                   (Model.add_item (Parser.model p)
                      (placeholder_item (group_or_empty m 2) i)) p)).
  { unfold ScopeInv.
    change (Parser.model (Parser.set_model ?x p)) with x.
    destruct (add_item_global (Parser.model p)
                (placeholder_item (group_or_empty m 2) i) Hs) as [Hi Hsc].
    rewrite Hi, Hsc.
    split; [reflexivity|]. now apply insert_no_dot. }
  repeat case_match; first [exact Hadd | now split].
Qed.

Lemma _parse_statement_scope p s i :
  ScopeInv p -> ScopeInv (parser_after (_parse_statement p s i)).
Proof.
  intros H. unfold _parse_statement.
  repeat case_match; simpl;
    first [ assumption
          | now apply _parse_item_declaration_scope
          | now apply _parse_def_reference_scope
          | eapply same_items_inv; [|exact H];
            first [ apply _parse_start_items
                  | apply _parse_compool_start_items
                  | apply _handle_begin_items
                  | apply _handle_end_items
                  | apply _parse_table_declaration_items
                  | apply _parse_proc_declaration_items
                  | apply _parse_type_declaration_items
                  | apply _parse_define_items
                  | apply _parse_ref_reference_items ] ].
Qed.

End Invariants.

(** ** The keys of [items] *)

(** C10: whatever the text, and whether [parse] returns or raises, the
    model it leaves has [current_scope] equal to GLOBAL and no key of its
    [items] dictionary contains a dot: the scoped-key branch of [add_item]
    never fires. *)
Theorem items_keys_have_no_dot (self : JovialSemanticParser) (code : str) :
  let mdl := Parser.model (parser_after (parse self code)) in
  Model.current_scope mdl = L "GLOBAL"
  /\ forall k, is_Some (Model.items mdl !! k) -> Py.has_char "." k = false.
Proof.
  unfold parse.
  apply (Invariants.parse_loop_invariant ScopeInv).
  - intros p i H. exact H.
  - apply Invariants._parse_statement_scope.
  - split; [reflexivity|]. intros k [v Hv]. simpl in Hv.
    rewrite lookup_empty in Hv. discriminate Hv.
Qed.

(** ** Items declared inside a table body *)

Module TableContext.
Import Re ReSpec ReFacts PatternFacts ItemFacts Invariants.

Lemma keeps_tables_inv p p' : keeps_tables p p' -> TableInv p -> TableInv p'.
Proof.
  intros (Ht & Hc & Hb) [H1 H2]. split.
  - intros T HT. rewrite Hc in HT. destruct (H1 T HT). auto.
  - rewrite Hb, Hc. exact H2.
Qed.

Ltac keeps_tables_tac :=
  cbv zeta; repeat case_match; repeat split; simpl; auto.

Lemma _parse_start_tables p s i : keeps_tables p (_parse_start p s i).
Proof. unfold _parse_start. keeps_tables_tac. Qed.

Lemma _parse_compool_start_tables p s i :
  keeps_tables p (_parse_compool_start p s i).
Proof. unfold _parse_compool_start. keeps_tables_tac. Qed.

Lemma _parse_proc_declaration_tables p s i :
  keeps_tables p (_parse_proc_declaration p s i).
Proof. unfold _parse_proc_declaration. keeps_tables_tac. Qed.

Lemma _parse_type_declaration_tables p s i :
  keeps_tables p (_parse_type_declaration p s i).
Proof. unfold _parse_type_declaration. keeps_tables_tac. Qed.

Lemma _parse_define_tables p s i : keeps_tables p (_parse_define p s i).
Proof. unfold _parse_define. keeps_tables_tac. Qed.

Lemma _parse_def_reference_tables p s i :
  keeps_tables p (_parse_def_reference p s i).
Proof. unfold _parse_def_reference. keeps_tables_tac. Qed.

Lemma _parse_ref_reference_tables p s i :
  keeps_tables p (_parse_ref_reference p s i).
Proof. unfold _parse_ref_reference. keeps_tables_tac. Qed.

Lemma is_Some_insert_mono {V : Type} (d : gmap str V) (k : str) (v : V)
    (T : str) :
  is_Some (d !! T) -> is_Some (<[k := v]> d !! T).
Proof.
  rewrite lookup_insert. case_decide; eauto.
Qed.

Lemma place_item_tables p n item : keeps_tables p (place_item p n item).
Proof.
  unfold place_item. cbv zeta.
  repeat case_match; repeat split; simpl; auto;
    intros T; apply is_Some_insert_mono.
Qed.

Lemma _parse_item_declaration_tables p s i :
  keeps_tables p (parser_after (_parse_item_declaration p s i)).
Proof.
  destruct (_parse_item_declaration_cases p s i)
    as [-> | [(m & size & Hm & ->) | ->]].
  - repeat split; auto.
  - apply place_item_tables.
  - repeat split; auto.
Qed.

Lemma truthy_is_Some (o : option str) : truthy o = true -> is_Some o.
Proof. destruct o; [eauto | discriminate]. Qed.

Lemma _handle_begin_table p i : TableInv p -> TableInv (_handle_begin p i).
Proof.
  intros [H1 H2]. unfold _handle_begin. cbv zeta.
  repeat case_match; split; simpl; auto;
    intros; now apply truthy_is_Some.
Qed.

Lemma _handle_end_table p i : TableInv p -> TableInv (_handle_end p i).
Proof.
  intros [H1 H2]. unfold _handle_end. cbv zeta.
  repeat case_match; split; simpl; auto; intros; congruence.
Qed.

Lemma _parse_table_declaration_table p s i :
  TableInv p -> TableInv (parser_after (_parse_table_declaration p s i)).
Proof.
  intros [H1 H2].
  destruct (_parse_table_declaration_cases p s i)
    as [[e ->] | [-> | (n & tb & -> & Hn & Hne)]]; [now split | now split |].
  split; simpl.
  - intros T [= <-]. split; [assumption|].
    unfold Model.add_table. simpl. rewrite Hn, lookup_insert_eq. eauto.
  - eauto.
Qed.

Lemma _parse_statement_table p s i :
  TableInv p -> TableInv (parser_after (_parse_statement p s i)).
Proof.
  intros H. unfold _parse_statement.
  repeat case_match; simpl;
    first [ assumption
          | now apply _handle_begin_table
          | now apply _handle_end_table
          | now apply _parse_table_declaration_table
          | eapply keeps_tables_inv; [|exact H];
            first [ apply _parse_start_tables
                  | apply _parse_compool_start_tables
                  | apply _parse_item_declaration_tables
                  | apply _parse_proc_declaration_tables
                  | apply _parse_type_declaration_tables
                  | apply _parse_define_tables
                  | apply _parse_def_reference_tables
                  | apply _parse_ref_reference_tables ] ].
Qed.

(** Every state of the loop of [parse] has the table invariant. *)
Lemma parse_loop_table (self : JovialSemanticParser) (code buf : str)
    (i : nat) (lines : list str) :
  TableInv (parser_after (parse_loop (reset self code) buf i lines)).
Proof.
  apply (parse_loop_invariant TableInv).
  - intros p j H. exact H.
  - apply _parse_statement_table.
  - split; simpl; discriminate.
Qed.

(** Inside a table body, [place_item] writes the item into the entries of
    the current table and into [items]. *)
Lemma place_item_in_table_body (self : JovialSemanticParser)
    (item : ItemDefinition) :
  TableInv self ->
  Parser.in_table_body self = true ->
  exists T tb,
    Parser.current_table self = Some T
    /\ Model.tables (Parser.model self) !! T = Some tb
    /\ Model.tables (Parser.model (place_item self (Item.name item) item))
         !! T = Some (Table.set_entry (Item.name item) item tb)
    /\ Model.items (Parser.model (place_item self (Item.name item) item))
         !! Item.name item = Some item.
Proof.
  intros [H1 H2] Hb.
  destruct (H2 Hb) as [T HT]. destruct (H1 T HT) as [Hne [tb Htb]].
  exists T, tb. split; [assumption|]. split; [assumption|].
  split; [|apply place_item_lookup].
  unfold place_item. rewrite HT, Hb. simpl.
  destruct T as [|a T]; [congruence|]. simpl.
  unfold Model.get_table. rewrite Htb. simpl.
  unfold Model.add_item. simpl. apply lookup_insert_eq.
Qed.

End TableContext.

(** C2: in any state that the loop of [parse] reaches, when the parser is
    inside a table body and the statement is a recognised ITEM declaration
    whose size, if any, has no more digits than [int] converts (the
    declaration raises otherwise and stores nothing),
    [_parse_item_declaration] returns, there is a current table [T], and
    afterwards the item stands in the entries of the table [T] of the model
    under its name and in the [items] of the model under the same name, the
    two slots hold the same value, and its [parent_table] is [T]. *)
Theorem table_item_in_both_maps (self0 : JovialSemanticParser)
    (code : str) (earlier : list str) (self : JovialSemanticParser)
    (statement : str) (i : nat) (m : Re.Match) :
  parse_loop (reset self0 code) [] 0 earlier = Done self ->
  Parser.in_table_body self = true ->
  Re.match_ ITEM_RE (Py.strip (Py.rstrip_char ";" statement)) = Some m ->
  size_within_limit m = true ->
  exists T self' tb it,
    Parser.current_table self = Some T
    /\ _parse_item_declaration (Parser.set_current_line_num i self)
         statement i = Done self'
    /\ Model.tables (Parser.model self') !! T = Some tb
    /\ Table.entries tb !! Re.group_or_empty m 1 = Some it
    /\ Model.items (Parser.model self') !! Re.group_or_empty m 1 = Some it
    /\ Item.name it = Re.group_or_empty m 1
    /\ Item.parent_table it = Some T.
Proof.
  intros Hloop Hb Hm Hsz.
  pose proof (TableContext.parse_loop_table self0 code [] 0 earlier) as Hinv.
  rewrite Hloop in Hinv. simpl in Hinv.
  destruct (ItemFacts._parse_item_declaration_match
              (Parser.set_current_line_num i self) statement i m Hm Hsz)
    as [size Hd].
  set (item := item_of_match (Parser.set_current_line_num i self)
                 statement i m size) in *.
  destruct (TableContext.place_item_in_table_body
              (Parser.set_current_line_num i self) item Hinv Hb)
    as (T & tb & HT & Htb & Htb' & Hit).
  exists T, (place_item (Parser.set_current_line_num i self)
               (Item.name item) item),
         (Table.set_entry (Item.name item) item tb), item.
  split; [exact HT|]. split; [exact Hd|]. split; [exact Htb'|].
  split; [apply ItemFacts.odict_lookup_insert|]. split; [exact Hit|].
  split; [reflexivity | exact HT].
Qed.

(** [table_item_in_both_maps] at the item [LAT] of scenario B: after the
    lines [TABLE WAYPOINTS (1:100);] and [BEGIN], the statement
    [ITEM LAT F 32;] of line 2. *)
Lemma table_item_in_both_maps_witness :
  exists self self' tb it,
    parse_loop (reset Parser.init [])
      [] 0 [L "TABLE WAYPOINTS (1:100);"; L "BEGIN"] = Done self
    /\ _parse_item_declaration (Parser.set_current_line_num 2 self)
         (L "ITEM LAT F 32;") 2 = Done self'
    /\ Model.tables (Parser.model self') !! L "WAYPOINTS" = Some tb
    /\ Table.entries tb !! L "LAT" = Some it
    /\ Model.items (Parser.model self') !! L "LAT" = Some it
    /\ Item.parent_table it = Some (L "WAYPOINTS").
Proof.
  destruct (parse_loop (reset Parser.init [])
              [] 0 [L "TABLE WAYPOINTS (1:100);"; L "BEGIN"])
    as [self|e p] eqn:Hloop; [|vm_compute in Hloop; discriminate Hloop].
  destruct (Re.match_ ITEM_RE
              (Py.strip (Py.rstrip_char ";" (L "ITEM LAT F 32;"))))
    as [m|] eqn:Hm; [|vm_compute in Hm; discriminate Hm].
  assert (Hb : Parser.in_table_body self = true).
  { vm_compute in Hloop. injection Hloop as <-. reflexivity. }
  assert (Hsz : size_within_limit m = true).
  { vm_compute in Hm. injection Hm as <-. reflexivity. }
  destruct (table_item_in_both_maps Parser.init [] _ self
              (L "ITEM LAT F 32;") 2 m Hloop Hb Hm Hsz)
    as (T & self' & tb & it & HT & Hd & Htb & He & Hi & _ & Hp).
  assert (T = L "WAYPOINTS") as ->.
  { vm_compute in Hloop. injection Hloop as <-.
    vm_compute in HT. now injection HT as <-. }
  vm_compute in Hm. injection Hm as <-.
  exists self, self', tb, it. repeat split; assumption.
Defined.

(** ** The type group of [ITEM_RE] *)

Module StatusFacts.
Import Re ReSpec ReFacts PatternFacts ItemFacts.

Lemma star_loop_total (body : cont -> cont) (k : cont) (n : nat) :
  total k -> total (star_loop body k n).
Proof.
  intros Hk s c. destruct n; simpl; [apply Hk|].
  destruct (body _ s c); [eauto | apply Hk].
Qed.

Lemma run_star_total (r : regex) (k : cont) :
  total k -> total (run (Star r) k).
Proof. intros Hk s c. simpl. now apply star_loop_total. Qed.

Lemma run_opt_total (r : regex) (k : cont) :
  total k -> total (run (Opt r) k).
Proof.
  intros Hk s c. simpl. destruct (run r k s c); [eauto | apply Hk].
Qed.

Lemma run_grp_star_total (i : nat) (r : regex) (k : cont) :
  total k -> total (run (Grp i (Star r)) k).
Proof.
  intros Hk s c. simpl. apply star_loop_total. intros s' c'. apply Hk.
Qed.

Lemma item_tail_total : total (run ITEM_TAIL accept).
Proof.
  unfold ITEM_TAIL.
  change (total (run (Star ws)
                   (run (Opt (Grp 4 (Plus digit)))
                      (run (Grp 5 (Star dot)) accept)))).
  apply run_star_total, run_opt_total, run_grp_star_total.
  intros s c. unfold accept. eauto.
Qed.

(** Before a continuation that accepts everything, the type group takes
    one letter: the alternative STATUS is never reached, because the
    alternative S before it takes its first letter. *)
Lemma item_type_one_letter (k : cont) (s : str) (c : caps) (x : result) :
  total k ->
  run ITEM_TYPE k s c = Some x ->
  exists a s', s = a :: s' /\ In (Py.upper_char a) type_letters
               /\ k s' c = Some x.
Proof.
  intros Hk H. destruct s as [|a s']; [discriminate H|].
  exists a, s'. split; [reflexivity|].
  destruct (Hk s' c) as [y Hy].
  cbn in H. rewrite Hy in H. unfold type_letters. simpl In.
  repeat match type of H with
    | context [Ascii.eqb (Py.upper_char a) ?l] =>
        let E := fresh "E" in
        destruct (Ascii.eqb (Py.upper_char a) l) eqn:E;
        [apply Ascii.eqb_eq in E; rewrite E; injection H as <-; tauto|]
    end.
  discriminate H.
Qed.

(** The type group of a match of [ITEM_RE] is one letter among S, U, F, A,
    B, C, P, in either case. *)
Lemma ITEM_RE_type (s : str) (m : Match) :
  match_ ITEM_RE s = Some m ->
  exists a, group m 3 = Some [a] /\ In (Py.upper_char a) type_letters.
Proof.
  unfold match_. destruct (run ITEM_RE accept s ∅) as [[rest c]|] eqn:H;
    [|discriminate].
  intros [= <-]. unfold group. simpl groups.
  unfold ITEM_RE in H.
  change (run (ilit (L "ITEM"))
            (run (Plus ws)
               (run (Grp 1 ident)
                  (run (Plus ws)
                     (run (Star (Grp 2
                        ((ilit (L "STATIC") +> Plus ws) </>
                         (ilit (L "CONSTANT") +> Plus ws) </>
                         (ilit (L "PARALLEL") +> Plus ws))%re))
                        (run (Grp 3 ITEM_TYPE) (run ITEM_TAIL accept))))))
            s ∅ = Some (rest, c)) in H.
  apply run_sound in H as (? & s1 & c1 & _ & _ & H).
  apply run_sound in H as (? & s2 & c2 & _ & _ & H).
  apply run_sound in H as (? & s3 & c3 & _ & _ & H).
  apply run_sound in H as (? & s4 & c4 & _ & _ & H).
  apply run_sound in H as (? & s5 & c5 & _ & _ & H).
  change (run ITEM_TYPE
            (fun s' c' =>
               run ITEM_TAIL accept s'
                 (<[3%nat := take (length s5 - length s') s5]> c'))
            s5 c5 = Some (rest, c)) in H.
  apply item_type_one_letter in H as (a & s' & -> & Ha & H).
  2:{ intros s' c'. apply item_tail_total. }
  exists a. split; [|exact Ha].
  replace (take (length (a :: s') - length s') (a :: s')) with [a] in H.
  2:{ simpl length. replace (S (length s') - length s')%nat with 1%nat by lia.
      reflexivity. }
  apply run_sound in H as (w & rest' & c' & _ & Hm & Hacc).
  injection Hacc as -> ->.
  rewrite (matches_frame _ _ _ _ _ Hm 3%nat) by not_a_group.
  apply lookup_insert_eq.
Qed.

(** No match of [ITEM_RE] gives the type STATUS, and so no item gets a
    status value. *)
Lemma item_of_match_not_status (self : JovialSemanticParser)
    (statement : str) (line_num : nat) (m : Match) (size : option Z) :
  match_ ITEM_RE (Py.strip (Py.rstrip_char ";" statement)) = Some m ->
  Item.type (item_of_match self statement line_num m size) <> STATUS
  /\ Item.status_values (item_of_match self statement line_num m size) = [].
Proof.
  intros Hm. apply ITEM_RE_type in Hm as (a & Hg & Ha).
  unfold item_of_match. simpl. unfold group_or_empty. rewrite Hg. simpl.
  unfold type_letters in Ha. simpl in Ha.
  destruct Ha as [<-|[<-|[<-|[<-|[<-|[<-|[<-|[]]]]]]]];
    split; (discriminate || reflexivity).
Qed.

Lemma add_item_no_status (mdl : JovialSemanticModel) (item : ItemDefinition) :
  (forall k it, Model.items mdl !! k = Some it ->
     Item.type it <> STATUS /\ Item.status_values it = []) ->
  Item.type item <> STATUS /\ Item.status_values item = [] ->
  forall k it, Model.items (Model.add_item mdl item) !! k = Some it ->
    Item.type it <> STATUS /\ Item.status_values it = [].
Proof.
  intros Hm Hi k it. unfold Model.add_item. simpl.
  rewrite !lookup_insert. repeat case_decide; try (intros [= <-]; exact Hi).
  apply Hm.
Qed.

Lemma place_item_no_status p n item :
  NoStatus p ->
  Item.type item <> STATUS /\ Item.status_values item = [] ->
  NoStatus (place_item p n item).
Proof.
  intros Hp Hi. unfold NoStatus, place_item. cbv zeta.
  repeat case_match; simpl; now apply add_item_no_status.
Qed.

Lemma _parse_statement_no_status p s i :
  NoStatus p -> NoStatus (parser_after (_parse_statement p s i)).
Proof.
  intros H.
  assert (Hsame : forall p', same_items p p' -> NoStatus p').
  { intros p' [Hi _] k it. rewrite Hi. apply H. }
  unfold _parse_statement.
  repeat case_match; simpl;
    first [ assumption
          | apply Hsame;
            first [ apply Invariants._parse_start_items
                  | apply Invariants._parse_compool_start_items
                  | apply Invariants._handle_begin_items
                  | apply Invariants._handle_end_items
                  | apply Invariants._parse_table_declaration_items
                  | apply Invariants._parse_proc_declaration_items
                  | apply Invariants._parse_type_declaration_items
                  | apply Invariants._parse_define_items
                  | apply Invariants._parse_ref_reference_items ]
          | idtac ].
  - destruct (_parse_item_declaration_cases p s i)
      as [-> | [(m & size & Hm & ->) | ->]]; [exact H | | exact H].
    apply place_item_no_status; [assumption|].
    now apply item_of_match_not_status.
  - unfold _parse_def_reference. cbv zeta.
    repeat case_match; try assumption;
      unfold NoStatus; simpl; apply add_item_no_status; try assumption;
      (split; [discriminate | reflexivity]).
Qed.

End StatusFacts.

(** Whatever the text, no item of the model that [parse] leaves has the
    type STATUS, and none has a status value. *)
Lemma status_never_recorded (self : JovialSemanticParser) (code : str)
    (k : str) (it : ItemDefinition) :
  Model.items (Parser.model (parser_after (parse self code))) !! k = Some it ->
  Item.type it <> STATUS /\ Item.status_values it = [].
Proof.
  revert k it. unfold parse.
  apply (Invariants.parse_loop_invariant NoStatus).
  - intros p i H. exact H.
  - apply StatusFacts._parse_statement_no_status.
  - intros k it H. simpl in H. rewrite lookup_empty in H. discriminate H.
Qed.

(** * Further properties *)

(** ** Comments *)

Module CommentFacts.

Lemma loop_in_comment (line result : str) (in_string : bool) :
  _remove_comments_loop line result in_string true = result.
Proof. now destruct line. Qed.

Lemma apostrophes_cons (a : ascii) (s : str) :
  apostrophes (a :: s)
  = if Ascii.eqb a "'"%char then S (apostrophes s) else apostrophes s.
Proof.
  destruct (Ascii.eqb a "'"%char) eqn:E.
  - apply Ascii.eqb_eq in E as ->. reflexivity.
  - rewrite Ascii.eqb_sym in E. unfold apostrophes.
    cbn [List.filter]. now rewrite E.
Qed.

Lemma has_char_cons (c a : ascii) (s : str) :
  Py.has_char c (a :: s) = Ascii.eqb c a || Py.has_char c s.
Proof. reflexivity. Qed.

Lemma loop_cons (char : ascii) (rest result : str) (in_string : bool) :
  _remove_comments_loop (char :: rest) result in_string false
  = if Ascii.eqb char "034"%char && negb in_string then
      _remove_comments_loop rest result in_string true
    else if Ascii.eqb char "'"%char then
      _remove_comments_loop rest (result ++ [char]) (negb in_string) false
    else
      _remove_comments_loop rest (result ++ [char]) in_string false.
Proof.
  cbn [_remove_comments_loop]. now rewrite andb_true_r.
Qed.

(** Up to the first double quote every character is kept, and each
    apostrophe toggles the string mode. *)
Lemma loop_no_quote (pre rest result : str) (in_string : bool) :
  Py.has_char "034" pre = false ->
  _remove_comments_loop (pre ++ rest) result in_string false
  = _remove_comments_loop rest (result ++ pre)
      (in_string_after in_string pre) false.
Proof.
  revert result in_string.
  induction pre as [|a pre IH]; intros result in_string Hq.
  - cbn [app]. rewrite app_nil_r. unfold in_string_after.
    cbn. now rewrite xorb_false_r.
  - rewrite has_char_cons in Hq. apply orb_false_iff in Hq as [Ha Hq].
    rewrite Ascii.eqb_sym in Ha.
    cbn [app]. rewrite loop_cons, Ha. cbn [andb].
    unfold in_string_after. rewrite apostrophes_cons.
    destruct (Ascii.eqb a "'"%char) eqn:Hap.
    + rewrite IH by assumption. rewrite <- app_assoc. cbn [app].
      unfold in_string_after. f_equal.
      rewrite Nat.odd_succ, <- Nat.negb_odd.
      now destruct in_string, (Nat.odd (apostrophes pre)).
    + rewrite IH by assumption. rewrite <- app_assoc. reflexivity.
Qed.

(** In string mode, without an apostrophe, every character is kept. *)
Lemma loop_in_string (post result : str) :
  Py.has_char "'" post = false ->
  _remove_comments_loop post result true false = result ++ post.
Proof.
  revert result. induction post as [|a post IH]; intros result Hp.
  - cbn. now rewrite app_nil_r.
  - rewrite has_char_cons in Hp. apply orb_false_iff in Hp as [Ha Hp].
    rewrite Ascii.eqb_sym in Ha.
    rewrite loop_cons, Ha, andb_false_r.
    rewrite IH by assumption. now rewrite <- app_assoc.
Qed.

End CommentFacts.

(** ** The dispatch of statements *)

Module Dispatch.

(** The loop over two runs of lines, one after the other. *)
Lemma parse_loop_app (a b : list str) :
  forall (self : JovialSemanticParser) (buf : str) (i : nat),
    parse_loop self buf i (a ++ b)
    = let* p := parse_loop self buf i a in
      parse_loop p (buffer_after buf a) (i + length a) b.
Proof.
  induction a as [|line a IH]; intros self buf i.
  - simpl. now rewrite Nat.add_0_r.
  - cbn [app length buffer_after]. rewrite !parse_loop_line.
    replace (i + S (length a))%nat with (S i + length a)%nat by lia.
    destruct (is_complete (stripped_line line)).
    + destruct (_parse_statement _ _ i) as [p'|e p']; simpl;
        [apply IH | reflexivity].
    + apply IH.
Qed.

(** Lines that end no statement dispatch nothing. *)
Lemma parse_loop_incomplete (ls : list str) :
  Forall (fun l => is_complete (stripped_line l) = false) ls ->
  forall (self : JovialSemanticParser) (buf : str) (i : nat),
    parse_loop self buf i ls = Done (after_lines i (length ls) self).
Proof.
  induction 1 as [|line ls Hl _ IH]; intros self buf i; [reflexivity|].
  rewrite parse_loop_line, Hl, IH. f_equal.
  destruct ls as [|l' ls]; simpl.
  - now rewrite Nat.add_0_r.
  - now replace (i + S (length ls))%nat with (S (i + length ls)) by lia.
Qed.

(** A line made of code and a comment is seen as its code, stripped. *)
Lemma stripped_line_code (code comment : str) :
  code_then_comment code comment = true ->
  stripped_line (code ++ comment) = Py.strip code.
Proof.
  unfold code_then_comment. rewrite !andb_true_iff, negb_true_iff.
  intros [[Hq He] Hc]. unfold stripped_line, _remove_comments. f_equal.
  rewrite CommentFacts.loop_no_quote by assumption.
  unfold in_string_after. rewrite <- Nat.negb_even, He. simpl.
  destruct comment as [|c k]; [reflexivity|].
  apply Ascii.eqb_eq in Hc as ->.
  rewrite CommentFacts.loop_cons. simpl.
  apply CommentFacts.loop_in_comment.
Qed.

(** The dispatch at the line that ends a statement, after the lines [pre]
    that leave no statement open and the lines [chunk] that end none. *)
Lemma parse_loop_chunk (self p0 : JovialSemanticParser)
    (pre chunk : list str) (last : str) (post : list str) :
  buffer_after [] pre = [] ->
  Forall (fun l => is_complete (stripped_line l) = false) chunk ->
  is_complete (stripped_line last) = true ->
  parse_loop self [] 0 pre = Done p0 ->
  parse_loop self [] 0 (pre ++ chunk ++ last :: post)
  = let i := (length pre + length chunk)%nat in
    let* p1 :=
      _parse_statement (Parser.set_current_line_num i p0)
        (Py.strip (buffer_after [] chunk ++ L " " ++ stripped_line last))
        i in
    parse_loop p1 [] (S i) post.
Proof.
  intros Hbuf Hchunk Hlast Hpre.
  rewrite parse_loop_app, Hpre, Hbuf. cbn [bind].
  rewrite parse_loop_app, (parse_loop_incomplete chunk Hchunk). cbn [bind].
  rewrite parse_loop_line, Hlast. cbv zeta.
  replace (Parser.set_current_line_num (0 + length pre + length chunk)
             (after_lines (0 + length pre) (length chunk) p0))
    with (Parser.set_current_line_num (length pre + length chunk) p0)
    by (now destruct (length chunk)).
  reflexivity.
Qed.

End Dispatch.

(** C5: the loop of [parse] keeps the lines in a buffer and dispatches it
    exactly at the lines that, without their comment and stripped, end with
    [;] or are, in upper case, one of BEGIN, END, START, TERM.  Lines that
    end no statement dispatch nothing; after lines [pre] that leave no
    statement open and lines [chunk] that end none, the line [last] that
    ends one dispatches the statement made of [chunk] and [last], with the
    index of [last], and the loop goes on with an empty buffer.
    Consequently an ITEM declaration written over three physical lines,
    each with or without a comment, anywhere in a text, is dispatched once,
    at its third line: exactly one item is added to the items, and its
    [line_number] is the index of that third line (the declaration returns
    when its size, if any, has no more digits than [int] converts). *)
Theorem statement_dispatch_rule :
  let ends := fun stripped : str =>
    Py.endswith stripped (L ";")
    || existsb (Py.eqb (Py.upper stripped))
         [L "BEGIN"; L "END"; L "START"; L "TERM"] in
  let ends_statement := fun line : str => ends (stripped_line line) in
  (forall (ls : list str) (self : JovialSemanticParser) (buf : str)
          (i : nat),
     Forall (fun l => ends_statement l = false) ls ->
     parse_loop self buf i ls = Done (after_lines i (length ls) self))
  /\
  (forall (self p0 : JovialSemanticParser) (code : str)
          (pre chunk : list str) (last : str) (post : list str),
     Py.split "010" code = pre ++ chunk ++ last :: post ->
     buffer_after [] pre = [] ->
     Forall (fun l => ends_statement l = false) chunk ->
     ends_statement last = true ->
     parse_loop (reset self code) [] 0 pre = Done p0 ->
     parse self code
     = let i := (length pre + length chunk)%nat in
       let* p1 :=
         _parse_statement (Parser.set_current_line_num i p0)
           (Py.strip (buffer_after [] chunk ++ L " " ++ stripped_line last))
           i in
       parse_loop p1 [] (S i) post)
  /\
  (forall (self p0 : JovialSemanticParser) (code : str)
          (pre post : list str) (c1 k1 c2 k2 c3 k3 : str) (m : Re.Match),
     let statement :=
       Py.strip (((L " " ++ Py.strip c1) ++ L " " ++ Py.strip c2)
                 ++ L " " ++ Py.strip c3) in
     let i := (length pre + 2)%nat in
     Py.split "010" code = pre ++ [c1 ++ k1; c2 ++ k2; c3 ++ k3] ++ post ->
     buffer_after [] pre = [] ->
     parse_loop (reset self code) [] 0 pre = Done p0 ->
     code_then_comment c1 k1 = true ->
     code_then_comment c2 k2 = true ->
     code_then_comment c3 k3 = true ->
     nonempty (Py.strip c1) = true ->
     nonempty (Py.strip c2) = true ->
     ends (Py.strip c1) = false ->
     ends (Py.strip c2) = false ->
     Py.endswith (Py.strip c3) (L ";") = true ->
     Py.startswith (Py.upper statement) (L "ITEM") = true ->
     Re.match_ ITEM_RE (Py.strip (Py.rstrip_char ";" statement)) = Some m ->
     size_within_limit m = true ->
     exists it p1,
       parse self code = parse_loop p1 [] (S i) post
       /\ p1 = place_item (Parser.set_current_line_num i p0)
                 (Re.group_or_empty m 1) it
       /\ Model.items (Parser.model p1)
          = <[Re.group_or_empty m 1 := it]> (Model.items (Parser.model p0))
       /\ Item.name it = Re.group_or_empty m 1
       /\ Item.line_number it = i).
Proof.
  cbv zeta.
  split; [intros ls self buf i H; now apply Dispatch.parse_loop_incomplete|].
  split.
  - intros self p0 code pre chunk last post Hsplit Hbuf Hchunk Hlast Hpre.
    unfold parse.
    replace (Parser.lines (reset self code))
      with (pre ++ chunk ++ last :: post) by (symmetry; exact Hsplit).
    now apply Dispatch.parse_loop_chunk.
  - intros self p0 code pre post c1 k1 c2 k2 c3 k3 m
      Hsplit Hbuf Hpre K1 K2 K3 N1 N2 C1 C2 E3 Hs Hm Hsz.
    set (statement :=
      Py.strip (((L " " ++ Py.strip c1) ++ L " " ++ Py.strip c2)
                ++ L " " ++ Py.strip c3)) in *.
    set (i := (length pre + 2)%nat).
    fold (is_complete (Py.strip c1)) in C1.
    fold (is_complete (Py.strip c2)) in C2.
    apply Dispatch.stripped_line_code in K1, K2, K3.
    assert (Hscope : ScopeInv p0).
    { pose proof (Invariants.parse_loop_invariant ScopeInv
                    (fun p j H => H) Invariants._parse_statement_scope
                    pre (reset self code) [] 0) as H.
      rewrite Hpre in H. apply H.
      split; [reflexivity|]. intros k [v Hv]. simpl in Hv.
      rewrite lookup_empty in Hv. discriminate Hv. }
    assert (Hrule :
      parse self code
      = let* p1 :=
          _parse_statement (Parser.set_current_line_num i p0) statement i in
        parse_loop p1 [] (S i) post).
    { unfold parse.
      replace (Parser.lines (reset self code))
        with (pre ++ [c1 ++ k1; c2 ++ k2] ++ (c3 ++ k3) :: post)
        by (symmetry; exact Hsplit).
      rewrite (Dispatch.parse_loop_chunk (reset self code) p0 pre
                 [c1 ++ k1; c2 ++ k2] (c3 ++ k3) post Hbuf); try assumption.
      - cbn [buffer_after length]. rewrite K1, K2, K3, C1, C2, N1, N2.
        reflexivity.
      - repeat constructor; [now rewrite K1 | now rewrite K2].
      - rewrite K3. unfold is_complete. now rewrite E3. }
    rewrite (_parse_statement_item _ _ _ Hs) in Hrule.
    destruct (ItemFacts._parse_item_declaration_match
                (Parser.set_current_line_num i p0) statement i m Hm Hsz)
      as [size Hd].
    rewrite Hd in Hrule. cbn [bind] in Hrule.
    eexists _, _. split; [exact Hrule|]. split; [reflexivity|].
    split; [|split; reflexivity].
    destruct Hscope as [Hsc _].
    apply (Invariants.place_item_global (Parser.set_current_line_num i p0)
             (Re.group_or_empty m 1)
             (item_of_match (Parser.set_current_line_num i p0) statement i
                m size) Hsc).
Qed.

(** [statement_dispatch_rule] in a text of five lines: [START;], then
    [ITEM] followed by a comment, [  foo], [S 16 = 4;] followed by a
    comment, and [TERM]: the item is dispatched at line 3. *)
Lemma statement_dispatch_rule_witness :
  exists p0 it p1,
    let code :=
      Py.join ["010"%char]
        [L "START;";
         L "ITEM " ++ "034"%char :: L "a counter" ++ ["034"%char];
         L "  foo";
         L "S 16 = 4; " ++ "034"%char :: L "initial value";
         L "TERM"] in
    parse_loop (reset Parser.init code) [] 0 [L "START;"] = Done p0
    /\ parse Parser.init code = parse_loop p1 [] 4 [L "TERM"]
    /\ Model.items (Parser.model p1)
       = <[L "foo" := it]> (Model.items (Parser.model p0))
    /\ Item.line_number it = 3%nat.
Proof.
  set (code :=
    Py.join ["010"%char]
      [L "START;";
       L "ITEM " ++ "034"%char :: L "a counter" ++ ["034"%char];
       L "  foo";
       L "S 16 = 4; " ++ "034"%char :: L "initial value";
       L "TERM"]).
  destruct (parse_loop (reset Parser.init code) [] 0 [L "START;"])
    as [p0|e p] eqn:Hpre; [|vm_compute in Hpre; discriminate Hpre].
  destruct (Re.match_ ITEM_RE
              (Py.strip (Py.rstrip_char ";" (L "ITEM foo S 16 = 4;"))))
    as [m|] eqn:Hm; [|vm_compute in Hm; discriminate Hm].
  assert (Hsz : size_within_limit m = true).
  { vm_compute in Hm. injection Hm as <-. reflexivity. }
  destruct (proj2 (proj2 statement_dispatch_rule) Parser.init p0 code
              [L "START;"] [L "TERM"]
              (L "ITEM ") ("034"%char :: L "a counter" ++ ["034"%char])
              (L "  foo") []
              (L "S 16 = 4; ") ("034"%char :: L "initial value") m)
    as (it & p1 & Hp & _ & Hi & _ & Hl);
    [reflexivity | reflexivity | exact Hpre | reflexivity | reflexivity
    | reflexivity | reflexivity | reflexivity | reflexivity | reflexivity
    | reflexivity | reflexivity | exact Hm | exact Hsz |].
  vm_compute in Hm. injection Hm as <-.
  exists p0, it, p1. split; [exact Hpre|]. split; [exact Hp|].
  split; [exact Hi | exact Hl].
Defined.

(** X1: a line without a double quote is returned whole; and when the first
    double quote of a line comes after an even number of apostrophes, the
    line is cut just before it. *)
Theorem comment_starts_at_quote_outside_string :
  (forall line, Py.has_char "034" line = false ->
     _remove_comments line = line)
  /\
  (forall pre post,
     Py.has_char "034" pre = false ->
     Nat.even (apostrophes pre) = true ->
     _remove_comments (pre ++ "034"%char :: post) = pre).
Proof.
  split.
  - intros line H. unfold _remove_comments.
    rewrite <- (app_nil_r line) at 1.
    now rewrite CommentFacts.loop_no_quote.
  - intros pre post Hq He. unfold _remove_comments.
    rewrite CommentFacts.loop_no_quote by assumption.
    unfold in_string_after.
    rewrite <- Nat.negb_even, He. simpl.
    apply CommentFacts.loop_in_comment.
Qed.

(** [comment_starts_at_quote_outside_string] at the line
    [ITEM X S 16; "size"]. *)
Lemma comment_starts_at_quote_outside_string_witness :
  _remove_comments (L "ITEM X S 16; " ++ "034"%char :: L "size")
  = L "ITEM X S 16; ".
Proof.
  apply (proj2 comment_starts_at_quote_outside_string
           (L "ITEM X S 16; ") (L "size")); reflexivity.
Defined.

(** X2: when the first double quote of a line comes after an odd number of
    apostrophes (as after the identifier [A'B]) and no apostrophe follows
    it, nothing is removed: the quote and what follows it stay in the
    line. *)
Theorem quote_after_odd_apostrophes_is_kept (pre post : str) :
  Py.has_char "034" pre = false ->
  Nat.odd (apostrophes pre) = true ->
  Py.has_char "'" post = false ->
  _remove_comments (pre ++ "034"%char :: post) = pre ++ "034"%char :: post.
Proof.
  intros Hq Ho Hp. unfold _remove_comments.
  rewrite CommentFacts.loop_no_quote by assumption.
  unfold in_string_after. rewrite Ho. cbn [xorb app].
  rewrite CommentFacts.loop_cons. rewrite andb_false_r.
  replace (Ascii.eqb "034"%char "'"%char) with false by reflexivity.
  rewrite CommentFacts.loop_in_string by assumption.
  now rewrite <- app_assoc.
Qed.

(** [quote_after_odd_apostrophes_is_kept] at the line
    [ITEM A'B S 16; "size"]: the comment stays. *)
Lemma quote_after_odd_apostrophes_is_kept_witness :
  _remove_comments (L "ITEM A'B S 16; " ++ "034"%char :: L "size")
  = L "ITEM A'B S 16; " ++ "034"%char :: L "size".
Proof.
  apply (quote_after_odd_apostrophes_is_kept (L "ITEM A'B S 16; ")
           (L "size")); reflexivity.
Defined.

(** ** Items declared inside a procedure body *)

Module ProcContext.
Import Re ReSpec ReFacts PatternFacts ItemFacts Invariants TableContext.

Lemma PROC_RE_name (s : str) (m : Match) :
  match_ PROC_RE s = Some m ->
  exists n, group m 1 = Some n /\ is_ident n = true.
Proof. intros H. eapply name_group; [exact H | not_a_group]. Qed.

Lemma keeps_procs_inv p p' : keeps_procs p p' -> ProcInv p -> ProcInv p'.
Proof.
  intros (Ht & Hc & Hb) [H1 H2]. split.
  - intros P HP. rewrite Hc in HP. destruct (H1 P HP). auto.
  - rewrite Hb, Hc. exact H2.
Qed.

Ltac keeps_procs_tac :=
  cbv zeta; repeat case_match; repeat split; simpl; auto.

Lemma _parse_start_procs p s i : keeps_procs p (_parse_start p s i).
Proof. unfold _parse_start. keeps_procs_tac. Qed.

Lemma _parse_compool_start_procs p s i :
  keeps_procs p (_parse_compool_start p s i).
Proof. unfold _parse_compool_start. keeps_procs_tac. Qed.

Lemma _parse_type_declaration_procs p s i :
  keeps_procs p (_parse_type_declaration p s i).
Proof. unfold _parse_type_declaration. keeps_procs_tac. Qed.

Lemma _parse_define_procs p s i : keeps_procs p (_parse_define p s i).
Proof. unfold _parse_define. keeps_procs_tac. Qed.

Lemma _parse_def_reference_procs p s i :
  keeps_procs p (_parse_def_reference p s i).
Proof. unfold _parse_def_reference. keeps_procs_tac. Qed.

Lemma _parse_ref_reference_procs p s i :
  keeps_procs p (_parse_ref_reference p s i).
Proof.
  unfold _parse_ref_reference. cbv zeta.
  repeat case_match; repeat split; simpl; auto;
    intros P; apply is_Some_insert_mono.
Qed.

Lemma _parse_table_declaration_procs p s i :
  keeps_procs p (parser_after (_parse_table_declaration p s i)).
Proof.
  destruct (_parse_table_declaration_cases p s i)
    as [[e ->] | [-> | (n & tb & -> & _)]]; repeat split; auto.
Qed.

Lemma place_item_procs p n item : keeps_procs p (place_item p n item).
Proof.
  unfold place_item. cbv zeta.
  repeat case_match; repeat split; simpl; auto;
    intros P; apply is_Some_insert_mono.
Qed.

Lemma _parse_item_declaration_procs p s i :
  keeps_procs p (parser_after (_parse_item_declaration p s i)).
Proof.
  destruct (_parse_item_declaration_cases p s i)
    as [-> | [(m & size & Hm & ->) | ->]].
  - repeat split; auto.
  - apply place_item_procs.
  - repeat split; auto.
Qed.

Lemma _handle_begin_proc p i : ProcInv p -> ProcInv (_handle_begin p i).
Proof.
  intros [H1 H2]. unfold _handle_begin. cbv zeta.
  repeat case_match; split; simpl; auto;
    try (intros; now apply truthy_is_Some).
  all: intros P HP; destruct (H1 P HP) as [Hne Hs]; split; [assumption|];
    now apply is_Some_insert_mono.
Qed.

Lemma _handle_end_proc p i : ProcInv p -> ProcInv (_handle_end p i).
Proof.
  intros [H1 H2]. unfold _handle_end. cbv zeta.
  repeat case_match; split; simpl; auto; intros; congruence.
Qed.

Lemma _parse_proc_declaration_proc p s i :
  ProcInv p -> ProcInv (_parse_proc_declaration p s i).
Proof.
  intros [H1 H2]. unfold _parse_proc_declaration. cbv zeta.
  destruct (match_ PROC_RE _) as [m|] eqn:Hm; [|now split].
  destruct (PROC_RE_name _ _ Hm) as (n & Hn & Hid).
  split; simpl.
  - intros P [= <-]. unfold group_or_empty. rewrite Hn. simpl.
    split; [now apply is_ident_nonempty|].
    rewrite lookup_insert_eq. eauto.
  - eauto.
Qed.

Lemma _parse_statement_proc p s i :
  ProcInv p -> ProcInv (parser_after (_parse_statement p s i)).
Proof.
  intros H. unfold _parse_statement.
  repeat case_match; simpl;
    first [ assumption
          | now apply _handle_begin_proc
          | now apply _handle_end_proc
          | now apply _parse_proc_declaration_proc
          | eapply keeps_procs_inv; [|exact H];
            first [ apply _parse_start_procs
                  | apply _parse_compool_start_procs
                  | apply _parse_item_declaration_procs
                  | apply _parse_table_declaration_procs
                  | apply _parse_type_declaration_procs
                  | apply _parse_define_procs
                  | apply _parse_def_reference_procs
                  | apply _parse_ref_reference_procs ] ].
Qed.

(** Every state of the loop of [parse] has the procedure invariant. *)
Lemma parse_loop_proc (self : JovialSemanticParser) (code buf : str)
    (i : nat) (lines : list str) :
  ProcInv (parser_after (parse_loop (reset self code) buf i lines)).
Proof.
  apply (parse_loop_invariant ProcInv).
  - intros p j H. exact H.
  - apply _parse_statement_proc.
  - split; simpl; discriminate.
Qed.

End ProcContext.

(** X3: in any state that the loop of [parse] reaches inside a procedure
    body and outside a table body, a recognised ITEM declaration whose
    size, if any, has no more digits than [int] converts is stored
    in the [local_items] of the current procedure under its name and in the
    [items] of the model under the same name, with the same value, and the
    tables of the model are left as they were. *)
Theorem proc_item_in_local_items (self0 : JovialSemanticParser)
    (code : str) (earlier : list str) (self : JovialSemanticParser)
    (statement : str) (i : nat) (m : Re.Match) :
  parse_loop (reset self0 code) [] 0 earlier = Done self ->
  Parser.in_proc_body self = true ->
  Parser.in_table_body self = false ->
  Re.match_ ITEM_RE (Py.strip (Py.rstrip_char ";" statement)) = Some m ->
  size_within_limit m = true ->
  exists P self' pr it,
    Parser.current_proc self = Some P
    /\ _parse_item_declaration (Parser.set_current_line_num i self)
         statement i = Done self'
    /\ Model.procs (Parser.model self') !! P = Some pr
    /\ Proc.local_items pr !! Re.group_or_empty m 1 = Some it
    /\ Model.items (Parser.model self') !! Re.group_or_empty m 1 = Some it
    /\ Item.name it = Re.group_or_empty m 1
    /\ Model.tables (Parser.model self') = Model.tables (Parser.model self).
Proof.
  intros Hloop Hb Htb Hm Hsz.
  pose proof (ProcContext.parse_loop_proc self0 code [] 0 earlier) as Hinv.
  rewrite Hloop in Hinv. simpl in Hinv. destruct Hinv as [H1 H2].
  destruct (H2 Hb) as [P HP]. destruct (H1 P HP) as [Hne [pr Hpr]].
  destruct (ItemFacts._parse_item_declaration_match
              (Parser.set_current_line_num i self) statement i m Hm Hsz)
    as [size Hd].
  set (item := item_of_match (Parser.set_current_line_num i self)
                 statement i m size) in *.
  exists P, (place_item (Parser.set_current_line_num i self)
               (Re.group_or_empty m 1) item),
         (Proc.set_local_item (Re.group_or_empty m 1) item pr), item.
  split; [exact HP|]. split; [exact Hd|].
  assert (Hplace :
    place_item (Parser.set_current_line_num i self)
      (Re.group_or_empty m 1) item
    = Parser.set_model
        (Model.add_item
           (Model.set_procs
              (<[P := Proc.set_local_item (Re.group_or_empty m 1) item pr]>
                 (Model.procs (Parser.model self)))
              (Parser.model self)) item)
        (Parser.set_current_line_num i self)).
  { unfold place_item. simpl. rewrite Htb, andb_false_r, HP, Hb. simpl.
    destruct P as [|a P]; [congruence|]. simpl.
    unfold Model.get_proc. rewrite Hpr. reflexivity. }
  rewrite Hplace. simpl.
  split; [apply lookup_insert_eq|]. split; [apply lookup_insert_eq|].
  split; [apply (ItemFacts.add_item_lookup _ item)|].
  split; reflexivity.
Qed.

(** [proc_item_in_local_items] after the lines [PROC UPDATE (A : B);] and
    [BEGIN], at the statement [ITEM A F 32;] of line 2. *)
Lemma proc_item_in_local_items_witness :
  exists self self' pr it,
    parse_loop (reset Parser.init [])
      [] 0 [L "PROC UPDATE (A : B);"; L "BEGIN"] = Done self
    /\ _parse_item_declaration (Parser.set_current_line_num 2 self)
         (L "ITEM A F 32;") 2 = Done self'
    /\ Model.procs (Parser.model self') !! L "UPDATE" = Some pr
    /\ Proc.local_items pr !! L "A" = Some it
    /\ Model.items (Parser.model self') !! L "A" = Some it.
Proof.
  destruct (parse_loop (reset Parser.init [])
              [] 0 [L "PROC UPDATE (A : B);"; L "BEGIN"])
    as [self|e p] eqn:Hloop; [|vm_compute in Hloop; discriminate Hloop].
  destruct (Re.match_ ITEM_RE
              (Py.strip (Py.rstrip_char ";" (L "ITEM A F 32;"))))
    as [m|] eqn:Hm; [|vm_compute in Hm; discriminate Hm].
  assert (Hb : Parser.in_proc_body self = true
               /\ Parser.in_table_body self = false).
  { vm_compute in Hloop. injection Hloop as <-. split; reflexivity. }
  destruct Hb as [Hb Htb].
  assert (Hsz : size_within_limit m = true).
  { vm_compute in Hm. injection Hm as <-. reflexivity. }
  destruct (proc_item_in_local_items Parser.init [] _ self
              (L "ITEM A F 32;") 2 m Hloop Hb Htb Hm Hsz)
    as (P & self' & pr & it & HP & Hd & Hpr & Hl & Hi & _ & _).
  assert (P = L "UPDATE") as ->.
  { vm_compute in Hloop. injection Hloop as <-.
    vm_compute in HP. now injection HP as <-. }
  vm_compute in Hm. injection Hm as <-.
  exists self, self', pr, it. repeat split; assumption.
Defined.

(** X4: inside a table body the table takes the item: in any state that the
    loop of [parse] reaches with [in_table_body] set, an ITEM declaration
    leaves the procedures of the model as they were, also when the parser
    is inside a procedure body, and whether the declaration returns or
    raises; it returns when the statement is recognised and its size, if
    any, has no more digits than [int] converts. *)
Theorem table_body_item_not_in_proc (self0 : JovialSemanticParser)
    (code : str) (earlier : list str) (self : JovialSemanticParser)
    (statement : str) (i : nat) :
  parse_loop (reset self0 code) [] 0 earlier = Done self ->
  Parser.in_table_body self = true ->
  Model.procs
    (Parser.model
       (parser_after
          (_parse_item_declaration (Parser.set_current_line_num i self)
             statement i)))
  = Model.procs (Parser.model self)
  /\ forall m,
       Re.match_ ITEM_RE (Py.strip (Py.rstrip_char ";" statement)) = Some m ->
       size_within_limit m = true ->
       exists self',
         _parse_item_declaration (Parser.set_current_line_num i self)
           statement i = Done self'.
Proof.
  intros Hloop Hb.
  pose proof (TableContext.parse_loop_table self0 code [] 0 earlier) as Hinv.
  rewrite Hloop in Hinv. simpl in Hinv. destruct Hinv as [H1 H2].
  destruct (H2 Hb) as [T HT]. destruct (H1 T HT) as [Hne _].
  split.
  - destruct (ItemFacts._parse_item_declaration_cases
                (Parser.set_current_line_num i self) statement i)
      as [-> | [(m & size & Hm & ->) | ->]]; [reflexivity | | reflexivity].
    unfold place_item. simpl. rewrite HT, Hb.
    destruct T as [|a T]; [congruence|]. simpl.
    destruct (Model.get_table _ _); reflexivity.
  - intros m Hm Hsz.
    destruct (ItemFacts._parse_item_declaration_match
                (Parser.set_current_line_num i self) statement i m Hm Hsz)
      as [size ->]. eauto.
Qed.

(** [table_body_item_not_in_proc] after [PROC P;], [TABLE T (3);] and
    [BEGIN], which enters both bodies. *)
Lemma table_body_item_not_in_proc_witness :
  exists self self',
    parse_loop (reset Parser.init [])
      [] 0 [L "PROC P;"; L "TABLE T (3);"; L "BEGIN"] = Done self
    /\ Parser.in_proc_body self = true
    /\ _parse_item_declaration (Parser.set_current_line_num 3 self)
         (L "ITEM X S 16;") 3 = Done self'
    /\ Model.procs (Parser.model self') = Model.procs (Parser.model self).
Proof.
  destruct (parse_loop (reset Parser.init [])
              [] 0 [L "PROC P;"; L "TABLE T (3);"; L "BEGIN"])
    as [self|e p] eqn:Hloop; [|vm_compute in Hloop; discriminate Hloop].
  assert (Hb : Parser.in_table_body self = true
               /\ Parser.in_proc_body self = true).
  { vm_compute in Hloop. injection Hloop as <-. split; reflexivity. }
  destruct Hb as [Hb Hpb].
  destruct (Re.match_ ITEM_RE
              (Py.strip (Py.rstrip_char ";" (L "ITEM X S 16;"))))
    as [m|] eqn:Hm; [|vm_compute in Hm; discriminate Hm].
  assert (Hsz : size_within_limit m = true).
  { vm_compute in Hm. injection Hm as <-. reflexivity. }
  destruct (table_body_item_not_in_proc Parser.init [] _ self
              (L "ITEM X S 16;") 3 Hloop Hb) as [Hp Hret].
  destruct (Hret m Hm Hsz) as [self' Hd].
  rewrite Hd in Hp. simpl in Hp.
  exists self, self'. repeat split; assumption.
Defined.

(** X5: outside every body a recognised ITEM declaration whose size, if
    any, has no more digits than [int] converts goes to [items] only: the
    tables and the procedures of the model are left as they were; and the
    item still records the current table as its [parent_table], so that
    after a TABLE header with no BEGIN the item names a parent table whose
    entries do not hold it. *)
Theorem item_outside_bodies (self : JovialSemanticParser) (statement : str)
    (i : nat) (m : Re.Match) :
  Parser.in_table_body self = false ->
  Parser.in_proc_body self = false ->
  Re.match_ ITEM_RE (Py.strip (Py.rstrip_char ";" statement)) = Some m ->
  size_within_limit m = true ->
  exists self' it,
    _parse_item_declaration self statement i = Done self'
    /\ Model.items (Parser.model self') !! Re.group_or_empty m 1 = Some it
    /\ Item.parent_table it = Parser.current_table self
    /\ Model.tables (Parser.model self') = Model.tables (Parser.model self)
    /\ Model.procs (Parser.model self') = Model.procs (Parser.model self).
Proof.
  intros Htb Hpb Hm Hsz.
  destruct (ItemFacts._parse_item_declaration_match self statement i m Hm Hsz)
    as [size ->].
  do 2 eexists. split; [reflexivity|].
  split; [apply (ItemFacts.place_item_lookup self
                   (item_of_match self statement i m size))|].
  split; [reflexivity|].
  unfold place_item. rewrite Htb, Hpb, !andb_false_r. split; reflexivity.
Qed.

(** [item_outside_bodies] after the header [TABLE T (3);] alone: the item
    [X] has the parent [T] and the entries of [T] are empty. *)
Lemma item_outside_bodies_witness :
  exists self self' it tb,
    parse_loop (reset Parser.init []) [] 0 [L "TABLE T (3);"] = Done self
    /\ _parse_item_declaration self (L "ITEM X S 16;") 1 = Done self'
    /\ Model.items (Parser.model self') !! L "X" = Some it
    /\ Item.parent_table it = Some (L "T")
    /\ Model.tables (Parser.model self') !! L "T" = Some tb
    /\ Table.entries tb = ∅.
Proof.
  destruct (parse_loop (reset Parser.init []) [] 0 [L "TABLE T (3);"])
    as [self|e p] eqn:Hloop; [|vm_compute in Hloop; discriminate Hloop].
  destruct (Re.match_ ITEM_RE
              (Py.strip (Py.rstrip_char ";" (L "ITEM X S 16;"))))
    as [m|] eqn:Hm; [|vm_compute in Hm; discriminate Hm].
  assert (Hb : Parser.in_table_body self = false
               /\ Parser.in_proc_body self = false).
  { vm_compute in Hloop. injection Hloop as <-. split; reflexivity. }
  destruct Hb as [Htb Hpb].
  assert (Hsz : size_within_limit m = true).
  { vm_compute in Hm. injection Hm as <-. reflexivity. }
  destruct (item_outside_bodies self (L "ITEM X S 16;") 1 m Htb Hpb Hm Hsz)
    as (self' & it & Hd & Hi & Hp & Ht & _).
  vm_compute in Hm. injection Hm as <-.
  vm_compute in Hloop. injection Hloop as <-.
  eexists _, self', it, _. split; [reflexivity|].
  split; [exact Hd|]. split; [exact Hi|]. split; [exact Hp|].
  rewrite Ht. split; vm_compute; reflexivity.
Defined.

(** ** The life of a table *)

Module TableFacts.
Import Re ReSpec ReFacts PatternFacts ItemFacts Invariants.

(** The dimensions loop appends one pair per piece, in order. *)
Lemma parse_dims_pairs self parts acc dims :
  parse_dims self parts acc = Done dims ->
  exists ds, dims = acc ++ ds
             /\ Forall2 (fun part d => parse_dim self part = Done d) parts ds.
Proof.
  revert acc. induction parts as [|part parts IH]; intros acc; simpl.
  - intros [= <-]. exists []. split; [now rewrite app_nil_r | constructor].
  - destruct (parse_dim self part) as [d|e p] eqn:Hd; simpl; [|discriminate].
    intros H. apply IH in H as (ds & -> & Hds).
    exists (d :: ds). split; [now rewrite <- app_assoc | now constructor].
Qed.

(** When [_parse_table_declaration] matches and returns, it has recorded a
    new table, with no entry and no end line, and made it current. *)
Lemma _parse_table_declaration_match self statement line_num m self1 :
  match_ TABLE_RE (Py.strip (Py.rstrip_char ";" statement)) = Some m ->
  _parse_table_declaration self statement line_num = Done self1 ->
  exists tb,
    self1 = Parser.set_current_table (Some (group_or_empty m 1))
              (Parser.set_model (Model.add_table (Parser.model self) tb) self)
    /\ Table.name tb = group_or_empty m 1
    /\ Table.entries tb = ∅
    /\ Table.line_start tb = line_num
    /\ Table.line_end tb = 0%nat
    /\ Forall2 (fun part d => parse_dim self part = Done d)
         (Py.split "," (group_or_empty m 2)) (Table.dimensions tb).
Proof.
  intros Hm. unfold _parse_table_declaration. rewrite Hm.
  destruct (parse_dims self _ []) as [dims|e p] eqn:Hd; simpl; [|discriminate].
  apply parse_dims_pairs in Hd as (ds & -> & Hds). simpl in *.
  destruct (search W_RE _) as [w|]; simpl.
  - unfold int_or_raise. destruct (Py.int _); simpl; [|discriminate].
    intros [= <-]. eexists. split; [reflexivity|]. repeat split. exact Hds.
  - intros [= <-]. eexists. split; [reflexivity|]. repeat split. exact Hds.
Qed.

Lemma _parse_statement_begin self b j :
  Py.upper b = L "BEGIN" ->
  _parse_statement self b j = Done (_handle_begin self j).
Proof. intros Hb. unfold _parse_statement. now rewrite Hb. Qed.

Lemma _parse_statement_end self e k :
  Py.upper e = L "END" ->
  _parse_statement self e k = Done (_handle_end self k).
Proof. intros He. unfold _parse_statement. now rewrite He. Qed.

(** BEGIN with a current table enters its body and keeps the tables. *)
Lemma _handle_begin_enters self j :
  truthy (Parser.current_table self) = true ->
  Parser.in_table_body (_handle_begin self j) = true
  /\ Parser.current_table (_handle_begin self j) = Parser.current_table self
  /\ Model.tables (Parser.model (_handle_begin self j))
     = Model.tables (Parser.model self).
Proof.
  intros Ht. unfold _handle_begin. rewrite Ht. cbv zeta.
  repeat case_match; repeat split.
Qed.

(** END inside a table body closes the table and nothing else. *)
Lemma _handle_end_closes self k T tb :
  Parser.in_table_body self = true ->
  Parser.current_table self = Some T ->
  T <> [] ->
  Model.tables (Parser.model self) !! T = Some tb ->
  Model.tables (Parser.model (_handle_end self k))
  = <[T := Table.set_line_end k tb]> (Model.tables (Parser.model self))
  /\ Parser.current_table (_handle_end self k) = None
  /\ Parser.in_table_body (_handle_end self k) = false
  /\ Model.procs (Parser.model (_handle_end self k))
     = Model.procs (Parser.model self)
  /\ Parser.current_proc (_handle_end self k) = Parser.current_proc self
  /\ Parser.in_proc_body (_handle_end self k) = Parser.in_proc_body self.
Proof.
  intros Hb HT Hne Htb. unfold _handle_end. rewrite Hb. cbv zeta. simpl.
  rewrite HT. destruct T as [|a T]; [congruence|]. simpl.
  unfold Model.get_table. rewrite Htb. repeat split.
Qed.

End TableFacts.

(** X6: a TABLE header dispatched at line [i], then BEGIN at line [j], then
    END at line [k] (in any letter case), leave the table in the model with
    [line_start = i], [line_end = k] and the entries it had, here none; in
    between the parser is inside the table body, and after END there is no
    current table any more. *)
Theorem table_header_begin_end (self self1 : JovialSemanticParser)
    (statement b e : str) (i j k : nat) (m : Re.Match) :
  Re.match_ TABLE_RE (Py.strip (Py.rstrip_char ";" statement)) = Some m ->
  _parse_table_declaration self statement i = Done self1 ->
  Py.upper b = L "BEGIN" ->
  Py.upper e = L "END" ->
  exists self2 self3 tb,
    _parse_statement self1 b j = Done self2
    /\ Parser.in_table_body self2 = true
    /\ _parse_statement self2 e k = Done self3
    /\ Model.tables (Parser.model self3) !! Re.group_or_empty m 1 = Some tb
    /\ Table.line_start tb = i
    /\ Table.line_end tb = k
    /\ Table.entries tb = ∅
    /\ Parser.current_table self3 = None
    /\ Parser.in_table_body self3 = false.
Proof.
  intros Hm Hd Hb He.
  destruct (ItemFacts.TABLE_RE_name _ _ Hm) as (n & Hn & Hid).
  apply PatternFacts.is_ident_nonempty in Hid.
  destruct (TableFacts._parse_table_declaration_match _ _ _ _ _ Hm Hd)
    as (tb & -> & Hname & Hent & Hls & Hle & _).
  assert (Hg : Re.group_or_empty m 1 = n)
    by (unfold Re.group_or_empty; now rewrite Hn).
  rewrite Hg in *. clear Hg.
  set (self1 := Parser.set_current_table (Some n)
                  (Parser.set_model
                     (Model.add_table (Parser.model self) tb) self)) in *.
  assert (Htr : truthy (Parser.current_table self1) = true)
    by (destruct n; [congruence | reflexivity]).
  destruct (TableFacts._handle_begin_enters self1 j Htr) as (Hin & Hct & Htbs).
  assert (Hlk : Model.tables (Parser.model (_handle_begin self1 j)) !! n
                = Some tb).
  { rewrite Htbs. simpl. rewrite Hname. apply lookup_insert_eq. }
  assert (Hct' : Parser.current_table (_handle_begin self1 j) = Some n)
    by (now rewrite Hct).
  destruct (TableFacts._handle_end_closes (_handle_begin self1 j) k n tb
              Hin Hct' Hid Hlk) as (Htb3 & Hc3 & Hb3 & _).
  exists (_handle_begin self1 j), (_handle_end (_handle_begin self1 j) k),
         (Table.set_line_end k tb).
  split; [now apply TableFacts._parse_statement_begin|].
  split; [exact Hin|].
  split; [now apply TableFacts._parse_statement_end|].
  split; [rewrite Htb3; apply lookup_insert_eq|].
  repeat split; assumption.
Qed.

(** [table_header_begin_end] at [TABLE WAYPOINTS (1:100);], [begin], [END]
    on the lines 4, 5 and 9. *)
Lemma table_header_begin_end_witness :
  exists self1 self2 self3 tb,
    _parse_table_declaration Parser.init (L "TABLE WAYPOINTS (1:100);") 4
      = Done self1
    /\ _parse_statement self1 (L "begin") 5 = Done self2
    /\ _parse_statement self2 (L "END") 9 = Done self3
    /\ Model.tables (Parser.model self3) !! L "WAYPOINTS" = Some tb
    /\ Table.line_start tb = 4%nat
    /\ Table.line_end tb = 9%nat
    /\ Parser.current_table self3 = None.
Proof.
  destruct (Re.match_ TABLE_RE
              (Py.strip (Py.rstrip_char ";" (L "TABLE WAYPOINTS (1:100);"))))
    as [m|] eqn:Hm; [|vm_compute in Hm; discriminate Hm].
  destruct (_parse_table_declaration Parser.init
              (L "TABLE WAYPOINTS (1:100);") 4)
    as [self1|e p] eqn:Hd; [|vm_compute in Hd; discriminate Hd].
  destruct (table_header_begin_end Parser.init self1
              (L "TABLE WAYPOINTS (1:100);") (L "begin") (L "END") 4 5 9 m
              Hm Hd eq_refl eq_refl)
    as (self2 & self3 & tb & H2 & _ & H3 & Ht & Hs & He & _ & Hc & _).
  vm_compute in Hm. injection Hm as <-.
  exists self1, self2, self3, tb. repeat split; assumption.
Defined.

(** X7: for every recognised TABLE declaration that returns, the table
    recorded under the name has one pair of bounds per comma-separated piece
    of the text in parentheses, in source order, each pair being what the
    loop body computes for its piece; and the table becomes the current
    table. *)
Theorem table_dimensions_per_piece (self self1 : JovialSemanticParser)
    (statement : str) (i : nat) (m : Re.Match) :
  Re.match_ TABLE_RE (Py.strip (Py.rstrip_char ";" statement)) = Some m ->
  _parse_table_declaration self statement i = Done self1 ->
  exists tb,
    Model.tables (Parser.model self1) !! Re.group_or_empty m 1 = Some tb
    /\ Parser.current_table self1 = Some (Re.group_or_empty m 1)
    /\ length (Table.dimensions tb)
       = length (Py.split "," (Re.group_or_empty m 2))
    /\ Forall2 (fun part d => parse_dim self part = Done d)
         (Py.split "," (Re.group_or_empty m 2)) (Table.dimensions tb).
Proof.
  intros Hm Hd.
  destruct (TableFacts._parse_table_declaration_match _ _ _ _ _ Hm Hd)
    as (tb & -> & Hname & _ & _ & _ & Hds).
  exists tb. split; [simpl; rewrite <- Hname; apply lookup_insert_eq|].
  split; [reflexivity|].
  split; [symmetry; eapply Forall2_length; exact Hds | exact Hds].
Qed.

(** [table_dimensions_per_piece] at [TABLE GRID (1:10, 5, X);]. *)
Lemma table_dimensions_per_piece_witness :
  exists self1 tb,
    _parse_table_declaration Parser.init (L "TABLE GRID (1:10, 5, X);") 0
      = Done self1
    /\ Model.tables (Parser.model self1) !! L "GRID" = Some tb
    /\ length (Table.dimensions tb) = 3%nat.
Proof.
  destruct (Re.match_ TABLE_RE
              (Py.strip (Py.rstrip_char ";" (L "TABLE GRID (1:10, 5, X);"))))
    as [m|] eqn:Hm; [|vm_compute in Hm; discriminate Hm].
  destruct (_parse_table_declaration Parser.init
              (L "TABLE GRID (1:10, 5, X);") 0)
    as [self1|e p] eqn:Hd; [|vm_compute in Hd; discriminate Hd].
  destruct (table_dimensions_per_piece Parser.init self1
              (L "TABLE GRID (1:10, 5, X);") 0 m Hm Hd)
    as (tb & Ht & _ & Hlen & _).
  vm_compute in Hm. injection Hm as <-.
  exists self1, tb. split; [reflexivity|]. split; [exact Ht|].
  rewrite Hlen. reflexivity.
Defined.

(** ** The bounds of a dimension *)

Module BoundFacts.

Lemma lstrip_char_digits (d : str) :
  Py.isdigit d = true -> Py.lstrip_char "-" d = d.
Proof.
  intros H. destruct d as [|a d]; [discriminate|].
  assert (Ha : Py.isdigit_char a = true).
  { apply PyFacts.isdigit_forall in H as [_ H]. now inversion H. }
  apply PyFacts.digit_not_sign in Ha as [Hm _].
  cbn [Py.lstrip_char].
  destruct (Ascii.eqb a "-"%char) eqn:E; [|reflexivity].
  apply Ascii.eqb_eq in E. congruence.
Qed.

Lemma lstrip_char_minus (d : str) :
  Py.lstrip_char "-" ("-"%char :: d) = Py.lstrip_char "-" d.
Proof. reflexivity. Qed.

Lemma isdigit_minus (d : str) : Py.isdigit ("-"%char :: d) = false.
Proof. reflexivity. Qed.

End BoundFacts.

(** X8: the bound of a [lower:upper] dimension, by the form of its stripped
    text [s]: a run of digits gives its value; one minus sign and digits
    give the negated value; in both cases [int] raises [ValueError] when the
    digits are more than [int_max_str_digits]; a text that after its leading
    minus signs is not a run of digits gives 0; and two or more minus signs
    followed by digits raise [ValueError].  A raise leaves the parser
    untouched. *)
Theorem parse_bound_cases (self : JovialSemanticParser) (part : str) :
  (Py.isdigit (Py.strip part) = true ->
   parse_bound self part
   = if Py.within_limit (Py.strip part)
     then Done (Py.digits_value (Py.strip part))
     else Raised ValueError self)
  /\ (forall d, Py.strip part = "-"%char :: d -> Py.isdigit d = true ->
      parse_bound self part
      = if Py.within_limit d
        then Done (- Py.digits_value d)%Z
        else Raised ValueError self)
  /\ (Py.isdigit (Py.lstrip_char "-" (Py.strip part)) = false ->
      parse_bound self part = Done 0%Z)
  /\ (forall d, Py.strip part = "-"%char :: "-"%char :: d ->
      Py.isdigit (Py.lstrip_char "-" d) = true ->
      parse_bound self part = Raised ValueError self).
Proof.
  unfold parse_bound, int_or_raise. repeat split.
  - intros H. rewrite (BoundFacts.lstrip_char_digits _ H), H.
    rewrite (PyFacts.int_digits _ H). now destruct (Py.within_limit _).
  - intros d -> H. rewrite BoundFacts.lstrip_char_minus.
    rewrite (BoundFacts.lstrip_char_digits _ H), H.
    unfold Py.int. rewrite H. now destruct (Py.within_limit d).
  - intros ->. reflexivity.
  - intros d -> H. rewrite !BoundFacts.lstrip_char_minus, H.
    unfold Py.int. now rewrite BoundFacts.isdigit_minus.
Qed.

(** [parse_bound_cases] at the bounds [ 12 ], [-5], [N] and [--5]. *)
Lemma parse_bound_cases_witness :
  parse_bound Parser.init (L " 12 ") = Done 12%Z
  /\ parse_bound Parser.init (L "-5") = Done (-5)%Z
  /\ parse_bound Parser.init (L "N") = Done 0%Z
  /\ parse_bound Parser.init (L "--5") = Raised ValueError Parser.init.
Proof.
  destruct (parse_bound_cases Parser.init (L " 12 ")) as (H1 & _).
  destruct (parse_bound_cases Parser.init (L "-5")) as (_ & H2 & _).
  destruct (parse_bound_cases Parser.init (L "N")) as (_ & _ & H3 & _).
  destruct (parse_bound_cases Parser.init (L "--5")) as (_ & _ & _ & H4).
  split; [apply H1; reflexivity|].
  split; [apply (H2 (L "5")); reflexivity|].
  split; [apply H3; reflexivity|].
  apply (H4 (L "5")); reflexivity.
Defined.

(** ** Where an exception can come from *)

(** X9: a statement that raises is an ITEM declaration whose size has more
    digits than [int] converts, or a TABLE declaration; the exception is
    [ValueError], and the parser is left exactly as it was before the
    statement: a failing statement makes no partial update. *)
Theorem statement_raises_only_in_item_or_table
    (self p : JovialSemanticParser) (statement : str) (i : nat) (e : Exn) :
  _parse_statement self statement i = Raised e p ->
  e = ValueError
  /\ p = self
  /\ ((Py.startswith (Py.upper statement) (L "ITEM") = true
       /\ exists m,
            Re.match_ ITEM_RE (Py.strip (Py.rstrip_char ";" statement))
            = Some m
            /\ size_within_limit m = false)
      \/ Py.startswith (Py.upper statement) (L "TABLE") = true).
Proof.
  unfold _parse_statement.
  repeat case_match; try discriminate.
  - destruct (Re.match_ ITEM_RE (Py.strip (Py.rstrip_char ";" statement)))
      as [m|] eqn:Hm.
    + destruct (size_within_limit m) eqn:Hsz.
      * destruct (ItemFacts._parse_item_declaration_match self statement i
                    m Hm Hsz) as [size ->]. discriminate.
      * rewrite (ItemFacts._parse_item_declaration_raises self statement i
                   m Hm Hsz).
        intros [= <- <-]. split; [reflexivity|]. split; [reflexivity|].
        left. split; [reflexivity|]. now exists m.
    + unfold _parse_item_declaration. rewrite Hm. discriminate.
  - destruct (Invariants._parse_table_declaration_cases self statement i)
      as [[e' ->] | [-> | (n & tb & -> & _)]]; try discriminate.
    intros [= <- <-]. destruct e'. repeat split. now right.
Qed.

(** [statement_raises_only_in_item_or_table] at [TABLE T (--5:10);]. *)
Lemma statement_raises_only_in_item_or_table_witness :
  exists e p,
    _parse_statement Parser.init (L "TABLE T (--5:10);") 0 = Raised e p
    /\ e = ValueError /\ p = Parser.init.
Proof.
  destruct (_parse_statement Parser.init (L "TABLE T (--5:10);") 0)
    as [p|e p] eqn:H; [vm_compute in H; discriminate H|].
  destruct (statement_raises_only_in_item_or_table _ _ _ _ _ H)
    as (He & Hp & _).
  exists e, p. repeat split; assumption.
Defined.

(** ** Lookups after a parse *)

(** X10: in the model that [parse] leaves (returning or raising), the
    scoped lookup of [get_item] never hits: for every name, [get_item]
    returns exactly the entry of [items] under that name, or [None]. *)
Theorem get_item_is_items_lookup (self : JovialSemanticParser)
    (code name : str) :
  let mdl := Parser.model (parser_after (parse self code)) in
  Model.get_item mdl name = Model.items mdl !! name.
Proof.
  assert (H : ScopeInv (parser_after (parse self code))).
  { unfold parse.
    apply (Invariants.parse_loop_invariant ScopeInv).
    - intros p i H. exact H.
    - apply Invariants._parse_statement_scope.
    - split; [reflexivity|]. intros k [v Hv]. simpl in Hv.
      rewrite lookup_empty in Hv. discriminate Hv. }
  destruct H as [Hs Hk]. cbv zeta. unfold Model.get_item. rewrite Hs.
  destruct (Model.items _ !! (L "GLOBAL" ++ L "." ++ name)) as [it|] eqn:E.
  - assert (Hd : no_dot (L "GLOBAL" ++ L "." ++ name)) by (apply Hk; eauto).
    unfold no_dot in Hd. rewrite !PyFacts.has_char_app in Hd.
    discriminate Hd.
  - now destruct (Model.items _ !! name).
Qed.

(** X11: [add_item] then [get_item] under the item's name gives the item
    back, in any scope, unless the scope is GLOBAL and [items] already holds
    the key [GLOBAL.name]; in that case [get_item] returns the entry stored
    under that key instead. *)
Theorem add_item_get_item (mdl : JovialSemanticModel)
    (item : ItemDefinition) :
  ((Model.current_scope mdl = L "GLOBAL" ->
    Model.items mdl !! (L "GLOBAL" ++ L "." ++ Item.name item) = None) ->
   Model.get_item (Model.add_item mdl item) (Item.name item) = Some item)
  /\ (forall other,
        Model.current_scope mdl = L "GLOBAL" ->
        Model.items mdl !! (L "GLOBAL" ++ L "." ++ Item.name item)
          = Some other ->
        Model.get_item (Model.add_item mdl item) (Item.name item)
          = Some other).
Proof.
  assert (Hne : L "GLOBAL" ++ L "." ++ Item.name item <> Item.name item).
  { intros E. apply (f_equal length) in E. rewrite !length_app in E.
    simpl in E. lia. }
  assert (Hadd : Model.current_scope (Model.add_item mdl item)
                 = Model.current_scope mdl) by reflexivity.
  unfold Model.get_item. rewrite Hadd.
  destruct (Py.eqb (Model.current_scope mdl) (L "GLOBAL")) eqn:Hs.
  - apply PyFacts.eqb_eq in Hs.
    destruct (Invariants.add_item_global mdl item Hs) as [Hi _].
    rewrite Hi, Hs. split.
    + intros H. rewrite lookup_insert_ne by congruence.
      rewrite (H eq_refl). now rewrite lookup_insert_eq.
    + intros other _ H. rewrite lookup_insert_ne by congruence.
      now rewrite H.
  - split.
    + intros _. unfold Model.add_item. rewrite Hs.
      cbn [negb Model.items Model.set_items Model.current_scope].
      now rewrite lookup_insert_eq.
    + intros other E. rewrite E in Hs. discriminate Hs.
Qed.

(** [add_item_get_item] on the empty model. *)
Lemma add_item_get_item_witness :
  Model.get_item (Model.add_item Model.init (placeholder_item (L "X") 0))
    (L "X") = Some (placeholder_item (L "X") 0).
Proof.
  apply (proj1 (add_item_get_item Model.init (placeholder_item (L "X") 0))).
  intros _. reflexivity.
Defined.

(** ** Completions *)

Module CompletionFacts.
Import PyMore.

Lemma code_inj (a b : ascii) : Py.code a = Py.code b -> a = b.
Proof.
  unfold Py.code. intros H.
  rewrite <- (ascii_nat_embedding a), <- (ascii_nat_embedding b).
  now rewrite H.
Qed.

Lemma compare_eq (s t : str) : compare s t = Eq -> s = t.
Proof.
  revert t. induction s as [|a s IH]; intros [|b t]; simpl;
    try discriminate; [reflexivity|].
  destruct (Nat.compare (Py.code a) (Py.code b)) eqn:E; try discriminate.
  intros H. apply Nat.compare_eq in E. apply code_inj in E.
  subst. f_equal. now apply IH.
Qed.

Lemma compare_gt_lt (s t : str) : compare s t = Gt -> compare t s = Lt.
Proof.
  revert t. induction s as [|a s IH]; intros [|b t]; simpl;
    try discriminate; [reflexivity|].
  rewrite (Nat.compare_antisym (Py.code a) (Py.code b)).
  destruct (Nat.compare (Py.code a) (Py.code b)); simpl;
    [apply IH | discriminate | reflexivity].
Qed.

Lemma compare_lt_trans (s t u : str) :
  compare s t = Lt -> compare t u = Lt -> compare s u = Lt.
Proof.
  revert t u. induction s as [|a s IH]; intros [|b t] [|c u]; simpl;
    try discriminate; try reflexivity.
  destruct (Nat.compare (Py.code a) (Py.code b)) eqn:E1;
    destruct (Nat.compare (Py.code b) (Py.code c)) eqn:E2;
    try discriminate; intros H1 H2.
  - apply Nat.compare_eq in E1, E2. rewrite E1, E2, Nat.compare_refl.
    eapply IH; eassumption.
  - apply Nat.compare_eq in E1. now rewrite E1, E2.
  - apply Nat.compare_eq in E2. now rewrite <- E2, E1.
  - apply Nat.compare_lt_iff in E1, E2.
    assert (E : (Py.code a < Py.code c)%nat) by lia.
    apply Nat.compare_lt_iff in E. now rewrite E.
Qed.

Lemma elem_of_insert_sorted (x z : str) (l : list str) :
  z ∈ insert_sorted x l <-> z = x \/ z ∈ l.
Proof.
  induction l as [|y l IH]; simpl.
  - rewrite list_elem_of_singleton, elem_of_nil. tauto.
  - destruct (compare x y) eqn:E.
    + apply compare_eq in E as ->. rewrite elem_of_cons. tauto.
    + rewrite elem_of_cons. tauto.
    + rewrite !elem_of_cons, IH. tauto.
Qed.

Lemma elem_of_sorted_set (z : str) (l : list str) :
  z ∈ sorted_set l <-> z ∈ l.
Proof.
  induction l as [|x l IH]; simpl; [reflexivity|].
  rewrite elem_of_insert_sorted, IH, elem_of_cons. tauto.
Qed.

Lemma insert_sorted_sorted (x : str) (l : list str) :
  StronglySorted lt l -> StronglySorted lt (insert_sorted x l).
Proof.
  induction 1 as [|y l Hs IH Hy]; simpl.
  - repeat constructor.
  - destruct (compare x y) eqn:E.
    + now constructor.
    + constructor; [now constructor|]. constructor; [exact E|].
      eapply Forall_impl; [exact Hy|]. intros z Hz.
      eapply compare_lt_trans; eassumption.
    + constructor; [exact IH|].
      apply Forall_forall. intros z Hz.
      apply elem_of_insert_sorted in Hz as [->|Hz].
      * now apply compare_gt_lt.
      * rewrite Forall_forall in Hy. now apply Hy.
Qed.

Lemma sorted_set_sorted (l : list str) : StronglySorted lt (sorted_set l).
Proof.
  induction l as [|x l IH]; simpl; [constructor|].
  now apply insert_sorted_sorted.
Qed.

End CompletionFacts.

(** X12: for a line number in range, a text is among the completions
    exactly when it is a keyword that starts with the prefix, or a symbol of
    the model whose upper-cased name starts with the prefix, the prefix
    being the last token before the cursor in upper case; with an empty
    prefix every keyword and every symbol is returned.  For a line number
    out of range the result is empty. *)
Theorem completions_membership (self : JovialSemanticParser)
    (line column : Z) :
  ((0 <= line < Z.of_nat (length (Parser.lines self)))%Z ->
   forall c,
     let prefix :=
       completion_prefix
         (default [] (Parser.lines self !! Z.to_nat line)) column in
     c ∈ get_completions_at_position self line column <->
     (c ∈ KEYWORDS /\ (prefix = [] \/ Py.startswith c prefix = true))
     \/ (c ∈ Model.get_all_symbols (Parser.model self)
         /\ (prefix = [] \/ Py.startswith (Py.upper c) prefix = true)))
  /\ ((line < 0 \/ Z.of_nat (length (Parser.lines self)) <= line)%Z ->
      get_completions_at_position self line column = []).
Proof.
  unfold get_completions_at_position. split.
  - intros [H0 H1] c.
    set (prefix := completion_prefix
                     (default [] (Parser.lines self !! Z.to_nat line))
                     column).
    replace ((line <? 0)%Z || (Z.of_nat (length (Parser.lines self)) <=? line)%Z)
      with false by (symmetry; apply orb_false_iff; split;
                     [apply Z.ltb_ge | apply Z.leb_gt]; lia).
    rewrite CompletionFacts.elem_of_sorted_set. cbn [app].
    rewrite elem_of_app, !list_elem_of_In, !filter_In.
    assert (Hp : forall b, negb (nonempty prefix) || b = true
                           <-> prefix = [] \/ b = true).
    { intros b. destruct prefix; simpl; [tauto|].
      split; [auto | intros [?|?]; [discriminate | assumption]]. }
    rewrite !Hp. reflexivity.
  - intros H.
    replace ((line <? 0)%Z || (Z.of_nat (length (Parser.lines self)) <=? line)%Z)
      with true; [reflexivity|].
    symmetry. apply orb_true_iff.
    destruct H; [left; apply Z.ltb_lt | right; apply Z.leb_le]; lia.
Qed.

(** [completions_membership] on the line [ITEM ALTITUDE S 16;] followed by
    the line [  al]: at the end of the second line the prefix is [AL] and
    [ALTITUDE] is offered. *)
Lemma completions_membership_witness :
  exists p,
    parse Parser.init (text ["ITEM ALTITUDE S 16;"; "  al"]) = Done p
    /\ L "ALTITUDE" ∈ get_completions_at_position p 1 4.
Proof.
  eexists. split; [vm_compute; reflexivity|].
  match goal with
  | |- _ ∈ get_completions_at_position ?p _ _ =>
      apply (proj1 (completions_membership p 1 4))
  end.
  - vm_compute. split; [discriminate | reflexivity].
  - right. split.
    + apply get_all_symbols_spec. left. vm_compute. eauto.
    + right. vm_compute. reflexivity.
Defined.

(** X13: the completions come in strictly ascending order of code points,
    so that no completion is listed twice. *)
Theorem completions_sorted (self : JovialSemanticParser) (line column : Z) :
  StronglySorted PyMore.lt (get_completions_at_position self line column).
Proof.
  unfold get_completions_at_position.
  destruct (_ || _); [constructor|].
  apply CompletionFacts.sorted_set_sorted.
Qed.

(** ** Hover *)

Module HoverFacts.
Import Re ReSpec ReFacts PatternFacts.

(** The character before the text that follows [pre], [prev] being the one
    before [pre]. *)
Definition before (prev : option ascii) (pre : str) : option ascii :=
  match last pre with
  | Some c => Some c
  | None => prev
  end.

(** A word matched at the front of a text is an identifier and a prefix of
    the text, with a word boundary at each of its ends. *)
Lemma match_word_at_sound (prev : option ascii) (s w : str) :
  match_word_at prev s = Some w ->
  is_ident w = true
  /\ at_boundary prev (head s) = true
  /\ exists post, s = w ++ post /\ at_boundary (last w) (head post) = true.
Proof.
  unfold match_word_at.
  destruct (at_boundary prev (head s)) eqn:Hb; [|discriminate].
  destruct (run (Grp 1 ident) WORD_END s ∅) as [[rest c]|] eqn:H;
    [|discriminate].
  intros Hw.
  apply run_sound in H as (w' & rest' & c' & -> & Hm & Hk).
  apply grp_inv in Hm as (c1 & Hm & ->).
  apply ident_inv in Hm as [Hid _].
  unfold WORD_END in Hk. rewrite lookup_insert_eq in Hk.
  destruct (at_boundary (last w') (head rest')) eqn:He; [|discriminate].
  injection Hk as <- <-. rewrite lookup_insert_eq in Hw.
  injection Hw as <-. split; [assumption|]. split; [reflexivity|]. eauto.
Qed.

(** Every match listed by [finditer_words] is an identifier that stands in
    the text at the positions listed, between two word boundaries. *)
Lemma finditer_words_sound (s : str) :
  forall prev pos skip start stop w,
    (start, stop, w) ∈ finditer_words prev pos skip s ->
    is_ident w = true
    /\ stop = (start + length w)%nat
    /\ exists pre post,
         s = pre ++ w ++ post /\ start = (pos + length pre)%nat
         /\ at_boundary (before prev pre) (head (w ++ post)) = true
         /\ at_boundary (last w) (head post) = true.
Proof.
  induction s as [|a s IH]; intros prev pos skip start stop w Hin.
  - simpl in Hin. now apply elem_of_nil in Hin.
  - assert (Htail : forall skip',
              (start, stop, w) ∈ finditer_words (Some a) (S pos) skip' s ->
              is_ident w = true
              /\ stop = (start + length w)%nat
              /\ exists pre post,
                   a :: s = pre ++ w ++ post
                   /\ start = (pos + length pre)%nat
                   /\ at_boundary (before prev pre) (head (w ++ post)) = true
                   /\ at_boundary (last w) (head post) = true).
    { intros skip' H.
      apply IH in H as (Hid & Hstop & pre & post & -> & -> & Hb & He).
      split; [assumption|]. split; [assumption|].
      exists (a :: pre), post. split; [reflexivity|].
      split; [simpl; lia|]. split; [|assumption].
      unfold before in *. rewrite last_cons. now destruct (last pre). }
    cbn [finditer_words] in Hin.
    destruct skip as [|k]; [|now apply Htail in Hin].
    destruct (match_word_at prev (a :: s)) as [w0|] eqn:Hm;
      [|now apply Htail in Hin].
    apply elem_of_cons in Hin as [Heq | Hin]; [|now apply Htail in Hin].
    injection Heq as -> -> ->.
    apply match_word_at_sound in Hm as (Hid & Hb & post & Hpost & He).
    split; [assumption|]. split; [reflexivity|].
    exists [], post. split; [exact Hpost|]. split; [simpl; lia|].
    split; [|assumption]. unfold before. simpl app. now rewrite <- Hpost.
Qed.

End HoverFacts.

(** X14: whenever [get_hover_info] returns a payload, the line number is in
    range and the line holds an identifier (a letter, then letters, digits
    and apostrophes) that stands between two word boundaries and covers or
    touches the column, [start <= column <= end].  The payload belongs to
    that identifier folded to upper case: it describes the item of that
    name; or, when there is no such item, the table of that name, with the
    names of its entries in their order of insertion (the method raises
    when a bound has more digits than a text conversion allows); or, when
    there is
    neither, the procedure of that name; or, when there is none of the
    three, the keyword. *)
Theorem hover_reports_identifier_at_cursor (self : JovialSemanticParser)
    (line column : Z) (info : HoverInfo) :
  get_hover_info self line column = Done (Some info) ->
  (0 <= line < Z.of_nat (length (Parser.lines self)))%Z
  /\ exists pre w post,
       let word := Py.upper w in
       let mdl := Parser.model self in
       Parser.lines self !! Z.to_nat line = Some (pre ++ w ++ post)
       /\ ReSpec.is_ident w = true
       /\ at_boundary (last pre) (head (w ++ post)) = true
       /\ at_boundary (last w) (head post) = true
       /\ (Z.of_nat (length pre) <= column
           <= Z.of_nat (length pre + length w))%Z
       /\ ((exists item,
              Model.get_item mdl word = Some item
              /\ info = HoverItem (Item.name item)
                          (JovialType_value (Item.type item))
                          (Item.size item) (Item.is_constant item)
                          (Item.is_static item) (Item.status_values item)
                          (Item.initial_value item) (Item.line_number item))
           \/ (Model.get_item mdl word = None
               /\ exists table,
                    Model.get_table mdl word = Some table
                    /\ exists dim_str,
                    dimensions_text (Table.dimensions table) = Some dim_str
                    /\ info = HoverTable (Table.name table) dim_str
                                (ODict.keys (Table.entries table))
                                (Table.wordsize table)
                                (Table.line_start table)
                                (Table.line_end table))
           \/ (Model.get_item mdl word = None
               /\ Model.get_table mdl word = None
               /\ exists proc,
                    Model.get_proc mdl word = Some proc
                    /\ info = HoverProc (Proc.name proc)
                                (parameters_text (Proc.parameters proc))
                                (Proc.line_start proc) (Proc.line_end proc))
           \/ (Model.get_item mdl word = None
               /\ Model.get_table mdl word = None
               /\ Model.get_proc mdl word = None
               /\ word ∈ KEYWORDS
               /\ info = HoverKeyword word (_get_keyword_description word))).
Proof.
  unfold get_hover_info.
  destruct ((line <? 0)%Z || _) eqn:Hr; [discriminate|].
  apply orb_false_iff in Hr as [H0 H1].
  apply Z.ltb_ge in H0. apply Z.leb_gt in H1.
  cbv zeta.
  destruct (List.find _ _) as [[[start stop] w]|] eqn:Hf; [|discriminate].
  intros Hinfo. split; [lia|].
  apply find_some in Hf as [Hin Hcol]. simpl in Hcol, Hinfo.
  apply andb_true_iff in Hcol as [Hc0 Hc1].
  apply Z.leb_le in Hc0, Hc1.
  destruct (Parser.lines self !! Z.to_nat line) as [cur|] eqn:Hl;
    [|simpl in Hin; contradiction].
  simpl in Hin. apply list_elem_of_In in Hin.
  apply HoverFacts.finditer_words_sound
    in Hin as (Hid & -> & pre & post & -> & -> & Hb & He).
  exists pre, w, post.
  split; [reflexivity|]. split; [assumption|].
  split; [unfold HoverFacts.before in Hb; now destruct (last pre)|].
  split; [assumption|]. split; [simpl in *; lia|].
  unfold hover_of_word in Hinfo.
  destruct (Model.get_item _ _) as [item|]; [left; exists item; split;
    [reflexivity | now injection Hinfo as <-]|].
  right. destruct (Model.get_table _ _) as [table|].
  { destruct (dimensions_text _) as [dim_str|] eqn:Hdim; [|discriminate].
    left. split; [reflexivity|]. exists table. split; [reflexivity|].
    exists dim_str. split; [exact Hdim | now injection Hinfo as <-]. }
  right. destruct (Model.get_proc _ _) as [proc|]; [left; split;
    [reflexivity|]; split; [reflexivity|]; exists proc; split;
    [reflexivity | now injection Hinfo as <-]|].
  right. destruct (existsb _ KEYWORDS) eqn:Hk; [|discriminate].
  repeat split; try reflexivity; [|now injection Hinfo as <-].
  apply existsb_exists in Hk as (kw & Hkw & Heq).
  apply PyFacts.eqb_eq in Heq as <-. now apply list_elem_of_In.
Qed.

(** [hover_reports_identifier_at_cursor] after the lines
    [TABLE WAYPOINTS (1:100);], [BEGIN], [ITEM LON F 32;], [ITEM LAT F 32;]
    and [END], on the name of the table in line 0, at column 8: the entries
    come as [LON], [LAT]. *)
Lemma hover_reports_identifier_at_cursor_witness :
  exists p info,
    parse Parser.init
      (text ["TABLE WAYPOINTS (1:100);"; "BEGIN"; "ITEM LON F 32;";
             "ITEM LAT F 32;"; "END"]) = Done p
    /\ get_hover_info p 0 8 = Done (Some info)
    /\ exists pre w post,
         Parser.lines p !! 0%nat = Some (pre ++ w ++ post)
         /\ (Z.of_nat (length pre) <= 8 <= Z.of_nat (length pre + length w))%Z
    /\ info = HoverTable (L "WAYPOINTS") (L "1:100") [L "LON"; L "LAT"]
                None 0 4.
Proof.
  destruct (parse Parser.init
              (text ["TABLE WAYPOINTS (1:100);"; "BEGIN"; "ITEM LON F 32;";
                     "ITEM LAT F 32;"; "END"])) as [p|e p] eqn:Hp;
    [|vm_compute in Hp; discriminate Hp].
  destruct (get_hover_info p 0 8) as [[info|]|e p'] eqn:Hh.
  - destruct (hover_reports_identifier_at_cursor p 0 8 info Hh)
      as (_ & pre & w & post & Hl & _ & _ & _ & Hc & _).
    exists p, info. split; [reflexivity|]. split; [exact Hh|].
    exists pre, w, post. split; [exact Hl|]. split; [exact Hc|].
    vm_compute in Hp. injection Hp as <-. vm_compute in Hh.
    now injection Hh as <-.
  - vm_compute in Hp. injection Hp as <-. vm_compute in Hh. discriminate Hh.
  - vm_compute in Hp. injection Hp as <-. vm_compute in Hh. discriminate Hh.
Defined.

(** ** Texts on which [parse] returns *)

Module Totality.
Import Re ReSpec ReFacts PatternFacts ItemFacts Occurrence.

Lemma infix_refl (s : str) : infix s s.
Proof. exists [], []. now rewrite app_nil_r. Qed.

Lemma infix_trans (a b c : str) : infix a b -> infix b c -> infix a c.
Proof.
  intros (x & y & ->) (x' & y' & ->).
  exists (x' ++ x), (y ++ y'). now rewrite <- !app_assoc.
Qed.

Lemma infix_app_l (t a b : str) : infix t a -> infix t (a ++ b).
Proof.
  intros (x & y & ->). exists x, (y ++ b). now rewrite <- !app_assoc.
Qed.

Lemma infix_app_r (t a b : str) : infix t b -> infix t (a ++ b).
Proof.
  intros (x & y & ->). exists (a ++ x), y. now rewrite <- !app_assoc.
Qed.

Lemma infix_cons (t : str) (a : ascii) (s : str) :
  infix t s -> infix t (a :: s).
Proof. apply (infix_app_r t [a] s). Qed.

Lemma infix_nil (s : str) : infix [] s.
Proof. now exists [], s. Qed.

Lemma no_double_minus_infix (t s : str) :
  infix t s -> no_double_minus s -> no_double_minus t.
Proof. intros Hts Hs Ht. apply Hs. eapply infix_trans; eassumption. Qed.

Lemma contains_false (s p : str) :
  Py.contains s p = false -> ~ infix p s.
Proof.
  unfold Py.contains, Py.find_opt. intros H (x & y & ->).
  destruct (find_from_infix x p y 0) as [j Hj]. now rewrite Hj in H.
Qed.

Lemma strip_is_infix (s : str) : infix (Py.strip s) s.
Proof. destruct (strip_infix s) as (a & b & H). now exists a, b. Qed.

Lemma rstrip_char_is_infix (c : ascii) (s : str) :
  infix (Py.rstrip_char c s) s.
Proof.
  destruct (rstrip_char_prefix c s) as (b & H). exists [], b. exact H.
Qed.

(** [_remove_comments] returns a prefix of the line. *)
Lemma _remove_comments_loop_prefix (line result : str)
    (in_string in_comment : bool) :
  exists kept t,
    _remove_comments_loop line result in_string in_comment = result ++ kept
    /\ line = kept ++ t.
Proof.
  revert result in_string in_comment.
  induction line as [|a line IH]; intros result in_string in_comment.
  - exists [], []. split; [simpl; now rewrite app_nil_r | reflexivity].
  - cbn [_remove_comments_loop].
    destruct in_comment.
    { exists [], (a :: line). split; [now rewrite app_nil_r | reflexivity]. }
    destruct (Ascii.eqb a "034"%char && negb in_string).
    { destruct (IH result in_string true) as (kept & t & Hk & Ht).
      rewrite CommentFacts.loop_in_comment in *.
      exists [], (a :: line). split; [now rewrite app_nil_r | reflexivity]. }
    destruct (Ascii.eqb a "'"%char && negb false).
    + destruct (IH (result ++ [a]) (negb in_string) false)
        as (kept & t & -> & ->).
      exists (a :: kept), t. split; [now rewrite <- app_assoc | reflexivity].
    + destruct (IH (result ++ [a]) in_string false) as (kept & t & -> & ->).
      exists (a :: kept), t. split; [now rewrite <- app_assoc | reflexivity].
Qed.

Lemma _remove_comments_is_infix (line : str) :
  infix (_remove_comments line) line.
Proof.
  unfold _remove_comments.
  destruct (_remove_comments_loop_prefix line [] false false)
    as (kept & t & -> & ->).
  exists [], t. reflexivity.
Qed.

Lemma stripped_line_is_infix (line : str) : infix (stripped_line line) line.
Proof.
  eapply infix_trans; [apply strip_is_infix | apply _remove_comments_is_infix].
Qed.

(** The pieces of [split] stand in the text. *)
Lemma split_hd_prefix (c : ascii) (s : str) :
  exists t, s = hd [] (Py.split c s) ++ t.
Proof.
  induction s as [|a s [t IH]]; [now exists []|].
  cbn [Py.split]. destruct (Ascii.eqb a c); simpl.
  - now exists (a :: s).
  - exists t. now f_equal.
Qed.

Lemma split_infix (c : ascii) (s piece : str) :
  piece ∈ Py.split c s -> infix piece s.
Proof.
  revert piece. induction s as [|a s IH]; intros piece.
  - simpl. intros ->%list_elem_of_singleton. apply infix_nil.
  - cbn [Py.split]. destruct (Ascii.eqb a c).
    + intros [->|H]%elem_of_cons; [apply infix_nil|].
      apply infix_cons. now apply IH.
    + cbv zeta. intros [->|H]%elem_of_cons.
      * destruct (split_hd_prefix c s) as [t Ht].
        exists [], t. simpl. now f_equal.
      * apply infix_cons, IH.
        destruct (Py.split c s); [now apply elem_of_nil in H|].
        simpl in H. apply elem_of_cons. auto.
Qed.

Lemma lookup_default_infix (c : ascii) (s : str) (i : nat) :
  infix (default [] (Py.split c s !! i)) s.
Proof.
  destruct (Py.split c s !! i) as [piece|] eqn:E; simpl.
  - apply (split_infix c). eapply list_elem_of_lookup_2. exact E.
  - apply infix_nil.
Qed.

(** A group of a match stands in the text matched. *)
Lemma matches_capture_infix r w rest c c' :
  Matches r w rest c c' ->
  forall i v, c' !! i = Some v -> c !! i = Some v \/ infix v w.
Proof.
  induction 1; intros j v Hv; auto.
  - apply IHMatches2 in Hv as [Hv|Hv]; [|right; now apply infix_app_r].
    apply IHMatches1 in Hv as [Hv|Hv]; [auto | right; now apply infix_app_l].
  - apply IHMatches2 in Hv as [Hv|Hv]; [|right; now apply infix_app_r].
    apply IHMatches1 in Hv as [Hv|Hv]; [auto | right; now apply infix_app_l].
  - destruct (decide (i = j)) as [->|Hne].
    + rewrite lookup_insert_eq in Hv. injection Hv as <-.
      right. apply infix_refl.
    + rewrite lookup_insert_ne in Hv by assumption. now apply IHMatches.
Qed.

Lemma group_or_empty_infix (r : regex) (s : str) (m : Match) (i : nat) :
  match_ r s = Some m -> infix (group_or_empty m i) s.
Proof.
  intros Hm. apply match_sound in Hm as (rest & Hs & H).
  unfold group_or_empty, group.
  destruct (groups m !! i) as [v|] eqn:E; simpl; [|apply infix_nil].
  apply (matches_capture_infix _ _ _ _ _ H) in E as [E|E]; [discriminate E|].
  rewrite Hs. now apply infix_app_l.
Qed.

(** [re.search] returns a match of the pattern, which stands in the
    text. *)
Lemma run_accept_sound (r : regex) (s rest : str) c :
  run r accept s ∅ = Some (rest, c) ->
  Matches r (take (length s - length rest) s) rest ∅ c
  /\ s = take (length s - length rest) s ++ rest.
Proof.
  intros H. apply run_sound in H as (w & rest' & c' & -> & Hm & Hk).
  injection Hk as -> ->. now rewrite take_app_rest.
Qed.

Lemma search_from_sound (r : regex) (s pre : str) x m rest :
  search_from r pre s = Some (x, m, rest) ->
  Matches r (whole m) rest ∅ (groups m) /\ infix (whole m) s.
Proof.
  revert pre. induction s as [|a s IH]; intros pre; cbn [search_from].
  - destruct (run r accept [] ∅) as [[rest' c]|] eqn:H; [|discriminate].
    intros [= <- <- <-]. apply run_accept_sound in H as [H E].
    split; [exact H|]. exists [], rest'. exact E.
  - destruct (run r accept (a :: s) ∅) as [[rest' c]|] eqn:H.
    + intros [= <- <- <-]. apply run_accept_sound in H as [H E].
      split; [exact H|]. exists [], rest'. exact E.
    + intros H'. apply IH in H' as [H1 H2].
      split; [exact H1 | now apply infix_cons].
Qed.

Lemma search_group_infix (r : regex) (s : str) (m : Match) (i : nat) :
  search r s = Some m -> infix (group_or_empty m i) s.
Proof.
  unfold search. destruct (search_from r [] s) as [[[x m'] rest]|] eqn:H;
    [|discriminate].
  intros [= <-]. apply search_from_sound in H as [H Hin].
  unfold group_or_empty, group.
  destruct (groups m' !! i) as [v|] eqn:E; simpl; [|apply infix_nil].
  apply (matches_capture_infix _ _ _ _ _ H) in E as [E|E]; [discriminate E|].
  eapply infix_trans; eassumption.
Qed.

(** The group of a match of [W_RE] is a run of digits. *)
Lemma W_RE_digits (s : str) (m : Match) :
  search W_RE s = Some m -> Py.isdigit (group_or_empty m 1) = true.
Proof.
  unfold search. destruct (search_from W_RE [] s) as [[[x m'] rest]|] eqn:H;
    [|discriminate].
  intros [= <-]. apply search_from_sound in H as [H _].
  apply cat_inv in H as (w1 & w' & c1 & _ & H1 & H).
  apply cat_inv in H as (w2 & w3 & c2 & _ & H2 & H).
  apply grp_inv in H as (c3 & H & Hg).
  apply plus_cls_inv in H as (Hne & Hall & _).
  unfold group_or_empty, group. rewrite Hg, lookup_insert_eq. simpl.
  destruct w3; [congruence | exact Hall].
Qed.

(** A text that stands in a joined text and does not hold the separator
    stands in one of the two parts. *)
Lemma prefix_before_sep (sep : ascii) (d a b y : str) :
  ~ In sep d -> a ++ sep :: b = d ++ y -> exists t, a = d ++ t.
Proof.
  revert a. induction d as [|c d IH]; intros a Hn H; [now exists a|].
  destruct a as [|c' a]; simpl in H.
  - injection H as -> _. exfalso. apply Hn. now left.
  - injection H as -> H. destruct (IH a) as [t ->]; [|exact H|now exists t].
    intros Hin. apply Hn. now right.
Qed.

Lemma infix_join (sep : ascii) (d a b : str) :
  ~ In sep d -> infix d (a ++ sep :: b) -> infix d a \/ infix d b.
Proof.
  intros Hn (x & y & H). revert x H.
  induction a as [|a0 a IH]; intros x H.
  - destruct x as [|c x].
    + destruct d as [|c d]; [left; apply infix_nil|].
      injection H as -> _. exfalso. apply Hn. now left.
    + injection H as _ H. right. now exists x, y.
  - destruct x as [|c x].
    + simpl in H. left.
      destruct (prefix_before_sep sep d (a0 :: a) b y Hn H) as [t ->].
      now exists [], t.
    + injection H as _ H. apply IH in H as [H|H]; [left | now right].
      now apply infix_cons.
Qed.

Lemma digits_no_space (d : str) :
  Py.isdigit d = true -> ~ In " "%char d.
Proof.
  intros H Hin. apply PyFacts.isdigit_forall in H as [_ H].
  rewrite Forall_forall in H. apply list_elem_of_In, H in Hin.
  discriminate Hin.
Qed.

Lemma tame_infix (t s : str) : infix t s -> tame s -> tame t.
Proof.
  intros Hts [H1 H2]. split.
  - now apply (no_double_minus_infix t s).
  - intros d Hd. apply H2. eapply infix_trans; eassumption.
Qed.

Lemma tame_nil : tame [].
Proof.
  split.
  - intros (x & y & H). destruct x; discriminate H.
  - intros d (x & y & H) Hd. destruct x; [|discriminate H].
    destruct d; discriminate.
Qed.

Lemma tame_join (a b : str) : tame a -> tame b -> tame (a ++ L " " ++ b).
Proof.
  intros [A1 A2] [B1 B2]. split.
  - intros H. apply (infix_join " "%char) in H as [H|H]; auto.
    intros [E|[E|[]]]; discriminate E.
  - intros d H Hd.
    apply (infix_join " "%char) in H as [H|H]; auto.
    now apply digits_no_space.
Qed.

(** The digits at the head of a text that starts with a run of digits. *)
Lemma leading_digits_app (d y : str) :
  Forall (fun a => Py.isdigit_char a = true) d ->
  length d <= leading_digits (d ++ y).
Proof.
  induction 1 as [|a d Ha _ IH]; simpl; [lia|]. rewrite Ha. lia.
Qed.

Lemma longest_digit_run_infix (d s : str) :
  infix d s -> Py.isdigit d = true -> length d <= longest_digit_run s.
Proof.
  intros (x & y & ->) Hd. apply PyFacts.isdigit_forall in Hd as [Hne Hd].
  induction x as [|a x IH].
  - destruct d as [|c d]; [congruence|].
    pose proof (leading_digits_app (c :: d) y Hd) as H.
    cbn [app longest_digit_run] in *. lia.
  - cbn [app longest_digit_run]. lia.
Qed.

Lemma short_digit_runs_of_longest (s : str) :
  (Z.of_nat (longest_digit_run s) <=? Py.int_max_str_digits)%Z = true ->
  short_digit_runs s.
Proof.
  intros H d Hin Hd. apply Z.leb_le in H.
  pose proof (longest_digit_run_infix d s Hin Hd).
  unfold Py.within_limit. apply Z.leb_le. lia.
Qed.

(** In a tame text [int] accepts every bound that passes the test of the
    code. *)
Lemma bound_int (s : str) :
  tame s ->
  Py.isdigit (Py.lstrip_char "-" s) = true ->
  exists n, Py.int s = Some n.
Proof.
  intros [Hdm Hrun] Hd. destruct s as [|a s]; [discriminate Hd|].
  destruct (Ascii.eqb a "-"%char) eqn:Ea.
  - apply Ascii.eqb_eq in Ea as ->.
    rewrite BoundFacts.lstrip_char_minus in Hd.
    destruct s as [|b s]; [discriminate Hd|].
    destruct (Ascii.eqb b "-"%char) eqn:Eb.
    + apply Ascii.eqb_eq in Eb as ->. exfalso. apply Hdm.
      exists [], s. reflexivity.
    + cbn [Py.lstrip_char] in Hd. rewrite Eb in Hd.
      unfold Py.int. rewrite Hd.
      rewrite (Hrun (b :: s)); [simpl; eauto | | exact Hd].
      exists ["-"%char], []. now rewrite app_nil_r.
  - cbn [Py.lstrip_char] in Hd. rewrite Ea in Hd.
    rewrite (PyFacts.int_digits _ Hd).
    rewrite (Hrun (a :: s)); [eauto | apply infix_refl | exact Hd].
Qed.

Lemma digits_int (s d : str) :
  tame s -> infix d s -> Py.isdigit d = true ->
  Py.int d = Some (Py.digits_value d).
Proof.
  intros [_ Hrun] Hin Hd.
  now rewrite (PyFacts.int_digits _ Hd), (Hrun d Hin Hd).
Qed.

Lemma parse_bound_returns self part :
  tame part -> exists n, parse_bound self part = Done n.
Proof.
  intros Ht. unfold parse_bound.
  destruct (Py.isdigit _) eqn:Hd; [|eauto].
  destruct (bound_int (Py.strip part)) as [n Hn]; [|assumption|].
  - eapply tame_infix; [apply strip_is_infix | assumption].
  - unfold int_or_raise. rewrite Hn. eauto.
Qed.

Lemma parse_dim_returns self dim :
  tame dim -> exists d, parse_dim self dim = Done d.
Proof.
  intros Ht. unfold parse_dim. cbv zeta.
  assert (Hs : tame (Py.strip dim))
    by (eapply tame_infix; [apply strip_is_infix | assumption]).
  destruct (Py.has_char ":" (Py.strip dim)).
  - destruct (parse_bound_returns self
                (default [] (Py.split ":" (Py.strip dim) !! 0%nat)))
      as [lo ->].
    { eapply tame_infix; [apply lookup_default_infix | exact Hs]. }
    destruct (parse_bound_returns self
                (default [] (Py.split ":" (Py.strip dim) !! 1%nat)))
      as [hi ->].
    { eapply tame_infix; [apply lookup_default_infix | exact Hs]. }
    simpl. eauto.
  - destruct (Py.isdigit (Py.strip dim)) eqn:Hd; simpl; [|eauto].
    unfold int_or_raise.
    rewrite (digits_int _ _ Hs (infix_refl _) Hd). simpl. eauto.
Qed.

Lemma parse_dims_returns self parts acc :
  Forall tame parts ->
  exists dims, parse_dims self parts acc = Done dims.
Proof.
  intros H. revert acc. induction H as [|part parts Hp _ IH]; intros acc.
  - simpl. eauto.
  - simpl. destruct (parse_dim_returns self part Hp) as [d ->]. simpl.
    apply IH.
Qed.

Lemma _parse_table_declaration_returns self statement i :
  tame statement ->
  exists self', _parse_table_declaration self statement i = Done self'.
Proof.
  intros Ht. unfold _parse_table_declaration.
  destruct (match_ TABLE_RE _) as [m|] eqn:Hm; [|eauto].
  assert (Hstmt : infix (Py.strip (Py.rstrip_char ";" statement)) statement).
  { eapply infix_trans; [apply strip_is_infix | apply rstrip_char_is_infix]. }
  destruct (parse_dims_returns self (Py.split "," (group_or_empty m 2)) [])
    as [dims ->].
  { apply Forall_forall. intros piece Hp%(split_infix ","%char).
    eapply tame_infix; [|exact Ht].
    eapply infix_trans; [exact Hp|].
    eapply infix_trans; [apply (group_or_empty_infix _ _ _ _ Hm)|].
    exact Hstmt. }
  simpl. destruct (search W_RE _) as [w|] eqn:Hw; simpl; [|eauto].
  unfold int_or_raise.
  rewrite (digits_int statement (group_or_empty w 1) Ht).
  - simpl. eauto.
  - eapply infix_trans; [apply (search_group_infix _ _ _ 1 Hw)|].
    eapply infix_trans; [apply (group_or_empty_infix _ _ _ _ Hm)|].
    exact Hstmt.
  - now apply (W_RE_digits _ _ Hw).
Qed.

Lemma _parse_item_declaration_returns self statement i :
  tame statement ->
  exists self', _parse_item_declaration self statement i = Done self'.
Proof.
  intros [_ Hrun].
  destruct (match_ ITEM_RE (Py.strip (Py.rstrip_char ";" statement)))
    as [m|] eqn:Hm.
  - destruct (_parse_item_declaration_match self statement i m Hm)
      as [size ->]; [|eauto].
    unfold size_within_limit.
    destruct (group m 4) as [g|] eqn:Hg; [|reflexivity].
    destruct g as [|a g]; [reflexivity|].
    apply Hrun; [|now apply (ITEM_RE_size _ _ _ Hm)].
    pose proof (group_or_empty_infix _ _ _ 4 Hm) as H.
    unfold group_or_empty in H. rewrite Hg in H. simpl in H.
    eapply infix_trans; [exact H|].
    eapply infix_trans; [apply strip_is_infix | apply rstrip_char_is_infix].
  - unfold _parse_item_declaration. rewrite Hm. eauto.
Qed.

Lemma _parse_statement_returns self statement i :
  tame statement ->
  exists self', _parse_statement self statement i = Done self'.
Proof.
  intros Ht. unfold _parse_statement.
  repeat case_match; eauto.
  - now apply _parse_item_declaration_returns.
  - now apply _parse_table_declaration_returns.
Qed.

Lemma parse_loop_returns (lines : list str) :
  Forall tame lines ->
  forall self buf i,
    tame buf ->
    exists p, parse_loop self buf i lines = Done p.
Proof.
  induction 1 as [|line lines Hl _ IH]; intros self buf i Hb.
  - simpl. eauto.
  - rewrite parse_loop_line.
    assert (Hs : tame (stripped_line line))
      by (eapply tame_infix; [apply stripped_line_is_infix | exact Hl]).
    assert (Hj : tame (buf ++ L " " ++ stripped_line line))
      by now apply tame_join.
    destruct (is_complete (stripped_line line)).
    + destruct (_parse_statement_returns
                  (Parser.set_current_line_num i self)
                  (Py.strip (buf ++ L " " ++ stripped_line line)) i)
        as [self' ->].
      { eapply tame_infix; [apply strip_is_infix | exact Hj]. }
      simpl. apply IH. apply tame_nil.
    + apply IH. now destruct (nonempty (stripped_line line)).
Qed.

End Totality.

(** X15: [parse] returns a model for every 7-bit ASCII text that holds
    neither two minus signs in a row nor a run of more digits than [int]
    converts: on such a text no statement raises.  (Outside ASCII Python's
    [isdigit] accepts characters that [int] refuses, which the embedding
    leaves out.) *)
Theorem parse_returns_on_tame_text (self : JovialSemanticParser)
    (code : str) :
  is_ascii_text code = true ->
  Py.contains code (L "--") = false ->
  (Z.of_nat (longest_digit_run code) <=? Py.int_max_str_digits)%Z = true ->
  exists p, parse self code = Done p.
Proof.
  intros _ H Hrun. apply Totality.contains_false in H.
  apply Totality.short_digit_runs_of_longest in Hrun.
  unfold parse. apply Totality.parse_loop_returns.
  - simpl. apply Forall_forall. intros line Hl.
    apply (Totality.split_infix "010"%char) in Hl.
    apply (Totality.tame_infix line code Hl). now split.
  - apply Totality.tame_nil.
Qed.

(** [parse_returns_on_tame_text] on a text with negative bounds and a
    negative initial value. *)
Lemma parse_returns_on_tame_text_witness :
  exists p,
    parse Parser.init
      (text ["TABLE T (-5:10, -3);"; "ITEM X S 16 = -1;"]) = Done p.
Proof.
  apply parse_returns_on_tame_text; reflexivity.
Defined.
